(** * ABSEIR: the calibration orchestrator of the spatial SEIR model

    A shallow embedding of [src/spatialSEIRModel.cpp]: the constructor of
    [spatialSEIRModel] with its cross-component validation, the prior
    sampler [generateParamsPrior], the prior density [evalPrior],
    [setParameters], [run_simulation], and the run-control block
    [samplingControl].

    Conventions of the embedding.
    - A C++ [double] is an abstract type [D] with the operations the source
      applies to it ([+], [*], [/], [>], [<=], the literals 0.0, 1.0, 2.0).
      No law of arithmetic is built in; a theorem that needs one states it.
    - What the source calls from outside the repository is a parameter:
      the R densities [R::dnorm], [R::dbeta], [R::dgamma], the standard
      library's samplers and generators, and the collaborators' classes
      whose headers are not part of the source file.
    - [Rcpp::stop] is the outcome [Stop]; an access outside a container or
      through an empty pointer, which C++ leaves undefined, is [Fault].
    - Column counts, lengths and loop indices are natural numbers, and the
      [int] members of the components are integers: the wrap-around of a
      32-bit [int] is not part of the model. *)

From Stdlib Require Import ZArith String Ascii Bool Lia PeanoNat DecimalString.
From Stdlib Require PrimFloat FloatOps FloatAxioms SpecFloat.
From Stdlib Require Import Permutation Sorted List.
Import ListNotations.
Local Open Scope list_scope.

(** ** Outcomes of a call *)

Inductive outcome (A : Type) : Type :=
| Done (a : A)
| Stop (msg : string)
| Fault.

Arguments Done {A} a.
Arguments Stop {A} msg.
Arguments Fault {A}.

Definition bind {A B : Type} (m : outcome A) (k : A -> outcome B) : outcome B :=
  match m with
  | Done a => k a
  | Stop msg => Stop msg
  | Fault => Fault
  end.

Notation "x <- m ;; k" := (bind m (fun x => k))
  (at level 61, m at next level, right associativity).
Notation "' p <- m ;; k" := (bind m (fun p => k))
  (at level 61, p pattern, m at next level, right associativity).

(** [for (i = lo; i < lo + n; i++) s = body(i, s)]. *)
Fixpoint for_loop {S : Type} (n lo : nat) (body : nat -> S -> outcome S) (s : S)
  : outcome S :=
  match n with
  | O => Done s
  | Datatypes.S n' => s' <- body lo s ;; for_loop n' (Datatypes.S lo) body s'
  end.

(** ** Eigen and std containers *)

(** An [Eigen::Matrix]: its dimensions and its coefficients. *)
Record Matrix (A : Type) : Type := mkMatrix {
  rows : nat;
  cols : nat;
  coeff : nat -> nat -> A
}.

Arguments mkMatrix {A} rows cols coeff.
Arguments rows {A} m.
Arguments cols {A} m.
Arguments coeff {A} m i j.

Definition in_range {A : Type} (m : Matrix A) (i j : nat) : bool :=
  (i <? rows m) && (j <? cols m).

(** [m(i, j)] read. *)
Definition mget {A : Type} (m : Matrix A) (i j : nat) : outcome A :=
  if in_range m i j then Done (coeff m i j) else Fault.

(** [m(i, j) = x]. *)
Definition mset {A : Type} (m : Matrix A) (i j : nat) (x : A) : outcome (Matrix A) :=
  if in_range m i j
  then Done (mkMatrix (rows m) (cols m)
               (fun r c => if (r =? i) && (c =? j) then x else coeff m r c))
  else Fault.

(** [m.col(j)]. *)
Definition col {A : Type} (m : Matrix A) (j : nat) : outcome (list A) :=
  if j <? cols m then Done (map (fun i => coeff m i j) (seq 0 (rows m))) else Fault.

(** [Eigen::MatrixXd::Zero(r, c)] for [int] dimensions. *)
Definition Zero {A : Type} (zero : A) (r c : Z) : outcome (Matrix A) :=
  if ((0 <=? r) && (0 <=? c))%Z
  then Done (mkMatrix (Z.to_nat r) (Z.to_nat c) (fun _ _ => zero))
  else Fault.

(** A default-constructed [Eigen::MatrixXd]: 0 rows, 0 columns. *)
Definition empty_matrix {A : Type} (zero : A) : Matrix A :=
  mkMatrix 0 0 (fun _ _ => zero).

(** [int] is 32 bits wide: a sum that leaves [-2^31, 2^31) comes back into
    it modulo 2^32, which is what the two's complement targets of R do. *)
Definition wrap_int (z : Z) : Z := ((z + 2 ^ 31) mod 2 ^ 32 - 2 ^ 31)%Z.

Definition int_add (x y : Z) : Z := wrap_int (x + y).

(** [v(i)] and [v[i]] on a vector. *)
Definition vget {A : Type} (v : list A) (i : nat) : outcome A :=
  match nth_error v i with
  | Some x => Done x
  | None => Fault
  end.

(** [v.segment(start, n)]. *)
Definition segment {A : Type} (v : list A) (start n : nat) : outcome (list A) :=
  if start + n <=? length v then Done (firstn n (skipn start v)) else Fault.

(** [std::to_string] of an [int]. *)
Definition to_string (z : Z) : string := NilZero.string_of_int (Z.to_int z).

Definition nl : string := String (ascii_of_nat 10) EmptyString.

(** A [bool] used as a number, as in [cols * hasReinfection]. *)
Definition b2n (b : bool) : nat := if b then 1 else 0.

(** ** The model components

    The orchestrator borrows seven components. Their classes live in headers
    that are not part of the source file; each record lists the members the
    source file reads, under the names it reads them by. *)

Module dataModel.
Record t : Type := mk {
  getModelComponentType : Z;
  nLoc : Z;
  nTpt : Z;
  Y : Matrix Z
}.
End dataModel.

Module exposureModel.
Record t (D : Type) : Type := mk {
  getModelComponentType : Z;
  nLoc : Z;
  nTpt : Z;
  X : Matrix D;
  betaPriorMean : list D;
  betaPriorPrecision : list D
}.
Arguments mk {D}.
Arguments getModelComponentType {D} t.
Arguments nLoc {D} t.
Arguments nTpt {D} t.
Arguments X {D} t.
Arguments betaPriorMean {D} t.
Arguments betaPriorPrecision {D} t.
End exposureModel.

Module reinfectionModel.
Record t (D : Type) : Type := mk {
  getModelComponentType : Z;
  reinfectionMode : Z;
  X_rs : Matrix D;
  betaPriorMean : list D;
  betaPriorPrecision : list D
}.
Arguments mk {D}.
Arguments getModelComponentType {D} t.
Arguments reinfectionMode {D} t.
Arguments X_rs {D} t.
Arguments betaPriorMean {D} t.
Arguments betaPriorPrecision {D} t.
End reinfectionModel.

Module distanceModel.
Record t (D : Type) : Type := mk {
  getModelComponentType : Z;
  numLocations : Z;
  dm_list : list (Matrix D);
  tdm_list : list (list (Matrix D));
  spatial_prior : list D
}.
Arguments mk {D}.
Arguments getModelComponentType {D} t.
Arguments numLocations {D} t.
Arguments dm_list {D} t.
Arguments tdm_list {D} t.
Arguments spatial_prior {D} t.
End distanceModel.

Module transitionPriors.
Record t (D : Type) : Type := mk {
  getModelComponentType : Z;
  mode : string;
  E_to_I_params : Matrix D;
  I_to_R_params : Matrix D
}.
Arguments mk {D}.
Arguments getModelComponentType {D} t.
Arguments mode {D} t.
Arguments E_to_I_params {D} t.
Arguments I_to_R_params {D} t.
End transitionPriors.

Module initialValueContainer.
Record t : Type := mk {
  getModelComponentType : Z;
  S0 : list Z;
  E0 : list Z;
  I0 : list Z;
  R0 : list Z
}.
End initialValueContainer.

(** ** samplingControl: the run-control block *)

Module samplingControl.

Record t (D : Type) : Type := mk {
  simulation_width : Z;
  random_seed : Z;
  CPU_cores : Z;
  algorithm : Z;
  batch_size : Z;
  epochs : Z;
  max_batches : Z;
  multivariatePerturbation : bool;
  m : Z;
  accept_fraction : D;
  shrinkage : D;
  target_eps : D;
  prot : Z
}.
Arguments mk {D}.
Arguments simulation_width {D} t.
Arguments random_seed {D} t.
Arguments CPU_cores {D} t.
Arguments algorithm {D} t.
Arguments batch_size {D} t.
Arguments epochs {D} t.
Arguments max_batches {D} t.
Arguments multivariatePerturbation {D} t.
Arguments m {D} t.
Arguments accept_fraction {D} t.
Arguments shrinkage {D} t.
Arguments target_eps {D} t.
Arguments prot {D} t.

Section Methods.

Variable D : Type.

(** The algorithm codes and the component tag, from [samplingControl.hpp]. *)
Variables ALG_BasicABC ALG_ModifiedBeaumont2009 ALG_DelMoral2012 : Z.
Variable LSS_SAMPLING_CONTROL_MODEL_TYPE : Z.

(** [samplingControl::samplingControl(integerParameters, numericParameters)].
    [prot0] is the reference count the base class starts the object with:
    the constructor does not assign it. The warning of the single-thread
    build (lines 468-473) does not change the control flow. *)
Definition new (prot0 : Z) (integerParameters : list Z) (numericParameters : list D)
  : outcome (t D) :=
  if negb (length integerParameters =? 9) || negb (length numericParameters =? 3)
  then Stop "Exactly 12 samplingControl parameters are required."
  else
    simulation_width <- vget integerParameters 0 ;;
    random_seed <- vget integerParameters 1 ;;
    CPU_cores <- vget integerParameters 2 ;;
    algorithm <- vget integerParameters 3 ;;
    batch_size <- vget integerParameters 4 ;;
    epochs <- vget integerParameters 5 ;;
    max_batches <- vget integerParameters 6 ;;
    mvp <- vget integerParameters 7 ;;
    m <- vget integerParameters 8 ;;
    accept_fraction <- vget numericParameters 0 ;;
    shrinkage <- vget numericParameters 1 ;;
    target_eps <- vget numericParameters 2 ;;
    if (negb (algorithm =? ALG_BasicABC)
        && negb (algorithm =? ALG_ModifiedBeaumont2009)
        && negb (algorithm =? ALG_DelMoral2012))%Z
    then Stop "Algorithm specification must be of length 1 and equal to 1 or 2 or 3."
    else if (max_batches <=? 0)%Z
    then Stop "max_batches must be greater than zero."
    else Done (mk simulation_width random_seed CPU_cores algorithm batch_size
                 epochs max_batches (negb (mvp =? 0)%Z) m
                 accept_fraction shrinkage target_eps prot0).

(** [samplingControl::~samplingControl()]. *)
Definition delete (this : t D) : outcome unit :=
  if negb (prot this =? 0)%Z
  then Stop ("can't delete samplingControl, still being used." ++ nl)
  else Done tt.

(** [samplingControl::getModelComponentType()]: the value returned, and the
    object after the call. *)
Definition getModelComponentType (this : t D) : Z * t D :=
  (LSS_SAMPLING_CONTROL_MODEL_TYPE, this).

End Methods.

Arguments new {D}.
Arguments delete {D}.
Arguments getModelComponentType {D}.

End samplingControl.

(** ** The transition distribution and the worker pool *)

(** Modelled from the spec: the class [weibullTransitionDistribution] is
    declared outside the source file. The spec says a TransitionDistribution
    instance "owns a small hyperparameter vector"; the object is the vector
    its constructor was given. *)
Record weibullTransitionDistribution (D : Type) : Type := mkWeibull {
  priorParams : list D
}.
Arguments mkWeibull {D} priorParams.
Arguments priorParams {D} w.

(** Modelled from the spec: the class [NodePool] is declared outside the
    source file. The spec says the pool is "constructed once, bound to" the
    shared inputs "plus worker count and base seed"; the object records the
    worker count, the seed and the summary width it was built with. *)
Record NodePool : Type := mkNodePool {
  pool_cores : Z;
  pool_seed : Z;
  pool_m : Z
}.

Section Orchestrator.

Set Default Proof Using "Type".
Set Proof Using Clear Unused.

(** *** Numbers *)

Variable D : Type.
Variables d0 d1 d2 : D.
Variables add mul div : D -> D -> D.
Variables gtb leb : D -> D -> bool.

(** [(double) b] for a [bool], as in [outPrior *= (constr <= 1)]. *)
Definition of_bool (b : bool) : D := if b then d1 else d0.

(** *** Random numbers

    [rng] is the state behind [*generator] together with the state the
    distribution objects keep between draws. *)

Variable rng : Type.
Variable standardNormal : rng -> D * rng.
Variable gamma_distribution : D -> D -> rng -> D * rng.

(** The seeding chain [minstd_rand0(seed)] to [seed_seq] to [mt19937]. *)
Variable mt19937_seeded : Z -> rng.

(** *** The R densities, with [give_log = 0] *)

Variables dnorm dbeta dgamma : D -> D -> D -> D.

(** [weibullTransitionDistribution::evalParamPrior]. *)
Variable evalParamPrior : weibullTransitionDistribution D -> list D -> D.

(** *** Declarations of the absent headers *)

Variable simulationResultSet : Type.

Variables LSS_DATA_MODEL_TYPE LSS_EXPOSURE_MODEL_TYPE LSS_REINFECTION_MODEL_TYPE
          LSS_DISTANCE_MODEL_TYPE LSS_TRANSITION_MODEL_TYPE LSS_INIT_CONTAINER_TYPE
          LSS_SAMPLING_CONTROL_MODEL_TYPE : Z.

(** The storage of a freshly allocated [Eigen::MatrixXd(r, c)]: Eigen does
    not initialise it. *)
Variable uninitialized : nat -> nat -> D.

(** ** The orchestrator object

    The members the source file names. [hasReinfection], [hasSpatial],
    [transitionMode] and [N] are read by [setParameters] and
    [generateParamsPrior] without a local declaration, and [ncalls] and
    [result_idx] by the constructor: they are members declared in
    [spatialSEIRModel.hpp], which no line of the source file assigns. The two
    [unique_ptr] members and [worker_pool] are [None] while empty. *)
Record spatialSEIRModel : Type := mkModel {
  dataModelInstance : dataModel.t;
  exposureModelInstance : exposureModel.t D;
  reinfectionModelInstance : reinfectionModel.t D;
  distanceModelInstance : distanceModel.t D;
  transitionPriorsInstance : transitionPriors.t D;
  initialValueContainerInstance : initialValueContainer.t;
  samplingControlInstance : samplingControl.t D;
  EI_transition_dist : option (weibullTransitionDistribution D);
  IR_transition_dist : option (weibullTransitionDistribution D);
  generator : rng;
  is_initialized : bool;
  param_matrix : Matrix D;
  results_complete : list simulationResultSet;
  results_double : Matrix D;
  result_idx : list Z;
  worker_pool : option NodePool;
  ncalls : Z;
  hasReinfection : bool;
  hasSpatial : bool;
  transitionMode : string;
  N : nat
}.

(** Assignments to members. *)

Definition set_components (dm : dataModel.t) (em : exposureModel.t D)
  (rm : reinfectionModel.t D) (dist : distanceModel.t D) (tp : transitionPriors.t D)
  (iv : initialValueContainer.t) (sc : samplingControl.t D)
  (this : spatialSEIRModel) : spatialSEIRModel :=
  let 'mkModel _ _ _ _ _ _ _ ei ir g ini pm rc rd ri wp nc hr hs tm n := this in
  mkModel dm em rm dist tp iv sc ei ir g ini pm rc rd ri wp nc hr hs tm n.

Definition set_EI_transition_dist (ei : option (weibullTransitionDistribution D))
  (this : spatialSEIRModel) : spatialSEIRModel :=
  let 'mkModel dm em rm dist tp iv sc _ ir g ini pm rc rd ri wp nc hr hs tm n := this in
  mkModel dm em rm dist tp iv sc ei ir g ini pm rc rd ri wp nc hr hs tm n.

Definition set_IR_transition_dist (ir : option (weibullTransitionDistribution D))
  (this : spatialSEIRModel) : spatialSEIRModel :=
  let 'mkModel dm em rm dist tp iv sc ei _ g ini pm rc rd ri wp nc hr hs tm n := this in
  mkModel dm em rm dist tp iv sc ei ir g ini pm rc rd ri wp nc hr hs tm n.

Definition set_generator (g : rng) (this : spatialSEIRModel) : spatialSEIRModel :=
  let 'mkModel dm em rm dist tp iv sc ei ir _ ini pm rc rd ri wp nc hr hs tm n := this in
  mkModel dm em rm dist tp iv sc ei ir g ini pm rc rd ri wp nc hr hs tm n.

Definition set_is_initialized (ini : bool) (this : spatialSEIRModel) : spatialSEIRModel :=
  let 'mkModel dm em rm dist tp iv sc ei ir g _ pm rc rd ri wp nc hr hs tm n := this in
  mkModel dm em rm dist tp iv sc ei ir g ini pm rc rd ri wp nc hr hs tm n.

Definition set_param_matrix (pm : Matrix D) (this : spatialSEIRModel) : spatialSEIRModel :=
  let 'mkModel dm em rm dist tp iv sc ei ir g ini _ rc rd ri wp nc hr hs tm n := this in
  mkModel dm em rm dist tp iv sc ei ir g ini pm rc rd ri wp nc hr hs tm n.

Definition set_results_complete (rc : list simulationResultSet)
  (this : spatialSEIRModel) : spatialSEIRModel :=
  let 'mkModel dm em rm dist tp iv sc ei ir g ini pm _ rd ri wp nc hr hs tm n := this in
  mkModel dm em rm dist tp iv sc ei ir g ini pm rc rd ri wp nc hr hs tm n.

Definition set_results_double (rd : Matrix D) (this : spatialSEIRModel)
  : spatialSEIRModel :=
  let 'mkModel dm em rm dist tp iv sc ei ir g ini pm rc _ ri wp nc hr hs tm n := this in
  mkModel dm em rm dist tp iv sc ei ir g ini pm rc rd ri wp nc hr hs tm n.

Definition set_worker_pool (wp : option NodePool) (this : spatialSEIRModel)
  : spatialSEIRModel :=
  let 'mkModel dm em rm dist tp iv sc ei ir g ini pm rc rd ri _ nc hr hs tm n := this in
  mkModel dm em rm dist tp iv sc ei ir g ini pm rc rd ri wp nc hr hs tm n.

(** ** Member functions: a call runs on the object and may leave it changed;
    when it stops, the object is as it was at the [Rcpp::stop]. *)

Definition method (A : Type) : Type := spatialSEIRModel -> outcome A * spatialSEIRModel.

Definition mret {A : Type} (a : A) : method A := fun this => (Done a, this).

Definition mbind {A B : Type} (c : method A) (k : A -> method B) : method B :=
  fun this =>
    match c this with
    | (Done a, this') => k a this'
    | (Stop msg, this') => (Stop msg, this')
    | (Fault, this') => (Fault, this')
    end.

Definition get : method spatialSEIRModel := fun this => (Done this, this).

Definition assign (f : spatialSEIRModel -> spatialSEIRModel) : method unit :=
  fun this => (Done tt, f this).

Definition lift {A : Type} (o : outcome A) : method A := fun this => (o, this).

Definition Rcpp_stop {A : Type} (msg : string) : method A := lift (Stop msg).

Notation "x <~ c ;; k" := (mbind c (fun x => k))
  (at level 61, c at next level, right associativity).
Notation "c ;;; k" := (mbind c (fun _ => k))
  (at level 61, right associativity).

(** ** The constructor *)

(** Lines 61-119: the compatibility checks, on the stored components. The
    test [reinfectionMode > 2] of lines 108-111 has an empty body. *)
Definition validate (this : spatialSEIRModel) : outcome unit :=
  let dm := dataModelInstance this in
  let em := exposureModelInstance this in
  let rm := reinfectionModelInstance this in
  let dist := distanceModelInstance this in
  let tp := transitionPriorsInstance this in
  let iv := initialValueContainerInstance this in
  if negb (dataModel.nLoc dm =? exposureModel.nLoc em)%Z then
    Stop ("Exposure model and data model imply different number of locations: "
          ++ to_string (dataModel.nLoc dm) ++ ", "
          ++ to_string (exposureModel.nLoc em) ++ "." ++ nl)
  else if negb (dataModel.nTpt dm =? exposureModel.nTpt em)%Z then
    Stop ("Exposure model and data model imply different number of time points:"
          ++ to_string (dataModel.nTpt dm) ++ ", "
          ++ to_string (exposureModel.nTpt em) ++ "." ++ nl)
  else if negb (dataModel.nLoc dm =? distanceModel.numLocations dist)%Z then
    Stop ("Data model and distance model imply different number of locations:"
          ++ to_string (dataModel.nLoc dm) ++ ", "
          ++ to_string (distanceModel.numLocations dist) ++ "." ++ nl)
  else if negb (Z.of_nat (length (distanceModel.tdm_list dist)) =? dataModel.nTpt dm)%Z then
    Stop ("TDistance model and data model imply a different number of time points." ++ nl)
  else
    first <- vget (distanceModel.tdm_list dist) 0 ;;
    let sz1 := length first in
    _ <- for_loop (length (distanceModel.tdm_list dist)) 0
           (fun i _ =>
              l <- vget (distanceModel.tdm_list dist) i ;;
              if negb (length l =? sz1)
              then Stop ("Differing number of lagged contact matrices across time points." ++ nl)
              else Done tt) tt ;;
    if negb (dataModel.nLoc dm =? Z.of_nat (length (initialValueContainer.S0 iv)))%Z then
      Stop ("Data model and initial value container have different dimensions" ++ nl)
    else
      _ <- (if (reinfectionModel.reinfectionMode rm =? 3)%Z then Done tt
            else if negb (Z.of_nat (rows (reinfectionModel.X_rs rm)) =? dataModel.nTpt dm)%Z
                 then Stop ("Reinfection and data mode time points differ." ++ nl)
                 else Done tt) ;;
      if negb (String.eqb (transitionPriors.mode tp) "exponential")
         && negb (String.eqb (transitionPriors.mode tp) "path_specific")
         && negb (String.eqb (transitionPriors.mode tp) "weibull")
      then Stop ("Invalid transition mode: " ++ transitionPriors.mode tp)
      else Done tt.

(** Lines 121-191: the transition distributions, the generator, the result
    stores and the worker pool. *)
Definition build (transitionPriors_ : transitionPriors.t D)
  (samplingControl_ : samplingControl.t D) : method unit :=
  (if String.eqb (transitionPriors.mode transitionPriors_) "weibull"
   then
     ei <~ lift (col (transitionPriors.E_to_I_params transitionPriors_) 0) ;;
     assign (set_EI_transition_dist (Some (mkWeibull ei))) ;;;
     ir <~ lift (col (transitionPriors.I_to_R_params transitionPriors_) 0) ;;
     assign (set_IR_transition_dist (Some (mkWeibull ir)))
   else
     let DummyParams := [d1; d1; d1; d1] in
     assign (set_EI_transition_dist (Some (mkWeibull DummyParams))) ;;;
     assign (set_IR_transition_dist (Some (mkWeibull DummyParams)))) ;;;
  assign (set_generator
            (mt19937_seeded (int_add (samplingControl.random_seed samplingControl_) 1))) ;;;
  assign (set_is_initialized false) ;;;
  assign (set_results_complete []) ;;;
  rd <~ lift (Zero d0 (samplingControl.batch_size samplingControl_)
                (samplingControl.m samplingControl_)) ;;
  assign (set_results_double rd) ;;;
  this <~ get ;;
  assign (set_worker_pool
            (Some (mkNodePool
                     (samplingControl.CPU_cores samplingControl_ mod 2 ^ 32)
                     (int_add (samplingControl.random_seed samplingControl_) (ncalls this))
                     (samplingControl.m samplingControl_)))).

(** [spatialSEIRModel::spatialSEIRModel(...)], run on the storage [this]. *)
Definition ctor (dataModel_ : dataModel.t) (exposureModel_ : exposureModel.t D)
  (reinfectionModel_ : reinfectionModel.t D) (distanceModel_ : distanceModel.t D)
  (transitionPriors_ : transitionPriors.t D)
  (initialValueContainer_ : initialValueContainer.t)
  (samplingControl_ : samplingControl.t D) : method unit :=
  let err :=
    (negb (dataModel.getModelComponentType dataModel_ =? LSS_DATA_MODEL_TYPE)
     || negb (exposureModel.getModelComponentType exposureModel_ =? LSS_EXPOSURE_MODEL_TYPE)
     || negb (reinfectionModel.getModelComponentType reinfectionModel_
              =? LSS_REINFECTION_MODEL_TYPE)
     || negb (distanceModel.getModelComponentType distanceModel_ =? LSS_DISTANCE_MODEL_TYPE)
     || negb (transitionPriors.getModelComponentType transitionPriors_
              =? LSS_TRANSITION_MODEL_TYPE)
     || negb (initialValueContainer.getModelComponentType initialValueContainer_
              =? LSS_INIT_CONTAINER_TYPE)
     || negb (fst (samplingControl.getModelComponentType
                     LSS_SAMPLING_CONTROL_MODEL_TYPE samplingControl_)
              =? LSS_SAMPLING_CONTROL_MODEL_TYPE))%Z in
  if err
  then Rcpp_stop ("Error: model components were not provided in the correct order. " ++ nl)
  else
    assign (set_components dataModel_ exposureModel_ reinfectionModel_ distanceModel_
              transitionPriors_ initialValueContainer_ samplingControl_) ;;;
    this <~ get ;;
    lift (validate this) ;;;
    build transitionPriors_ samplingControl_.

(** A new object, when the constructor body is entered. The members of
    class type are default-constructed: the three smart pointers are empty,
    [param_matrix] and [results_double] are 0 by 0, [results_complete] and
    [result_idx] are empty, [transitionMode] is the empty string. The
    members of built-in type (the seven handles, [generator],
    [is_initialized], [ncalls], [hasReinfection], [hasSpatial], [N]) hold
    whatever the storage held. *)
Definition fresh (storage : spatialSEIRModel) : spatialSEIRModel :=
  let 'mkModel dm em rm dist tp iv sc _ _ g ini _ _ _ _ _ nc hr hs _ n := storage in
  mkModel dm em rm dist tp iv sc None None g ini (empty_matrix d0) [] (empty_matrix d0)
    [] None nc hr hs "" n.

(** [new spatialSEIRModel(...)]: the object exists only if the constructor
    returns. *)
Definition spatialSEIRModel_new (storage : spatialSEIRModel)
  (dataModel_ : dataModel.t) (exposureModel_ : exposureModel.t D)
  (reinfectionModel_ : reinfectionModel.t D) (distanceModel_ : distanceModel.t D)
  (transitionPriors_ : transitionPriors.t D)
  (initialValueContainer_ : initialValueContainer.t)
  (samplingControl_ : samplingControl.t D) : outcome spatialSEIRModel :=
  match ctor dataModel_ exposureModel_ reinfectionModel_ distanceModel_
          transitionPriors_ initialValueContainer_ samplingControl_ (fresh storage) with
  | (Done _, this) => Done this
  | (Stop msg, _) => Stop msg
  | (Fault, _) => Fault
  end.

(** ** The parameter layout *)

(** [(transitionMode == "exponential" ? 2 : (transitionMode == "weibull" ? 4 : 0))]. *)
Definition nTrans_of (transitionMode : string) : nat :=
  if String.eqb transitionMode "exponential" then 2
  else if String.eqb transitionMode "weibull" then 4 else 0.

Record sizes : Type := mkSizes {
  nBeta : nat;
  nBetaRS : nat;
  nRho : nat;
  nTrans : nat;
  nParams : nat
}.

(** The locals of [generateParamsPrior], lines 196-208. *)
Definition generateParamsPrior_locals (this : spatialSEIRModel)
  : outcome (bool * bool * string * sizes) :=
  prec0 <- vget (reinfectionModel.betaPriorPrecision (reinfectionModelInstance this)) 0 ;;
  let hasReinfection := gtb prec0 d0 in
  let hasSpatial := 1 <? cols (dataModel.Y (dataModelInstance this)) in
  let transitionMode := transitionPriors.mode (transitionPriorsInstance this) in
  let nBeta := cols (exposureModel.X (exposureModelInstance this)) in
  let nBetaRS :=
    cols (reinfectionModel.X_rs (reinfectionModelInstance this)) * b2n hasReinfection in
  lag0 <- vget (distanceModel.tdm_list (distanceModelInstance this)) 0 ;;
  let nRho :=
    (length (distanceModel.dm_list (distanceModelInstance this)) + length lag0)
    * b2n hasSpatial in
  let nTrans := nTrans_of transitionMode in
  let nParams := nBeta + nBetaRS + nRho + nTrans in
  Done (hasReinfection, hasSpatial, transitionMode,
        mkSizes nBeta nBetaRS nRho nTrans nParams).

(** The locals of [setParameters], lines 327-334. [hasReinfection],
    [hasSpatial] and [transitionMode] are the members: the function declares
    no locals of these names. *)
Definition setParameters_locals (this : spatialSEIRModel) : outcome sizes :=
  let nBeta := cols (exposureModel.X (exposureModelInstance this)) in
  let nBetaRS :=
    cols (reinfectionModel.X_rs (reinfectionModelInstance this))
    * b2n (hasReinfection this) in
  lag0 <- vget (distanceModel.tdm_list (distanceModelInstance this)) 0 ;;
  let nRho :=
    (length (distanceModel.dm_list (distanceModelInstance this)) + length lag0)
    * b2n (hasSpatial this) in
  let nTrans := nTrans_of (transitionMode this) in
  let nParams := nBeta + nBetaRS + nRho + nTrans in
  Done (mkSizes nBeta nBetaRS nRho nTrans nParams).

(** The locals of [evalPrior], lines 349-355: the three block widths; the
    function declares neither [nTrans] nor [nParams]. *)
Definition evalPrior_locals (this : spatialSEIRModel)
  : outcome (bool * bool * string * (nat * nat * nat)) :=
  prec0 <- vget (reinfectionModel.betaPriorPrecision (reinfectionModelInstance this)) 0 ;;
  let hasReinfection := gtb prec0 d0 in
  let hasSpatial := 1 <? cols (dataModel.Y (dataModelInstance this)) in
  let transitionMode := transitionPriors.mode (transitionPriorsInstance this) in
  let nBeta := cols (exposureModel.X (exposureModelInstance this)) in
  let nBetaRS :=
    cols (reinfectionModel.X_rs (reinfectionModelInstance this)) * b2n hasReinfection in
  lag0 <- vget (distanceModel.tdm_list (distanceModelInstance this)) 0 ;;
  let nRho :=
    (length (distanceModel.dm_list (distanceModelInstance this)) + length lag0)
    * b2n hasSpatial in
  Done (hasReinfection, hasSpatial, transitionMode, (nBeta, nBetaRS, nRho)).

(** ** setParameters and run_simulation *)

(** [spatialSEIRModel::setParameters(params)]. The function is declared to
    return [bool] and has no return statement; the model keeps its effect. *)
Definition setParameters (params : Matrix D) : method unit :=
  this <~ get ;;
  sz <~ lift (setParameters_locals this) ;;
  if negb (cols params =? nParams sz)
  then Rcpp_stop ("Number of supplied parameters does not match model specification." ++ nl)
  else
    assign (set_param_matrix params) ;;;
    assign (set_is_initialized true).

(** [spatialSEIRModel::run_simulation(params)]: the body is the comment
    "To-do: run simulation logic here". *)
Definition run_simulation (params : Matrix D) : method unit :=
  mret tt.

(** ** evalPrior *)

(** [p ->] on a [unique_ptr]. *)
Definition deref {A : Type} (p : option A) : outcome A :=
  match p with
  | Some x => Done x
  | None => Fault
  end.

(** Lines 360-366 and 370-376: one normal density per regression
    coefficient, against the priors [mean], [precision]. The state is
    [(outPrior, paramIdx)]. *)
Definition evalPrior_normal (n : nat) (mean precision : list D) (param_vector : list D)
  (s : D * nat) : outcome (D * nat) :=
  for_loop n 0
    (fun i '(outPrior, paramIdx) =>
       x <- vget param_vector paramIdx ;;
       mu <- vget mean i ;;
       prec <- vget precision i ;;
       Done (mul outPrior (dnorm x mu (div d1 prec)), S paramIdx))
    s.

(** Lines 379-390. The state is [(outPrior, paramIdx, constr)]. *)
Definition evalPrior_rho (nRho : nat) (spatial_prior : list D) (param_vector : list D)
  (s : D * nat * D) : outcome (D * nat * D) :=
  if 0 <? nRho
  then
    '(outPrior, paramIdx, constr) <-
      for_loop nRho 0
        (fun i '(outPrior, paramIdx, constr) =>
           x <- vget param_vector paramIdx ;;
           let constr := add constr x in
           a <- vget spatial_prior 0 ;;
           b <- vget spatial_prior 1 ;;
           Done (mul outPrior (dbeta x a b), S paramIdx, constr))
        s ;;
    Done (mul outPrior (of_bool (leb constr d1)), paramIdx, constr)
  else Done s.

(** Lines 392-411. *)
Definition evalPrior_transition (this : spatialSEIRModel) (transitionMode : string)
  (param_vector : list D) (outPrior : D) (paramIdx : nat) : outcome D :=
  let tp := transitionPriorsInstance this in
  if String.eqb transitionMode "exponential"
  then
    x <- vget param_vector paramIdx ;;
    a <- mget (transitionPriors.E_to_I_params tp) 0 0 ;;
    b <- mget (transitionPriors.E_to_I_params tp) 1 0 ;;
    let outPrior := mul outPrior (dgamma x a (div d1 b)) in
    let paramIdx := S paramIdx in
    y <- vget param_vector paramIdx ;;
    c <- mget (transitionPriors.I_to_R_params tp) 0 0 ;;
    d <- mget (transitionPriors.I_to_R_params tp) 1 0 ;;
    Done (mul outPrior (dgamma y c (div d1 d)))
  else if String.eqb transitionMode "weibull"
  then
    ei <- deref (EI_transition_dist this) ;;
    seg <- segment param_vector paramIdx 2 ;;
    let outPrior := mul outPrior (evalParamPrior ei seg) in
    let paramIdx := paramIdx + 2 in
    ir <- deref (IR_transition_dist this) ;;
    seg' <- segment param_vector paramIdx 2 ;;
    Done (mul outPrior (evalParamPrior ir seg'))
  else Done outPrior.

(** [spatialSEIRModel::evalPrior(param_vector)]. *)
Definition evalPrior (this : spatialSEIRModel) (param_vector : list D) : outcome D :=
  let outPrior := d1 in
  let constr := d0 in
  '(hasReinfection, hasSpatial, transitionMode, (nBeta, nBetaRS, nRho)) <-
    evalPrior_locals this ;;
  let paramIdx := 0 in
  '(outPrior, paramIdx) <-
    evalPrior_normal nBeta
      (exposureModel.betaPriorMean (exposureModelInstance this))
      (exposureModel.betaPriorPrecision (exposureModelInstance this))
      param_vector (outPrior, paramIdx) ;;
  '(outPrior, paramIdx) <-
    (if 0 <? nBetaRS
     then evalPrior_normal nBetaRS
            (reinfectionModel.betaPriorMean (reinfectionModelInstance this))
            (reinfectionModel.betaPriorPrecision (reinfectionModelInstance this))
            param_vector (outPrior, paramIdx)
     else Done (outPrior, paramIdx)) ;;
  '(outPrior, paramIdx, constr) <-
    evalPrior_rho nRho (distanceModel.spatial_prior (distanceModelInstance this))
      param_vector (outPrior, paramIdx, constr) ;;
  evalPrior_transition this transitionMode param_vector outPrior paramIdx.

(** ** generateParamsPrior *)

(** What the sampling loops change: the local matrix, the state behind
    [*generator], and the text written to [Rcpp::Rcout]. *)
Record frame : Type := mkFrame {
  outParams : Matrix D;
  gen : rng;
  Rcout : list string
}.

(** A draw from [dist] on the generator. *)
Definition draw (dist : rng -> D * rng) (f : frame) : D * frame :=
  let (x, g) := dist (gen f) in (x, mkFrame (outParams f) g (Rcout f)).

(** [outParams(i, j) = x]. *)
Definition write (i j : nat) (x : D) (f : frame) : outcome frame :=
  out <- mset (outParams f) i j x ;;
  Done (mkFrame out (gen f) (Rcout f)).

(** [Rcpp::Rcout << text]. *)
Definition print (text : string) (f : frame) : frame :=
  mkFrame (outParams f) (gen f) (Rcout f ++ [text]).

(** A [std::gamma_distribution<>(alpha, beta)] object: its two parameters. *)
Definition gamma_object : Type := (D * D)%type.

Definition sample_gamma (dist : gamma_object) : rng -> D * rng :=
  gamma_distribution (fst dist) (snd dist).

(** Lines 222-249: the hyperprior samplers [gammaEIDist], [gammaIRDist]. *)
Definition gamma_setup (tp : transitionPriors.t D) (transitionMode : string)
  : outcome (list gamma_object * list gamma_object) :=
  let EI := transitionPriors.E_to_I_params tp in
  let IR := transitionPriors.I_to_R_params tp in
  if String.eqb transitionMode "exponential"
  then
    a <- mget EI 0 0 ;; b <- mget EI 1 0 ;;
    c <- mget IR 0 0 ;; d <- mget IR 1 0 ;;
    Done ([(a, div d1 b)], [(c, div d1 d)])
  else if String.eqb transitionMode "weibull"
  then
    a <- mget EI 0 0 ;; b <- mget EI 1 0 ;;
    a' <- mget EI 2 0 ;; b' <- mget EI 3 0 ;;
    c <- mget IR 0 0 ;; d <- mget IR 1 0 ;;
    c' <- mget IR 2 0 ;; d' <- mget IR 3 0 ;;
    Done ([(a, div d1 b); (a', div d1 b')], [(c, div d1 d); (c', div d1 d')])
  else Done ([], []).

(** One column entry: [mean(j)] plus a standard normal draw divided by
    [precision(j)], written to [outParams(i, j)]. *)
Definition draw_normal (mean precision : list D) (i j : nat) (f : frame) : outcome frame :=
  mu <- vget mean j ;;
  let (z, f) := draw standardNormal f in
  prec <- vget precision j ;;
  write i j (add mu (div z prec)) f.

(** Lines 253-262: the beta block. *)
Definition draw_beta (nParticles nBeta : nat) (em : exposureModel.t D) (f : frame)
  : outcome frame :=
  for_loop nParticles 0
    (fun i f =>
       for_loop nBeta 0
         (draw_normal (exposureModel.betaPriorMean em)
            (exposureModel.betaPriorPrecision em) i) f)
    f.

(** One hyperparameter: a draw from [dists[k]] written to [outParams(i, j)]. *)
Definition draw_gamma (dists : list gamma_object) (k i j : nat) (f : frame)
  : outcome frame :=
  dist <- vget dists k ;;
  let (x, f) := draw (sample_gamma dist) f in
  write i j x f.

(** Lines 263-285: the transition block, at column [off]. *)
Definition draw_transitions (transitionMode : string) (nParticles off : nat)
  (gammaEIDist gammaIRDist : list gamma_object) (f : frame) : outcome frame :=
  if String.eqb transitionMode "exponential"
  then
    for_loop nParticles 0
      (fun i f =>
         f <- draw_gamma gammaEIDist 0 i off f ;;
         draw_gamma gammaIRDist 0 i (off + 1) f)
      f
  else if String.eqb transitionMode "weibull"
  then
    for_loop nParticles 0
      (fun i f =>
         f <- draw_gamma gammaEIDist 0 i off f ;;
         f <- draw_gamma gammaEIDist 1 i (off + 1) f ;;
         f <- draw_gamma gammaIRDist 0 i (off + 2) f ;;
         draw_gamma gammaIRDist 1 i (off + 3) f)
      f
  else Done f.

(** Lines 286-299: the reinfection block. The columns run from [nBeta] to
    [nBeta + nBetaRS - 1], and the same [j] indexes the reinfection priors. *)
Definition draw_betaRS (hasReinfection : bool) (nParticles nBeta nBetaRS : nat)
  (rm : reinfectionModel.t D) (f : frame) : outcome frame :=
  if hasReinfection
  then
    for_loop nParticles 0
      (fun i f =>
         for_loop nBetaRS nBeta
           (draw_normal (reinfectionModel.betaPriorMean rm)
              (reinfectionModel.betaPriorPrecision rm) i) f)
      f
  else Done f.

(** Lines 309-314: one draw of the rho block of row [i], columns [lo] to
    [lo + nRho - 1]; the state is the frame and [rhoTot]. *)
Definition rho_block (rhoDist : gamma_object) (i lo nRho : nat) (f : frame)
  : outcome (frame * D) :=
  for_loop nRho lo
    (fun j '(f, rhoTot) =>
       let (x, f) := draw (sample_gamma rhoDist) f in
       f <- write i j x f ;;
       y <- mget (outParams f) i j ;;
       Done (f, add rhoTot y))
    (f, d0).

(** Lines 307-316: [while (rhoTot > 1.0 && rhoItrs < 100)]. [left] bounds
    the iterations that remain: it is 100 - [rhoItrs] at every test. *)
Fixpoint rho_while (left : nat) (rhoDist : gamma_object) (i lo nRho : nat)
  (rhoTot : D) (rhoItrs : nat) (f : frame) : outcome (frame * D * nat) :=
  if gtb rhoTot d1 && (rhoItrs <? 100)
  then
    match left with
    | O => Done (f, rhoTot, rhoItrs)
    | S left' =>
        '(f, rhoTot) <- rho_block rhoDist i lo nRho f ;;
        rho_while left' rhoDist i lo nRho rhoTot (S rhoItrs) f
    end
  else Done (f, rhoTot, rhoItrs).

(** Lines 305-320: row [i] of the rho block. *)
Definition draw_rho_row (rhoDist : gamma_object) (lo nRho i : nat) (f : frame)
  : outcome frame :=
  let rhoTot := d2 in
  let rhoItrs := 0 in
  '(f, rhoTot, rhoItrs) <- rho_while 100 rhoDist i lo nRho rhoTot rhoItrs f ;;
  if gtb rhoTot d1
  then Done (print ("Error, valid rho value not obtained" ++ nl) f)
  else Done f.

(** Lines 300-322. *)
Definition draw_rho (hasSpatial : bool) (rhoDist : gamma_object)
  (nParticles lo nRho : nat) (f : frame) : outcome frame :=
  if hasSpatial
  then for_loop nParticles 0 (fun i f => draw_rho_row rhoDist lo nRho i f) f
  else Done f.

(** The body of [generateParamsPrior], run with [out] as the text already
    on [Rcpp::Rcout]: the frame when control reaches the closing brace. *)
Definition generateParamsPrior_body (this : spatialSEIRModel) (nParticles : Z)
  (out : list string) : outcome frame :=
  '(hasReinfection, hasSpatial, transitionMode, sz) <- generateParamsPrior_locals this ;;
  let outParams := mkMatrix (N this) (nParams sz) uninitialized in
  sp0 <- vget (distanceModel.spatial_prior (distanceModelInstance this)) 0 ;;
  sp1 <- vget (distanceModel.spatial_prior (distanceModelInstance this)) 1 ;;
  let rhoDist := (sp0, div d1 sp1) in
  '(gammaEIDist, gammaIRDist) <-
    gamma_setup (transitionPriorsInstance this) transitionMode ;;
  let n := Z.to_nat nParticles in
  let f := mkFrame outParams (generator this) out in
  f <- draw_beta n (nBeta sz) (exposureModelInstance this) f ;;
  f <- draw_transitions transitionMode n (nBeta sz + nBetaRS sz + nRho sz)
         gammaEIDist gammaIRDist f ;;
  f <- draw_betaRS hasReinfection n (nBeta sz) (nBetaRS sz)
         (reinfectionModelInstance this) f ;;
  draw_rho hasSpatial rhoDist n (nBeta sz + nBetaRS sz) (nRho sz) f.

(** [spatialSEIRModel::generateParamsPrior(nParticles)]. The result pairs
    the value the call hands back with the text on [Rcpp::Rcout]. The
    function is declared to return an [Eigen::MatrixXd], and its body ends
    at the closing brace of the rho block without a return statement: no
    matrix is handed back, which is [None]. *)
Definition generateParamsPrior (nParticles : Z) (out : list string)
  : method (option (Matrix D) * list string) :=
  this <~ get ;;
  f <~ lift (generateParamsPrior_body this nParticles out) ;;
  assign (set_generator (gen f)) ;;;
  mret (None, Rcout f).

(** * The vocabulary of the statements *)

(** ** The failure conditions of construction *)

(** The failure conditions of construction, as the specification lists
    them. *)

Definition type_mismatch (dm : dataModel.t) (em : exposureModel.t D)
  (rm : reinfectionModel.t D) (dist : distanceModel.t D) (tp : transitionPriors.t D)
  (iv : initialValueContainer.t) (sc : samplingControl.t D) : Prop :=
  dataModel.getModelComponentType dm <> LSS_DATA_MODEL_TYPE \/
  exposureModel.getModelComponentType em <> LSS_EXPOSURE_MODEL_TYPE \/
  reinfectionModel.getModelComponentType rm <> LSS_REINFECTION_MODEL_TYPE \/
  distanceModel.getModelComponentType dist <> LSS_DISTANCE_MODEL_TYPE \/
  transitionPriors.getModelComponentType tp <> LSS_TRANSITION_MODEL_TYPE \/
  initialValueContainer.getModelComponentType iv <> LSS_INIT_CONTAINER_TYPE \/
  fst (samplingControl.getModelComponentType LSS_SAMPLING_CONTROL_MODEL_TYPE sc)
    <> LSS_SAMPLING_CONTROL_MODEL_TYPE.

Definition dimension_mismatch (dm : dataModel.t) (em : exposureModel.t D)
  (rm : reinfectionModel.t D) (dist : distanceModel.t D) (tp : transitionPriors.t D)
  (iv : initialValueContainer.t) : Prop :=
  (* location counts disagree between data, exposure and distance model *)
  (dataModel.nLoc dm <> exposureModel.nLoc em \/
   dataModel.nLoc dm <> distanceModel.numLocations dist) \/
  (* time-point counts disagree between data and exposure model *)
  dataModel.nTpt dm <> exposureModel.nTpt em \/
  (* the lagged-matrix lists: their count, and their lengths across time points *)
  (Z.of_nat (length (distanceModel.tdm_list dist)) <> dataModel.nTpt dm \/
   exists l l', In l (distanceModel.tdm_list dist) /\ In l' (distanceModel.tdm_list dist)
                /\ length l <> length l') \/
  (* the initial-compartment vector *)
  dataModel.nLoc dm <> Z.of_nat (length (initialValueContainer.S0 iv)) \/
  (* the reinfection covariates, unless reinfection is disabled (mode 3) *)
  (reinfectionModel.reinfectionMode rm <> 3%Z /\
   Z.of_nat (rows (reinfectionModel.X_rs rm)) <> dataModel.nTpt dm) \/
  (* the transition mode *)
  (transitionPriors.mode tp <> "exponential"%string /\
   transitionPriors.mode tp <> "weibull"%string /\
   transitionPriors.mode tp <> "path_specific"%string).

Definition invalid_configuration (dm : dataModel.t) (em : exposureModel.t D)
  (rm : reinfectionModel.t D) (dist : distanceModel.t D) (tp : transitionPriors.t D)
  (iv : initialValueContainer.t) (sc : samplingControl.t D) : Prop :=
  type_mismatch dm em rm dist tp iv sc \/ dimension_mismatch dm em rm dist tp iv.

(** ** The factors of the prior density *)

(** The factor list of the joint density, in the order of the layout: the
    specification's "product over the same fixed layout". [rho_values] is
    the rho block of the parameter vector. *)

Definition normal_factor (mean precision v : list D) (lo i : nat) : D :=
  dnorm (nth (lo + i) v d0) (nth i mean d0) (div d1 (nth i precision d0)).

Definition normal_factors (n : nat) (mean precision v : list D) (lo : nat) : list D :=
  map (normal_factor mean precision v lo) (seq 0 n).

Definition rho_values (v : list D) (lo n : nat) : list D :=
  map (fun i => nth (lo + i) v d0) (seq 0 n).

Definition rho_sum (v : list D) (lo n : nat) : D :=
  fold_left add (rho_values v lo n) d0.

Definition rho_factors (spatial_prior v : list D) (lo n : nat) : list D :=
  if 0 <? n
  then map (fun x => dbeta x (nth 0 spatial_prior d0) (nth 1 spatial_prior d0))
           (rho_values v lo n)
       ++ [of_bool (leb (rho_sum v lo n) d1)]
  else [].

Definition transition_factors (this : spatialSEIRModel) (transitionMode : string)
  (v : list D) (lo : nat) : list D :=
  let EI := transitionPriors.E_to_I_params (transitionPriorsInstance this) in
  let IR := transitionPriors.I_to_R_params (transitionPriorsInstance this) in
  if String.eqb transitionMode "exponential"
  then [dgamma (nth lo v d0) (coeff EI 0 0) (div d1 (coeff EI 1 0));
        dgamma (nth (S lo) v d0) (coeff IR 0 0) (div d1 (coeff IR 1 0))]
  else if String.eqb transitionMode "weibull"
  then match EI_transition_dist this, IR_transition_dist this with
       | Some ei, Some ir =>
           [evalParamPrior ei (firstn 2 (skipn lo v));
            evalParamPrior ir (firstn 2 (skipn (lo + 2) v))]
       | _, _ => []
       end
  else [].

(** What the transition block of [evalPrior] needs from the configuration. *)
Definition transition_inputs_ok (this : spatialSEIRModel) (transitionMode : string) : Prop :=
  let EI := transitionPriors.E_to_I_params (transitionPriorsInstance this) in
  let IR := transitionPriors.I_to_R_params (transitionPriorsInstance this) in
  (transitionMode = "exponential"%string ->
   2 <= rows EI /\ 1 <= cols EI /\ 2 <= rows IR /\ 1 <= cols IR) /\
  (transitionMode = "weibull"%string ->
   EI_transition_dist this <> None /\ IR_transition_dist this <> None).

(** The priors and hyperparameters [evalPrior] reads are there: what a
    validated configuration provides for the layout [nb | nrs | nrho | nTrans]. *)
Definition priors_cover (this : spatialSEIRModel) (nb nrs nrho : nat) (tm : string) : Prop :=
  nb <= length (exposureModel.betaPriorMean (exposureModelInstance this)) /\
  nb <= length (exposureModel.betaPriorPrecision (exposureModelInstance this)) /\
  nrs <= length (reinfectionModel.betaPriorMean (reinfectionModelInstance this)) /\
  nrs <= length (reinfectionModel.betaPriorPrecision (reinfectionModelInstance this)) /\
  (0 < nrho -> 2 <= length (distanceModel.spatial_prior (distanceModelInstance this))) /\
  transition_inputs_ok this tm.

(** The factors of the joint prior density, block by block. *)
Definition prior_factors (this : spatialSEIRModel) (nb nrs nrho : nat) (tm : string)
  (v : list D) : list D :=
  normal_factors nb
    (exposureModel.betaPriorMean (exposureModelInstance this))
    (exposureModel.betaPriorPrecision (exposureModelInstance this)) v 0
  ++ normal_factors nrs
       (reinfectionModel.betaPriorMean (reinfectionModelInstance this))
       (reinfectionModel.betaPriorPrecision (reinfectionModelInstance this)) v nb
  ++ rho_factors (distanceModel.spatial_prior (distanceModelInstance this)) v (nb + nrs) nrho
  ++ transition_factors this tm v (nb + nrs + nrho).

(** ** Draws written to rows of the matrix *)

(** The values of successive draws from the samplers [ds], and the
    generator after them. *)
Fixpoint draws (ds : list gamma_object) (g : rng) : list D * rng :=
  match ds with
  | [] => ([], g)
  | d :: ds' =>
      let (x, g1) := sample_gamma d g in
      let (xs, g2) := draws ds' g1 in
      (x :: xs, g2)
  end.

(** One draw per sampler of [ds], written to row [i] from column [j] on. *)
Fixpoint fill (ds : list gamma_object) (i j : nat) (f : frame) : outcome frame :=
  match ds with
  | [] => Done f
  | d :: ds' =>
      let (x, f1) := draw (sample_gamma d) f in
      f2 <- write i j x f1 ;;
      fill ds' i (S j) f2
  end.

(** The frame [f'] is [f] with row [i], columns [j] to [j + length xs - 1],
    holding [xs], and with generator [g]. *)
Definition row_written (i j : nat) (xs : list D) (g : rng) (f f' : frame) : Prop :=
  rows (outParams f') = rows (outParams f) /\
  cols (outParams f') = cols (outParams f) /\
  Rcout f' = Rcout f /\
  gen f' = g /\
  forall r c,
    coeff (outParams f') r c
    = if (r =? i) && (j <=? c) && (c <? j + length xs)
      then nth (c - j) xs d0
      else coeff (outParams f) r c.

(** The generator before row [n], when every row draws once from each
    sampler of [ds]. *)
Fixpoint row_gen (ds : list gamma_object) (n : nat) (g : rng) : rng :=
  match n with
  | O => g
  | S n' => snd (draws ds (row_gen ds n' g))
  end.

(** Rows 0 to [n - 1] hold, from column [off] on, one draw from each
    sampler of [ds], row after row on the same generator; nothing else
    changed. *)
Definition rows_filled (ds : list gamma_object) (off n : nat) (f f' : frame) : Prop :=
  rows (outParams f') = rows (outParams f) /\
  cols (outParams f') = cols (outParams f) /\
  Rcout f' = Rcout f /\
  gen f' = row_gen ds n (gen f) /\
  forall r c,
    coeff (outParams f') r c
    = if (r <? n) && (off <=? c) && (c <? off + length ds)
      then nth (c - off) (fst (draws ds (row_gen ds r (gen f)))) d0
      else coeff (outParams f) r c.

(** The matrix the body allocates: [Eigen::MatrixXd(N, nParams)]. *)
Definition allocated (this : spatialSEIRModel) (sz : sizes) (out : list string) : frame :=
  mkFrame (mkMatrix (N this) (nParams sz) uninitialized) (generator this) out.

(** ** Attempts at a rho block *)

(** The successive attempts at a rho block, from generator [g]:
    [attempt_gen k g] is the generator before attempt [k] (counted from 0),
    [attempt_values k g] the block that attempt draws, [attempt_sum k g]
    its sum. *)
Fixpoint attempt_gen (rhoDist : gamma_object) (nRho k : nat) (g : rng) : rng :=
  match k with
  | O => g
  | S k' => snd (draws (repeat rhoDist nRho) (attempt_gen rhoDist nRho k' g))
  end.

Definition attempt_values (rhoDist : gamma_object) (nRho k : nat) (g : rng) : list D :=
  fst (draws (repeat rhoDist nRho) (attempt_gen rhoDist nRho k g)).

Definition attempt_sum (rhoDist : gamma_object) (nRho k : nat) (g : rng) : D :=
  fold_left add (attempt_values rhoDist nRho k g) d0.

(** What one row of the rho block looks like after [draw_rho_row], when the
    last attempt made is attempt [k]: the attempts before [k] all summed to
    more than 1; the row holds attempt [k] and nothing else changed; and
    either the sum of attempt [k] is not above 1 and nothing is printed, or
    [k] is the hundredth attempt, its sum is above 1, and the diagnostic is
    printed. *)
Definition rho_row_outcome (rhoDist : gamma_object) (lo nRho i k : nat) (f f' : frame)
  : Prop :=
  (forall m, m < k -> gtb (attempt_sum rhoDist nRho m (gen f)) d1 = true) /\
  rows (outParams f') = rows (outParams f) /\
  cols (outParams f') = cols (outParams f) /\
  gen f' = attempt_gen rhoDist nRho (S k) (gen f) /\
  (forall r c,
     coeff (outParams f') r c
     = if (r =? i) && (lo <=? c) && (c <? lo + nRho)
       then nth (c - lo) (attempt_values rhoDist nRho k (gen f)) d0
       else coeff (outParams f) r c) /\
  ((gtb (attempt_sum rhoDist nRho k (gen f)) d1 = false /\ Rcout f' = Rcout f) \/
   (k = 99 /\ gtb (attempt_sum rhoDist nRho k (gen f)) d1 = true /\
    Rcout f' = Rcout f ++ [("Error, valid rho value not obtained" ++ nl)%string])).

(** The rho phase over rows 0 to [n - 1]: each row is drawn, by the retry
    scheme, from the frame the rows before it left. *)
Inductive rho_rows (rhoDist : gamma_object) (lo nRho : nat) : nat -> frame -> frame -> Prop :=
| rho_rows_O : forall f, rho_rows rhoDist lo nRho 0 f f
| rho_rows_S : forall n k f f1 f2,
    rho_rows rhoDist lo nRho n f f1 ->
    k < 100 ->
    rho_row_outcome rhoDist lo nRho n k f1 f2 ->
    rho_rows rhoDist lo nRho (S n) f f2.

(** ** Normal draws written to rows of the matrix *)

(** The values of [m] successive standard normal draws, and the generator
    after them. *)
Fixpoint normals (m : nat) (g : rng) : list D * rng :=
  match m with
  | O => ([], g)
  | S m' =>
      let (z, g1) := standardNormal g in
      let (zs, g2) := normals m' g1 in
      (z :: zs, g2)
  end.

(** The generator before row [n], when every row draws [m] normals. *)
Fixpoint normal_row_gen (m n : nat) (g : rng) : rng :=
  match n with
  | O => g
  | S n' => snd (normals m (normal_row_gen m n' g))
  end.

(** The entry of column [c] in a block that starts at column [lo] and was
    drawn from the normals [zs]: the prior mean of index [c] plus the draw
    over the prior precision of index [c]. *)
Definition normal_value (mean precision : list D) (lo c : nat) (zs : list D) : D :=
  add (nth c mean d0) (div (nth (c - lo) zs d0) (nth c precision d0)).

(** Row [i] holds such a block in the columns [lo] to [lo + m - 1], drawn
    from generator [g0]; nothing else changed. *)
Definition normal_row_written (mean precision : list D) (i lo m : nat) (g0 : rng)
  (f f' : frame) : Prop :=
  rows (outParams f') = rows (outParams f) /\
  cols (outParams f') = cols (outParams f) /\
  Rcout f' = Rcout f /\
  gen f' = snd (normals m g0) /\
  forall r c,
    coeff (outParams f') r c
    = if (r =? i) && (lo <=? c) && (c <? lo + m)
      then normal_value mean precision lo c (fst (normals m g0))
      else coeff (outParams f) r c.

(** Rows 0 to [n - 1] hold such blocks, row after row on the same
    generator; nothing else changed. *)
Definition normal_rows_filled (mean precision : list D) (lo m n : nat) (f f' : frame)
  : Prop :=
  rows (outParams f') = rows (outParams f) /\
  cols (outParams f') = cols (outParams f) /\
  Rcout f' = Rcout f /\
  gen f' = normal_row_gen m n (gen f) /\
  forall r c,
    coeff (outParams f') r c
    = if (r <? n) && (lo <=? c) && (c <? lo + m)
      then normal_value mean precision lo c
             (fst (normals m (normal_row_gen m r (gen f))))
      else coeff (outParams f) r c.

(** ** The sampler as a whole *)

(** The Gamma samplers of the transition block, in column order: the
    entries of [gammaEIDist], then those of [gammaIRDist]. *)
Definition transition_samplers (tp : transitionPriors.t D) (transitionMode : string)
  : list gamma_object :=
  let EI := transitionPriors.E_to_I_params tp in
  let IR := transitionPriors.I_to_R_params tp in
  if String.eqb transitionMode "exponential"
  then [(coeff EI 0 0, div d1 (coeff EI 1 0)); (coeff IR 0 0, div d1 (coeff IR 1 0))]
  else if String.eqb transitionMode "weibull"
  then [(coeff EI 0 0, div d1 (coeff EI 1 0)); (coeff EI 2 0, div d1 (coeff EI 3 0));
        (coeff IR 0 0, div d1 (coeff IR 1 0)); (coeff IR 2 0, div d1 (coeff IR 3 0))]
  else [].

(** The hyperparameter entries the sampler reads in mode [transitionMode]
    exist. *)
Definition hyperparameters_ok (tp : transitionPriors.t D) (transitionMode : string) : Prop :=
  let EI := transitionPriors.E_to_I_params tp in
  let IR := transitionPriors.I_to_R_params tp in
  (transitionMode = "exponential"%string ->
   2 <= rows EI /\ 1 <= cols EI /\ 2 <= rows IR /\ 1 <= cols IR) /\
  (transitionMode = "weibull"%string ->
   4 <= rows EI /\ 1 <= cols EI /\ 4 <= rows IR /\ 1 <= cols IR).

(** Every prior entry the sampler reads exists: the two entries of
    [spatial_prior], the exposure priors at 0 to [nBeta - 1], with
    reinfection the reinfection priors at [nBeta] to
    [nBeta + nBetaRS - 1], and the hyperparameters of the mode. *)
Definition sampler_inputs_ok (this : spatialSEIRModel) (hasReinfection : bool)
  (transitionMode : string) (sz : sizes) : Prop :=
  2 <= length (distanceModel.spatial_prior (distanceModelInstance this)) /\
  nBeta sz <= length (exposureModel.betaPriorMean (exposureModelInstance this)) /\
  nBeta sz <= length (exposureModel.betaPriorPrecision (exposureModelInstance this)) /\
  (hasReinfection = true ->
   nBeta sz + nBetaRS sz
   <= length (reinfectionModel.betaPriorMean (reinfectionModelInstance this)) /\
   nBeta sz + nBetaRS sz
   <= length (reinfectionModel.betaPriorPrecision (reinfectionModelInstance this))) /\
  hyperparameters_ok (transitionPriorsInstance this) transitionMode.

(** The entries of row [r] in the columns [lo] to [lo + n - 1], their sum
    as the code accumulates it, and the number of rows below [rws] whose
    sum is above 1. *)
Definition block_values (M : Matrix D) (r lo n : nat) : list D :=
  map (fun j => coeff M r (lo + j)) (seq 0 n).

Definition block_sum (M : Matrix D) (r lo n : nat) : D :=
  fold_left add (block_values M r lo n) d0.

Definition rows_above_one (M : Matrix D) (lo n rws : nat) : nat :=
  length (filter (fun r => gtb (block_sum M r lo n) d1) (seq 0 rws)).

(** Two frames agree on the generator, on the text printed, and on the
    cells of the rows below [n] in the columns that satisfy [P]. *)
Definition agree (P : nat -> Prop) (n : nat) (f f' : frame) : Prop :=
  gen f = gen f' /\ Rcout f = Rcout f' /\
  forall r c, r < n -> P c -> coeff (outParams f) r c = coeff (outParams f') r c.

(** The four sampling phases in the order of the code, from the frame
    [f0]: beta block, transition block, reinfection block, rho block. *)
Definition sampler_phases (this : spatialSEIRModel) (hasReinfection hasSpatial : bool)
  (transitionMode : string) (sz : sizes) (n : nat) (f0 f1 f2 f3 f_end : frame) : Prop :=
  let rhoDist :=
    (nth 0 (distanceModel.spatial_prior (distanceModelInstance this)) d0,
     div d1 (nth 1 (distanceModel.spatial_prior (distanceModelInstance this)) d0)) in
  normal_rows_filled (exposureModel.betaPriorMean (exposureModelInstance this))
    (exposureModel.betaPriorPrecision (exposureModelInstance this))
    0 (nBeta sz) n f0 f1 /\
  rows_filled (transition_samplers (transitionPriorsInstance this) transitionMode)
    (nBeta sz + nBetaRS sz + nRho sz) n f1 f2 /\
  (if hasReinfection
   then normal_rows_filled
          (reinfectionModel.betaPriorMean (reinfectionModelInstance this))
          (reinfectionModel.betaPriorPrecision (reinfectionModelInstance this))
          (nBeta sz) (nBetaRS sz) n f2 f3
   else f3 = f2) /\
  (if hasSpatial
   then rho_rows rhoDist (nBeta sz + nBetaRS sz) (nRho sz) n f3 f_end
   else f_end = f3).

(** * Properties *)

(** ** Loops and containers *)

Lemma bind_Done : forall (A B : Type) (m : outcome A) (k : A -> outcome B) (b : B),
  bind m k = Done b -> exists a, m = Done a /\ k a = Done b.
Proof.
  intros A B m k b H. destruct m as [a| |]; simpl in H; try discriminate.
  exists a. split; [reflexivity | exact H].
Qed.

(** A loop whose body keeps an invariant and returns under it returns, and
    the invariant holds at the exit. *)
Lemma for_loop_invariant :
  forall (S : Type) (P : nat -> S -> Prop) (body : nat -> S -> outcome S) (n lo : nat) (s : S),
  P lo s ->
  (forall k t, lo <= k < lo + n -> P k t -> exists t', body k t = Done t' /\ P (Datatypes.S k) t') ->
  exists s', for_loop n lo body s = Done s' /\ P (lo + n) s'.
Proof.
  intros S P body n. induction n as [|n IH]; intros lo s H0 Hstep.
  - exists s. rewrite Nat.add_0_r. split; [reflexivity | exact H0].
  - destruct (Hstep lo s) as [t [Hb Ht]]; [lia | exact H0 |].
    destruct (IH (Datatypes.S lo) t Ht) as [s' [Hl Hs']].
    + intros k u Hk Hu. apply Hstep; [lia | exact Hu].
    + exists s'. simpl. rewrite Hb. simpl. split; [exact Hl |].
      replace (lo + Datatypes.S n) with (Datatypes.S lo + n) by lia. exact Hs'.
Qed.

(** The same for a loop that is known to have returned. *)
Lemma for_loop_preserves :
  forall (S : Type) (P : nat -> S -> Prop) (body : nat -> S -> outcome S) (n lo : nat) (s s' : S),
  P lo s ->
  (forall k t t', lo <= k < lo + n -> P k t -> body k t = Done t' -> P (Datatypes.S k) t') ->
  for_loop n lo body s = Done s' ->
  P (lo + n) s'.
Proof.
  intros S P body n. induction n as [|n IH]; intros lo s s' H0 Hstep Hrun.
  - simpl in Hrun. inversion Hrun; subst. rewrite Nat.add_0_r. exact H0.
  - simpl in Hrun. apply bind_Done in Hrun. destruct Hrun as [t [Hb Hl]].
    replace (lo + Datatypes.S n) with (Datatypes.S lo + n) by lia.
    apply (IH (Datatypes.S lo) t s').
    + apply (Hstep lo s t); [lia | exact H0 | exact Hb].
    + intros k u u' Hk Hu Hbu. apply (Hstep k u u'); [lia | exact Hu | exact Hbu].
    + exact Hl.
Qed.

Lemma vget_Done : forall (A : Type) (v : list A) (i : nat) (d : A),
  i < length v -> vget v i = Done (nth i v d).
Proof.
  intros A v i d H. unfold vget.
  rewrite (nth_error_nth' v d H). reflexivity.
Qed.

Lemma vget_cases : forall (A : Type) (v : list A) (i : nat),
  (exists x, vget v i = Done x /\ i < length v) \/ (vget v i = Fault /\ length v <= i).
Proof.
  intros A v i. unfold vget. destruct (nth_error v i) as [x|] eqn:E.
  - left. exists x. split; [reflexivity |]. apply nth_error_Some. congruence.
  - right. split; [reflexivity |]. apply nth_error_None. exact E.
Qed.

(** ** run_simulation *)

(** C10. [run_simulation(params)] returns at once and changes nothing: the
    result stores [results_double], [results_complete] and [result_idx]
    are what they were, the worker pool is not called, and the whole object
    is the object before the call. *)
Theorem run_simulation_changes_nothing : forall (params : Matrix D) (this : spatialSEIRModel),
  fst (run_simulation params this) = Done tt /\
  results_double (snd (run_simulation params this)) = results_double this /\
  results_complete (snd (run_simulation params this)) = results_complete this /\
  result_idx (snd (run_simulation params this)) = result_idx this /\
  snd (run_simulation params this) = this.
Proof.
  intros params this. unfold run_simulation, mret. simpl.
  repeat split; reflexivity.
Qed.

(** ** setParameters *)

Lemma setParameters_unfold : forall (params : Matrix D) (this : spatialSEIRModel) (sz : sizes),
  setParameters_locals this = Done sz ->
  setParameters params this =
    if negb (cols params =? nParams sz)
    then (Stop ("Number of supplied parameters does not match model specification." ++ nl),
          this)
    else (Done tt, set_is_initialized true (set_param_matrix params this)).
Proof.
  intros params this sz H. unfold setParameters, mbind, get, lift, Rcpp_stop, assign.
  rewrite H. destruct (negb (cols params =? nParams sz)); reflexivity.
Qed.

(** Against the count [setParameters] itself computes, from the members
    [hasReinfection], [hasSpatial] and [transitionMode]: a matrix whose
    column count differs from it makes the call stop with the object
    untouched; a matrix with that many columns is stored and
    [is_initialized] becomes true, and no other member changes. *)
Lemma setParameters_checks_own_count :
  forall (params : Matrix D) (this : spatialSEIRModel) (sz : sizes),
  setParameters_locals this = Done sz ->
  (cols params <> nParams sz ->
     (exists msg, fst (setParameters params this) = Stop msg) /\
     snd (setParameters params this) = this /\
     param_matrix (snd (setParameters params this)) = param_matrix this /\
     is_initialized (snd (setParameters params this)) = is_initialized this) /\
  (cols params = nParams sz ->
     fst (setParameters params this) = Done tt /\
     param_matrix (snd (setParameters params this)) = params /\
     is_initialized (snd (setParameters params this)) = true /\
     snd (setParameters params this)
       = set_is_initialized true (set_param_matrix params this)).
Proof.
  intros params this sz Hsz. rewrite (setParameters_unfold params this sz Hsz).
  split; intro Hc.
  - apply Nat.eqb_neq in Hc. rewrite Hc. simpl.
    split; [eexists; reflexivity |]. repeat split; reflexivity.
  - apply Nat.eqb_eq in Hc. rewrite Hc. simpl.
    destruct this; simpl. repeat split; reflexivity.
Qed.

(** ** samplingControl *)

Lemma samplingControlInstance_set_generator : forall (g : rng) (this : spatialSEIRModel),
  samplingControlInstance (set_generator g this) = samplingControlInstance this.
Proof. intros g this. destruct this. reflexivity. Qed.

Lemma samplingControlInstance_setParameters :
  forall (params : Matrix D) (this : spatialSEIRModel),
  samplingControlInstance (snd (setParameters params this)) = samplingControlInstance this.
Proof.
  intros params this. unfold setParameters, mbind, get, lift, Rcpp_stop, assign.
  destruct (setParameters_locals this) as [sz| |]; try reflexivity.
  destruct (negb (cols params =? nParams sz)); [reflexivity |].
  destruct this. reflexivity.
Qed.

Lemma samplingControlInstance_generateParamsPrior :
  forall (nParticles : Z) (out : list string) (this : spatialSEIRModel),
  samplingControlInstance (snd (generateParamsPrior nParticles out this))
  = samplingControlInstance this.
Proof.
  intros nParticles out this. unfold generateParamsPrior, mbind, get, lift, assign, mret.
  destruct (generateParamsPrior_body this nParticles out) as [f| |]; try reflexivity.
  simpl. apply samplingControlInstance_set_generator.
Qed.

Lemma samplingControl_new_stops :
  forall (ALG_BasicABC ALG_ModifiedBeaumont2009 ALG_DelMoral2012 prot0 : Z)
         (integerParameters : list Z) (numericParameters : list D),
  (exists msg,
     samplingControl.new ALG_BasicABC ALG_ModifiedBeaumont2009 ALG_DelMoral2012 prot0
       integerParameters numericParameters = Stop msg) <->
  ((length integerParameters <> 9 \/ length numericParameters <> 3) \/
   (nth 3 integerParameters 0%Z <> ALG_BasicABC /\
    nth 3 integerParameters 0%Z <> ALG_ModifiedBeaumont2009 /\
    nth 3 integerParameters 0%Z <> ALG_DelMoral2012) \/
   (nth 6 integerParameters 0 <= 0)%Z).
Proof.
  intros A1 A2 A3 prot0 ints nums. unfold samplingControl.new.
  destruct (length ints =? 9) eqn:E9.
  2:{ simpl. apply Nat.eqb_neq in E9. split; [intros _; left; left; exact E9 |].
      intros _. eexists; reflexivity. }
  destruct (length nums =? 3) eqn:E3.
  2:{ simpl. apply Nat.eqb_neq in E3. split; [intros _; left; right; exact E3 |].
      intros _. eexists; reflexivity. }
  apply Nat.eqb_eq in E9. apply Nat.eqb_eq in E3.
  do 10 (destruct ints as [|? ints]; try discriminate E9).
  do 4 (destruct nums as [|? nums]; try discriminate E3).
  cbn [negb orb vget nth_error bind nth].
  destruct (Z.eqb_spec z2 A1) as [B1|B1]; destruct (Z.eqb_spec z2 A2) as [B2|B2];
    destruct (Z.eqb_spec z2 A3) as [B3|B3]; destruct (Z.leb_spec z5 0) as [B4|B4];
    cbn [negb andb];
    (split;
     [ intros [msg H]; first [discriminate H | right; right; exact B4 | right; left; tauto]
     | intros [[H|H]|[[H1 [H2 H3]]|H]];
       first [ eexists; reflexivity | congruence | lia | simpl in H; congruence ] ]).
Qed.

(** C9. Construction stops exactly on a block that is not 9 integers and
    3 numerics, an algorithm code (the fourth integer) that is none of the
    three codes, or [max_batches] (the seventh integer) at most zero, and it
    never reads outside the block. After construction the object is only
    read: [getModelComponentType] and the orchestrator's member functions
    leave it as it is. The destructor stops exactly when the reference count
    [prot] is not zero. *)
Theorem samplingControl_contract :
  forall (ALG_BasicABC ALG_ModifiedBeaumont2009 ALG_DelMoral2012 prot0 : Z)
         (integerParameters : list Z) (numericParameters : list D),
  ((exists msg,
      samplingControl.new ALG_BasicABC ALG_ModifiedBeaumont2009 ALG_DelMoral2012 prot0
        integerParameters numericParameters = Stop msg) <->
   ((length integerParameters <> 9 \/ length numericParameters <> 3) \/
    (nth 3 integerParameters 0%Z <> ALG_BasicABC /\
     nth 3 integerParameters 0%Z <> ALG_ModifiedBeaumont2009 /\
     nth 3 integerParameters 0%Z <> ALG_DelMoral2012) \/
    (nth 6 integerParameters 0 <= 0)%Z)) /\
  samplingControl.new ALG_BasicABC ALG_ModifiedBeaumont2009 ALG_DelMoral2012 prot0
    integerParameters numericParameters <> Fault /\
  (forall (tag : Z) (sc : samplingControl.t D),
     snd (samplingControl.getModelComponentType tag sc) = sc) /\
  (forall (this : spatialSEIRModel) (params : Matrix D) (n : Z) (out : list string),
     samplingControlInstance (snd (setParameters params this))
       = samplingControlInstance this /\
     samplingControlInstance (snd (run_simulation params this))
       = samplingControlInstance this /\
     samplingControlInstance (snd (generateParamsPrior n out this))
       = samplingControlInstance this) /\
  (forall sc : samplingControl.t D,
     (exists msg, samplingControl.delete sc = Stop msg) <-> samplingControl.prot sc <> 0%Z).
Proof.
  intros A1 A2 A3 prot0 ints nums.
  split; [apply samplingControl_new_stops |].
  split.
  { unfold samplingControl.new.
    destruct (length ints =? 9) eqn:E9; [| simpl; discriminate].
    destruct (length nums =? 3) eqn:E3; [| simpl; discriminate].
    apply Nat.eqb_eq in E9. apply Nat.eqb_eq in E3.
    do 10 (destruct ints as [|? ints]; try discriminate E9).
    do 4 (destruct nums as [|? nums]; try discriminate E3).
    cbn [negb orb vget nth_error bind].
    destruct (negb (z2 =? A1)%Z && negb (z2 =? A2)%Z && negb (z2 =? A3)%Z);
      [discriminate |].
    destruct (z5 <=? 0)%Z; discriminate. }
  split; [intros tag sc; reflexivity |].
  split.
  { intros this params n out.
    split; [apply samplingControlInstance_setParameters |].
    split; [reflexivity | apply samplingControlInstance_generateParamsPrior]. }
  intros sc. unfold samplingControl.delete.
  destruct (samplingControl.prot sc =? 0)%Z eqn:E; simpl.
  - apply Z.eqb_eq in E. split; [intros [msg H]; discriminate H | intro H; contradiction].
  - apply Z.eqb_neq in E. split; [intros _; exact E | intros _; eexists; reflexivity].
Qed.

(** ** The constructor *)

(** The loop of lines 86-92 over the whole list: it stops at the first
    list whose length is not [sz1]. *)
Lemma lag_loop_run :
  forall (msg : string) (sz1 : nat) (tdm suf pre : list (list (Matrix D))),
  tdm = pre ++ suf ->
  for_loop (length suf) (length pre)
    (fun i _ => l <- vget tdm i ;; if negb (length l =? sz1) then Stop msg else Done tt) tt
  = if forallb (fun l => length l =? sz1) suf then Done tt else Stop msg.
Proof.
  intros msg sz1 tdm suf. induction suf as [|x suf IH]; intros pre Htdm.
  - reflexivity.
  - cbn [length for_loop forallb].
    assert (Hx : vget tdm (length pre) = Done x).
    { unfold vget. rewrite Htdm, nth_error_app2 by lia.
      rewrite Nat.sub_diag. reflexivity. }
    rewrite Hx. cbn [bind].
    destruct (length x =? sz1); cbn [negb andb bind]; [| reflexivity].
    specialize (IH (pre ++ [x])). rewrite length_app in IH. simpl in IH.
    rewrite Nat.add_1_r in IH. apply IH.
    rewrite <- app_assoc. exact Htdm.
Qed.

Lemma lengths_differ_from_first :
  forall (first : list (Matrix D)) (rest : list (list (Matrix D))),
  forallb (fun l => length l =? length first) (first :: rest) = false <->
  exists l l', In l (first :: rest) /\ In l' (first :: rest) /\ length l <> length l'.
Proof.
  intros first rest. split.
  - intro H. destruct (forallb (fun l => length l =? length first) (first :: rest)) eqn:E;
      [discriminate |].
    assert (Hex : exists l, In l (first :: rest) /\ length l <> length first).
    { clear H. induction (first :: rest) as [|y ys IH]; [discriminate |].
      simpl in E. destruct (Nat.eqb_spec (length y) (length first)) as [Ey|Ey].
      - simpl in E. destruct (IH E) as [l [Hin Hl]]. exists l. split; [right; exact Hin | exact Hl].
      - exists y. split; [left; reflexivity | exact Ey]. }
    destruct Hex as [l [Hin Hl]]. exists l, first.
    split; [exact Hin |]. split; [left; reflexivity | exact Hl].
  - intros [l [l' [Hl [Hl' Hne]]]].
    destruct (forallb (fun l => length l =? length first) (first :: rest)) eqn:E;
      [| reflexivity].
    rewrite forallb_forall in E.
    pose proof (E l Hl) as E1. pose proof (E l' Hl') as E2.
    apply Nat.eqb_eq in E1. apply Nat.eqb_eq in E2. congruence.
Qed.

Ltac stop_case :=
  split; [discriminate | split; [intros _; tauto | intros _; eexists; reflexivity]].

(** The checks of lines 61-119 on a data model whose time-point count is
    not zero: they read inside the containers, and they stop exactly on a
    dimension mismatch. (With zero time points and an empty lagged list,
    line 85 reads [tdm_list[0]] of an empty vector.) *)
Lemma validate_outcome : forall this : spatialSEIRModel,
  dataModel.nTpt (dataModelInstance this) <> 0%Z ->
  validate this <> Fault /\
  ((exists msg, validate this = Stop msg) <->
   dimension_mismatch (dataModelInstance this) (exposureModelInstance this)
     (reinfectionModelInstance this) (distanceModelInstance this)
     (transitionPriorsInstance this) (initialValueContainerInstance this)).
Proof.
  intros this Hpos. unfold validate, dimension_mismatch. cbv zeta.
  generalize dependent (dataModelInstance this). intros dm Hpos.
  generalize (exposureModelInstance this) (reinfectionModelInstance this)
    (distanceModelInstance this) (transitionPriorsInstance this)
    (initialValueContainerInstance this).
  intros em rm dist tp iv.
  destruct (Z.eqb_spec (dataModel.nLoc dm) (exposureModel.nLoc em)) as [E1|E1];
    cbn [negb]; [| stop_case].
  destruct (Z.eqb_spec (dataModel.nTpt dm) (exposureModel.nTpt em)) as [E2|E2];
    cbn [negb]; [| stop_case].
  destruct (Z.eqb_spec (dataModel.nLoc dm) (distanceModel.numLocations dist)) as [E3|E3];
    cbn [negb]; [| stop_case].
  destruct (Z.eqb_spec (Z.of_nat (length (distanceModel.tdm_list dist))) (dataModel.nTpt dm))
    as [E4|E4]; cbn [negb]; [| stop_case].
  destruct (distanceModel.tdm_list dist) as [|first rest] eqn:Etdm.
  { simpl in E4. lia. }
  change (vget (first :: rest) 0) with (Done first). cbn [bind].
  rewrite (lag_loop_run _ (length first) (first :: rest) (first :: rest) []) by reflexivity.
  destruct (forallb (fun l => length l =? length first) (first :: rest)) eqn:E5; cbn [bind].
  2:{ split; [discriminate |]. split; [intros _ | intros _; eexists; reflexivity].
      right. right. left. right. apply lengths_differ_from_first. exact E5. }
  assert (Hlag : ~ (exists l l', In l (first :: rest) /\ In l' (first :: rest)
                                 /\ length l <> length l')).
  { intro Hx. apply lengths_differ_from_first in Hx. congruence. }
  destruct (Z.eqb_spec (dataModel.nLoc dm)
              (Z.of_nat (length (initialValueContainer.S0 iv)))) as [E6|E6];
    cbn [negb]; [| stop_case].
  assert (Hmode :
    forall o : outcome unit,
      o = (if negb (String.eqb (transitionPriors.mode tp) "exponential")
              && negb (String.eqb (transitionPriors.mode tp) "path_specific")
              && negb (String.eqb (transitionPriors.mode tp) "weibull")
           then Stop ("Invalid transition mode: " ++ transitionPriors.mode tp)
           else Done tt) ->
      o <> Fault /\
      ((exists msg, o = Stop msg) <->
       (transitionPriors.mode tp <> "exponential"%string /\
        transitionPriors.mode tp <> "weibull"%string /\
        transitionPriors.mode tp <> "path_specific"%string))).
  { intros o Ho. subst o.
    destruct (String.eqb_spec (transitionPriors.mode tp) "exponential") as [M1|M1];
      destruct (String.eqb_spec (transitionPriors.mode tp) "path_specific") as [M2|M2];
      destruct (String.eqb_spec (transitionPriors.mode tp) "weibull") as [M3|M3];
      cbn [negb andb];
      (split; [discriminate |]);
      (split; [intros [msg H]; first [discriminate H | tauto]
              | intros [H1 [H2 H3]]; first [contradiction | eexists; reflexivity]]). }
  destruct (Z.eqb_spec (reinfectionModel.reinfectionMode rm) 3) as [E7|E7]; cbn [bind].
  - destruct (Hmode _ eq_refl) as [Hnf Hiff]. split; [exact Hnf |].
    rewrite Hiff. tauto.
  - destruct (Z.eqb_spec (Z.of_nat (rows (reinfectionModel.X_rs rm))) (dataModel.nTpt dm))
      as [E8|E8]; cbn [negb bind]; [| stop_case].
    destruct (Hmode _ eq_refl) as [Hnf Hiff]. split; [exact Hnf |].
    rewrite Hiff. tauto.
Qed.

(** The second half of the constructor never calls [Rcpp::stop]; when it
    returns, the worker pool exists and the object is marked uninitialised. *)
Lemma build_outcome :
  forall (tp : transitionPriors.t D) (sc : samplingControl.t D) (this : spatialSEIRModel),
  (forall msg, fst (build tp sc this) <> Stop msg) /\
  (fst (build tp sc this) = Done tt ->
   worker_pool (snd (build tp sc this)) <> None /\
   is_initialized (snd (build tp sc this)) = false /\
   EI_transition_dist (snd (build tp sc this)) <> None /\
   IR_transition_dist (snd (build tp sc this)) <> None).
Proof.
  intros tp sc this. unfold build, mbind, lift, assign, get.
  destruct this. cbv zeta.
  destruct (String.eqb (transitionPriors.mode tp) "weibull").
  - unfold col.
    destruct (0 <? cols (transitionPriors.E_to_I_params tp));
      [| simpl; split; [discriminate | discriminate]].
    destruct (0 <? cols (transitionPriors.I_to_R_params tp));
      [| simpl; split; [discriminate | discriminate]].
    unfold Zero.
    destruct ((0 <=? samplingControl.batch_size sc)%Z && (0 <=? samplingControl.m sc)%Z);
      simpl; (split; [discriminate |]); intro H; try discriminate H;
      repeat split; discriminate.
  - unfold Zero.
    destruct ((0 <=? samplingControl.batch_size sc)%Z && (0 <=? samplingControl.m sc)%Z);
      simpl; (split; [discriminate |]); intro H; try discriminate H;
      repeat split; discriminate.
Qed.

Lemma set_components_spec :
  forall (dm : dataModel.t) (em : exposureModel.t D) (rm : reinfectionModel.t D)
         (dist : distanceModel.t D) (tp : transitionPriors.t D)
         (iv : initialValueContainer.t) (sc : samplingControl.t D) (this : spatialSEIRModel),
  dataModelInstance (set_components dm em rm dist tp iv sc this) = dm /\
  exposureModelInstance (set_components dm em rm dist tp iv sc this) = em /\
  reinfectionModelInstance (set_components dm em rm dist tp iv sc this) = rm /\
  distanceModelInstance (set_components dm em rm dist tp iv sc this) = dist /\
  transitionPriorsInstance (set_components dm em rm dist tp iv sc this) = tp /\
  initialValueContainerInstance (set_components dm em rm dist tp iv sc this) = iv /\
  worker_pool (set_components dm em rm dist tp iv sc this) = worker_pool this.
Proof. intros. destruct this. simpl. repeat split; reflexivity. Qed.

(** The two halves of the constructor: the order check on the handles,
    then validation and construction on the stored components. *)
Lemma ctor_run :
  forall (dm : dataModel.t) (em : exposureModel.t D) (rm : reinfectionModel.t D)
         (dist : distanceModel.t D) (tp : transitionPriors.t D)
         (iv : initialValueContainer.t) (sc : samplingControl.t D) (this : spatialSEIRModel),
  (type_mismatch dm em rm dist tp iv sc ->
   ctor dm em rm dist tp iv sc this
   = (Stop ("Error: model components were not provided in the correct order. " ++ nl),
      this)) /\
  (~ type_mismatch dm em rm dist tp iv sc ->
   ctor dm em rm dist tp iv sc this
   = match validate (set_components dm em rm dist tp iv sc this) with
     | Done _ => build tp sc (set_components dm em rm dist tp iv sc this)
     | Stop msg => (Stop msg, set_components dm em rm dist tp iv sc this)
     | Fault => (Fault, set_components dm em rm dist tp iv sc this)
     end).
Proof.
  intros dm em rm dist tp iv sc this. unfold ctor, type_mismatch. cbv zeta.
  unfold samplingControl.getModelComponentType. cbn [fst].
  rewrite Z.eqb_refl.
  destruct (Z.eqb_spec (dataModel.getModelComponentType dm) LSS_DATA_MODEL_TYPE);
  destruct (Z.eqb_spec (exposureModel.getModelComponentType em) LSS_EXPOSURE_MODEL_TYPE);
  destruct (Z.eqb_spec (reinfectionModel.getModelComponentType rm)
              LSS_REINFECTION_MODEL_TYPE);
  destruct (Z.eqb_spec (distanceModel.getModelComponentType dist) LSS_DISTANCE_MODEL_TYPE);
  destruct (Z.eqb_spec (transitionPriors.getModelComponentType tp)
              LSS_TRANSITION_MODEL_TYPE);
  destruct (Z.eqb_spec (initialValueContainer.getModelComponentType iv)
              LSS_INIT_CONTAINER_TYPE);
  cbn [negb orb];
  (split; [intro H; first [reflexivity | exfalso; tauto] | intro H]);
  first [ exfalso; tauto | idtac ].
  unfold mbind, assign, get, lift.
  destruct (validate (set_components dm em rm dist tp iv sc this)); reflexivity.
Qed.

(** C4. For a data model whose time-point count is not zero, construction
    stops exactly on the listed conditions: a handle whose type tag is not the one
    of its role, disagreeing location counts, disagreeing time-point counts,
    a lagged-matrix list count that is not the number of time points or
    lagged-matrix lists of different lengths, an initial-compartment vector
    whose length is not the location count, reinfection covariates whose
    row count is not the number of time points (unless the reinfection mode
    is 3), or an unknown transition mode. When it stops, the worker pool
    has not been created and [new] yields no object; when [new] yields an
    object, its worker pool exists and it is marked uninitialised. *)
Theorem construction_validates :
  forall (storage : spatialSEIRModel)
         (dm : dataModel.t) (em : exposureModel.t D) (rm : reinfectionModel.t D)
         (dist : distanceModel.t D) (tp : transitionPriors.t D)
         (iv : initialValueContainer.t) (sc : samplingControl.t D),
  dataModel.nTpt dm <> 0%Z ->
  ((exists msg, fst (ctor dm em rm dist tp iv sc (fresh storage)) = Stop msg) <->
   invalid_configuration dm em rm dist tp iv sc) /\
  (forall msg, fst (ctor dm em rm dist tp iv sc (fresh storage)) = Stop msg ->
     worker_pool (snd (ctor dm em rm dist tp iv sc (fresh storage))) = None /\
     spatialSEIRModel_new storage dm em rm dist tp iv sc = Stop msg) /\
  (forall this, spatialSEIRModel_new storage dm em rm dist tp iv sc = Done this ->
     ~ invalid_configuration dm em rm dist tp iv sc /\
     worker_pool this <> None /\ is_initialized this = false).
Proof.
  intros storage dm em rm dist tp iv sc Hpos.
  assert (Hfresh : worker_pool (fresh storage) = None) by (destruct storage; reflexivity).
  destruct (ctor_run dm em rm dist tp iv sc (fresh storage)) as [Hbad Hgood].
  destruct (set_components_spec dm em rm dist tp iv sc (fresh storage))
    as [Cdm [Cem [Crm [Cdist [Ctp [Civ Cwp]]]]]].
  pose proof (validate_outcome (set_components dm em rm dist tp iv sc (fresh storage))) as Hval.
  rewrite Cdm, Cem, Crm, Cdist, Ctp, Civ in Hval. specialize (Hval Hpos).
  destruct Hval as [Hnofault Hstop].
  pose proof (build_outcome tp sc (set_components dm em rm dist tp iv sc (fresh storage)))
    as [Hnostop Hbuilt].
  unfold spatialSEIRModel_new, invalid_configuration.
  assert (Hdec : type_mismatch dm em rm dist tp iv sc \/ ~ type_mismatch dm em rm dist tp iv sc).
  { unfold type_mismatch, samplingControl.getModelComponentType. cbn [fst].
    destruct (Z.eq_dec (dataModel.getModelComponentType dm) LSS_DATA_MODEL_TYPE);
    destruct (Z.eq_dec (exposureModel.getModelComponentType em) LSS_EXPOSURE_MODEL_TYPE);
    destruct (Z.eq_dec (reinfectionModel.getModelComponentType rm)
                LSS_REINFECTION_MODEL_TYPE);
    destruct (Z.eq_dec (distanceModel.getModelComponentType dist) LSS_DISTANCE_MODEL_TYPE);
    destruct (Z.eq_dec (transitionPriors.getModelComponentType tp)
                LSS_TRANSITION_MODEL_TYPE);
    destruct (Z.eq_dec (initialValueContainer.getModelComponentType iv)
                LSS_INIT_CONTAINER_TYPE); tauto. }
  destruct Hdec as [Hty|Hty].
  - rewrite (Hbad Hty). cbn [fst snd].
    split; [split; [intros _; left; exact Hty | intros _; eexists; reflexivity] |].
    split; [| intros this H; discriminate H].
    intros msg H. split; [exact Hfresh | inversion H; reflexivity].
  - rewrite (Hgood Hty).
    destruct (validate (set_components dm em rm dist tp iv sc (fresh storage)))
      as [u|m|] eqn:Ev.
    + destruct (build tp sc (set_components dm em rm dist tp iv sc (fresh storage)))
        as [o this'] eqn:Eb. cbn [fst snd] in *.
      assert (Hnodim : ~ dimension_mismatch dm em rm dist tp iv).
      { intro Hd. apply Hstop in Hd. destruct Hd as [msg Hd]. discriminate Hd. }
      split.
      { split; [intros [msg H]; exfalso; exact (Hnostop msg H) | tauto]. }
      split; [intros msg H; exfalso; exact (Hnostop msg H) |].
      intros this H. destruct o as [[]| |]; try discriminate H.
      inversion H; subst this'. split; [tauto |].
      destruct (Hbuilt eq_refl) as [Hwp [Hini _]]. split; assumption.
    + cbn [fst snd].
      assert (Hdim : dimension_mismatch dm em rm dist tp iv).
      { apply Hstop. eexists; reflexivity. }
      split; [split; [intros _; right; exact Hdim | intros _; eexists; reflexivity] |].
      split; [| intros this H; discriminate H].
      intros msg H. split; [rewrite Cwp; exact Hfresh | inversion H; reflexivity].
    + contradiction.
Qed.

(** ** evalPrior: the factors of the product *)

Lemma seq_0_S : forall n : nat, seq 0 (S n) = seq 0 n ++ [n].
Proof. intro n. rewrite seq_S. reflexivity. Qed.

Lemma fold_left_snoc : forall (A B : Type) (f : A -> B -> A) (l : list B) (x : B) (a : A),
  fold_left f (l ++ [x]) a = f (fold_left f l a) x.
Proof. intros A B f l x a. rewrite fold_left_app. reflexivity. Qed.

(** The normal-density loop returns when the priors and the parameter
    vector cover its indices, with the product of its factors. *)
Lemma evalPrior_normal_run :
  forall (n : nat) (mean precision v : list D) (out : D) (lo : nat),
  n <= length mean -> n <= length precision -> lo + n <= length v ->
  evalPrior_normal n mean precision v (out, lo)
  = Done (fold_left mul (normal_factors n mean precision v lo) out, lo + n).
Proof.
  intros n mean precision v out lo Hm Hp Hv. unfold evalPrior_normal.
  destruct (for_loop_invariant (D * nat)
              (fun k s => s = (fold_left mul (normal_factors k mean precision v lo) out, lo + k))
              (fun i '(outPrior, paramIdx) =>
                 x <- vget v paramIdx ;;
                 mu <- vget mean i ;;
                 prec <- vget precision i ;;
                 Done (mul outPrior (dnorm x mu (div d1 prec)), S paramIdx))
              n 0 (out, lo)) as [s' [Hrun Hs']].
  - rewrite Nat.add_0_r. reflexivity.
  - intros k t Hk Ht. subst t. eexists. split.
    + rewrite (vget_Done D v (lo + k) d0) by lia.
      rewrite (vget_Done D mean k d0) by lia.
      rewrite (vget_Done D precision k d0) by lia.
      cbn [bind]. reflexivity.
    + unfold normal_factors. rewrite seq_0_S, map_app. cbn [map].
      rewrite fold_left_snoc. unfold normal_factor at 3.
      rewrite Nat.add_succ_r. reflexivity.
  - rewrite Hrun. simpl in Hs'. rewrite Hs'. reflexivity.
Qed.

(** When the loop returns it has advanced [paramIdx] by [n], and it has
    read the parameter vector up to there. *)
Lemma evalPrior_normal_reads :
  forall (n : nat) (mean precision v : list D) (out out' : D) (lo lo' : nat),
  evalPrior_normal n mean precision v (out, lo) = Done (out', lo') ->
  lo' = lo + n /\ (0 < n -> lo + n <= length v).
Proof.
  intros n mean precision v out out' lo lo' Hrun. unfold evalPrior_normal in Hrun.
  apply (for_loop_preserves (D * nat)
           (fun k s => snd s = lo + k /\ (0 < k -> lo + k <= length v))) in Hrun.
  - simpl in Hrun. exact Hrun.
  - simpl. split; [lia | intro H; lia].
  - intros k [o p] [o' p'] Hk [Hp Hread] Hbody. simpl in Hp. subst p.
    destruct (vget_cases D v (lo + k)) as [[x [Ex Hlt]]|[Ex _]];
      rewrite Ex in Hbody; [| discriminate Hbody].
    cbn [bind] in Hbody.
    destruct (vget mean k); [| discriminate Hbody | discriminate Hbody].
    destruct (vget precision k); [| discriminate Hbody | discriminate Hbody].
    cbn [bind] in Hbody. inversion Hbody; subst. simpl.
    split; [lia | intros _; lia].
Qed.

(** The rho block of [evalPrior]: one Beta density per entry, then the
    indicator of [constr <= 1], where [constr] is the sum of the block. *)
Lemma evalPrior_rho_run :
  forall (n : nat) (spatial_prior v : list D) (out : D) (lo : nat),
  (0 < n -> 2 <= length spatial_prior) -> lo + n <= length v ->
  evalPrior_rho n spatial_prior v (out, lo, d0)
  = Done (fold_left mul (rho_factors spatial_prior v lo n) out, lo + n, rho_sum v lo n).
Proof.
  intros n sp v out lo Hsp Hv. unfold evalPrior_rho, rho_factors.
  destruct (Nat.ltb_spec 0 n) as [Hn|Hn].
  2:{ assert (n = 0) by lia. subst n. rewrite Nat.add_0_r. reflexivity. }
  specialize (Hsp Hn).
  match goal with
  | |- context [for_loop n 0 ?body ?s0] =>
      destruct (for_loop_invariant (D * nat * D)
                  (fun k s =>
                     s = (fold_left mul
                            (map (fun x => dbeta x (nth 0 sp d0) (nth 1 sp d0))
                               (rho_values v lo k))
                            out,
                          lo + k, rho_sum v lo k))
                  body n 0 s0) as [s' [Hrun Hs']]
  end.
  - rewrite Nat.add_0_r. reflexivity.
  - intros k t Hk Ht. subst t. eexists. split.
    + rewrite (vget_Done D v (lo + k) d0) by lia.
      rewrite (vget_Done D sp 0 d0) by lia.
      rewrite (vget_Done D sp 1 d0) by lia.
      cbn [bind]. reflexivity.
    + unfold rho_sum, rho_values. rewrite seq_0_S, !map_app. cbn [map].
      rewrite !fold_left_snoc. rewrite Nat.add_succ_r. reflexivity.
  - rewrite Hrun. simpl in Hs'. rewrite Hs'. cbn [bind].
    rewrite fold_left_snoc. reflexivity.
Qed.

Lemma evalPrior_rho_reads :
  forall (n : nat) (spatial_prior v : list D) (s : D * nat * D) (out' c' : D) (lo' : nat),
  evalPrior_rho n spatial_prior v s = Done (out', lo', c') ->
  lo' = snd (fst s) + n /\ (0 < n -> snd (fst s) + n <= length v).
Proof.
  intros n sp v [[out lo] c] out' c' lo' Hrun. unfold evalPrior_rho in Hrun. simpl.
  destruct (Nat.ltb_spec 0 n) as [Hn|Hn].
  2:{ inversion Hrun; subst. split; lia. }
  apply bind_Done in Hrun. destruct Hrun as [[[o p] c1] [Hloop Hret]].
  inversion Hret; subst.
  apply (for_loop_preserves (D * nat * D)
           (fun k s => snd (fst s) = lo + k /\ (0 < k -> lo + k <= length v))) in Hloop.
  - simpl in Hloop. exact Hloop.
  - simpl. split; [lia | intro H; lia].
  - intros k [[o1 p1] c2] [[o2 p2] c3] Hk [Hp Hread] Hbody. simpl in Hp. subst p1.
    destruct (vget_cases D v (lo + k)) as [[x [Ex Hlt]]|[Ex _]];
      rewrite Ex in Hbody; [| discriminate Hbody].
    cbn [bind] in Hbody.
    destruct (vget sp 0); [| discriminate Hbody | discriminate Hbody].
    destruct (vget sp 1); [| discriminate Hbody | discriminate Hbody].
    cbn [bind] in Hbody. inversion Hbody; subst. simpl.
    split; [lia | intros _; lia].
Qed.

Lemma mget_Done : forall (A : Type) (m : Matrix A) (i j : nat),
  i < rows m -> j < cols m -> mget m i j = Done (coeff m i j).
Proof.
  intros A m i j Hi Hj. unfold mget, in_range.
  apply Nat.ltb_lt in Hi. apply Nat.ltb_lt in Hj. rewrite Hi, Hj. reflexivity.
Qed.

Lemma segment_cases : forall (A : Type) (v : list A) (lo n : nat),
  (segment v lo n = Done (firstn n (skipn lo v)) /\ lo + n <= length v) \/
  (segment v lo n = Fault /\ length v < lo + n).
Proof.
  intros A v lo n. unfold segment. destruct (Nat.leb_spec (lo + n) (length v)).
  - left. split; [reflexivity | assumption].
  - right. split; [reflexivity | assumption].
Qed.

Lemma evalPrior_transition_run :
  forall (this : spatialSEIRModel) (transitionMode : string) (v : list D) (out : D)
         (lo : nat),
  transition_inputs_ok this transitionMode ->
  lo + nTrans_of transitionMode <= length v ->
  evalPrior_transition this transitionMode v out lo
  = Done (fold_left mul (transition_factors this transitionMode v lo) out).
Proof.
  intros this tm v out lo [Hexp Hwei] Hv.
  unfold evalPrior_transition, transition_factors, nTrans_of in *. cbv zeta.
  destruct (String.eqb_spec tm "exponential") as [E1|E1].
  - destruct (Hexp E1) as [H1 [H2 [H3 H4]]].
    rewrite (vget_Done D v lo d0) by lia.
    rewrite (vget_Done D v (S lo) d0) by lia.
    rewrite !mget_Done by lia. reflexivity.
  - destruct (String.eqb_spec tm "weibull") as [E2|E2]; [| reflexivity].
    destruct (Hwei E2) as [H1 H2].
    destruct (EI_transition_dist this) as [ei|]; [| contradiction].
    destruct (IR_transition_dist this) as [ir|]; [| contradiction].
    cbn [deref bind].
    destruct (segment_cases D v lo 2) as [[S1 _]|[_ S1]]; [| lia].
    destruct (segment_cases D v (lo + 2) 2) as [[S2 _]|[_ S2]]; [| lia].
    rewrite S1, S2. reflexivity.
Qed.

Lemma evalPrior_transition_reads :
  forall (this : spatialSEIRModel) (transitionMode : string) (v : list D) (out r : D)
         (lo : nat),
  evalPrior_transition this transitionMode v out lo = Done r ->
  0 < nTrans_of transitionMode -> lo + nTrans_of transitionMode <= length v.
Proof.
  intros this tm v out r lo Hrun. unfold evalPrior_transition, nTrans_of in *.
  cbv zeta in Hrun.
  destruct (String.eqb tm "exponential").
  - intros _.
    destruct (vget v lo); [| discriminate Hrun | discriminate Hrun]. cbn [bind] in Hrun.
    repeat (match type of Hrun with
            | bind (mget ?m ?i ?j) _ = _ =>
                destruct (mget m i j); [| discriminate Hrun | discriminate Hrun];
                cbn [bind] in Hrun
            end).
    destruct (vget_cases D v (S lo)) as [[x [Ex Hlt]]|[Ex _]];
      rewrite Ex in Hrun; [lia | discriminate Hrun].
  - destruct (String.eqb tm "weibull"); [| intro H; lia].
    intros _.
    destruct (deref (EI_transition_dist this)); [| discriminate Hrun | discriminate Hrun].
    cbn [bind] in Hrun.
    destruct (segment v lo 2); [| discriminate Hrun | discriminate Hrun].
    cbn [bind] in Hrun.
    destruct (deref (IR_transition_dist this)); [| discriminate Hrun | discriminate Hrun].
    cbn [bind] in Hrun.
    destruct (segment_cases D v (lo + 2) 2) as [[S2 Hle]|[S2 _]];
      rewrite S2 in Hrun; [lia | discriminate Hrun].
Qed.

(** [evalPrior] returns the left-to-right product of the factors. *)
Lemma evalPrior_product :
  forall (this : spatialSEIRModel) (v : list D) (hr hs : bool) (tm : string)
         (nb nrs nrho : nat),
  evalPrior_locals this = Done (hr, hs, tm, (nb, nrs, nrho)) ->
  priors_cover this nb nrs nrho tm ->
  nb + nrs + nrho + nTrans_of tm <= length v ->
  evalPrior this v = Done (fold_left mul (prior_factors this nb nrs nrho tm v) d1).
Proof.
  intros this v hr hs tm nb nrs nrho Hloc [C1 [C2 [C3 [C4 [C5 C6]]]]] Hv.
  unfold evalPrior, prior_factors. cbv zeta. rewrite Hloc. cbn [bind].
  rewrite evalPrior_normal_run by lia. cbn [bind]. rewrite Nat.add_0_l.
  rewrite !fold_left_app.
  assert (Hrs :
    (if 0 <? nrs
     then evalPrior_normal nrs
            (reinfectionModel.betaPriorMean (reinfectionModelInstance this))
            (reinfectionModel.betaPriorPrecision (reinfectionModelInstance this)) v
            (fold_left mul
               (normal_factors nb
                  (exposureModel.betaPriorMean (exposureModelInstance this))
                  (exposureModel.betaPriorPrecision (exposureModelInstance this)) v 0) d1,
             nb)
     else Done
            (fold_left mul
               (normal_factors nb
                  (exposureModel.betaPriorMean (exposureModelInstance this))
                  (exposureModel.betaPriorPrecision (exposureModelInstance this)) v 0) d1,
             nb))
    = Done (fold_left mul
              (normal_factors nrs
                 (reinfectionModel.betaPriorMean (reinfectionModelInstance this))
                 (reinfectionModel.betaPriorPrecision (reinfectionModelInstance this)) v nb)
              (fold_left mul
                 (normal_factors nb
                    (exposureModel.betaPriorMean (exposureModelInstance this))
                    (exposureModel.betaPriorPrecision (exposureModelInstance this)) v 0) d1),
            nb + nrs)).
  { destruct (Nat.ltb_spec 0 nrs) as [Hn|Hn].
    - apply evalPrior_normal_run; lia.
    - assert (nrs = 0) by lia. subst nrs. rewrite Nat.add_0_r. reflexivity. }
  rewrite Hrs. cbn [bind].
  rewrite evalPrior_rho_run by (trivial; lia). cbn [bind].
  apply evalPrior_transition_run; [exact C6 | lia].
Qed.

(** When [evalPrior] returns, the parameter vector covers the layout. *)
Lemma evalPrior_reads :
  forall (this : spatialSEIRModel) (v : list D) (r : D) (hr hs : bool) (tm : string)
         (nb nrs nrho : nat),
  evalPrior_locals this = Done (hr, hs, tm, (nb, nrs, nrho)) ->
  evalPrior this v = Done r ->
  nb + nrs + nrho + nTrans_of tm <= length v.
Proof.
  intros this v r hr hs tm nb nrs nrho Hloc Hrun.
  unfold evalPrior in Hrun. cbv zeta in Hrun. rewrite Hloc in Hrun. cbn [bind] in Hrun.
  apply bind_Done in Hrun. destruct Hrun as [[o1 p1] [H1 Hrun]].
  apply evalPrior_normal_reads in H1. destruct H1 as [Hp1 Hr1]. simpl in Hp1.
  apply bind_Done in Hrun. destruct Hrun as [[o2 p2] [H2 Hrun]].
  assert (Hp2 : p2 = p1 + nrs /\ (0 < nrs -> p1 + nrs <= length v)).
  { destruct (Nat.ltb_spec 0 nrs) as [Hn|Hn].
    - apply evalPrior_normal_reads in H2. exact H2.
    - inversion H2; subst. split; lia. }
  destruct Hp2 as [Hp2 Hr2].
  apply bind_Done in Hrun. destruct Hrun as [[[o3 p3] c3] [H3 Hrun]].
  apply evalPrior_rho_reads in H3. simpl in H3. destruct H3 as [Hp3 Hr3].
  pose proof (evalPrior_transition_reads _ _ _ _ _ _ Hrun) as Hr4.
  subst p1 p2 p3.
  destruct (Nat.eq_dec (nTrans_of tm) 0) as [Z4|Z4]; [| lia].
  rewrite Z4. destruct (Nat.eq_dec nrho 0) as [Z3|Z3]; [| lia].
  subst nrho. destruct (Nat.eq_dec nrs 0) as [Z2|Z2]; [| lia].
  subst nrs. destruct (Nat.eq_dec nb 0) as [Z1|Z1]; lia.
Qed.

(** ** The parameter count *)

Lemma mul_b2n : forall (n : nat) (b : bool), n * b2n b = if b then n else 0.
Proof. intros n [|]; simpl; lia. Qed.

(** The counts of the three functions side by side. [generateParamsPrior]
    computes [nParams = nBeta + nBetaRS + nRho + nTrans] from the
    components, with [nBetaRS] counted only when the first reinfection
    precision is greater than 0, [nRho] only when the data have more than
    one column, and [nTrans] 2, 4 or 0 by mode; [evalPrior] computes the
    same three block widths from the components, and returns exactly on
    the parameter vectors of at least [nParams] entries. [setParameters]
    computes its sizes from the members [hasReinfection], [hasSpatial] and
    [transitionMode]: they are the same sizes when these members hold the
    values the other two functions derive. *)
Lemma sizes_agree_when_members_hold :
  forall (this : spatialSEIRModel) (hr hs : bool) (tm : string) (sz : sizes),
  generateParamsPrior_locals this = Done (hr, hs, tm, sz) ->
  hasReinfection this = hr -> hasSpatial this = hs -> transitionMode this = tm ->
  priors_cover this (nBeta sz) (nBetaRS sz) (nRho sz) tm ->
  nParams sz = nBeta sz + nBetaRS sz + nRho sz + nTrans sz /\
  (exists prec0 lag0,
     vget (reinfectionModel.betaPriorPrecision (reinfectionModelInstance this)) 0
       = Done prec0 /\
     vget (distanceModel.tdm_list (distanceModelInstance this)) 0 = Done lag0 /\
     nBeta sz = cols (exposureModel.X (exposureModelInstance this)) /\
     nBetaRS sz = (if gtb prec0 d0
                   then cols (reinfectionModel.X_rs (reinfectionModelInstance this))
                   else 0) /\
     nRho sz = (if 1 <? cols (dataModel.Y (dataModelInstance this))
                then length (distanceModel.dm_list (distanceModelInstance this))
                     + length lag0
                else 0)) /\
  (tm = "exponential"%string -> nTrans sz = 2) /\
  (tm = "weibull"%string -> nTrans sz = 4) /\
  (tm = "path_specific"%string -> nTrans sz = 0) /\
  setParameters_locals this = Done sz /\
  evalPrior_locals this = Done (hr, hs, tm, (nBeta sz, nBetaRS sz, nRho sz)) /\
  (forall v : list D, (exists r, evalPrior this v = Done r) <-> nParams sz <= length v).
Proof.
  intros this hr hs tm sz Hloc Hhr Hhs Htm Hcover.
  pose proof Hloc as Hgen. unfold generateParamsPrior_locals in Hgen.
  destruct (vget (reinfectionModel.betaPriorPrecision (reinfectionModelInstance this)) 0)
    as [prec0| |] eqn:Eprec; try discriminate Hgen.
  cbn [bind] in Hgen.
  destruct (vget (distanceModel.tdm_list (distanceModelInstance this)) 0)
    as [lag0| |] eqn:Elag; try discriminate Hgen.
  cbn [bind] in Hgen. injection Hgen as Ehr Ehs Etm Esz.
  assert (Heval : evalPrior_locals this
                  = Done (hr, hs, tm, (nBeta sz, nBetaRS sz, nRho sz))).
  { unfold evalPrior_locals. rewrite Eprec. cbn [bind]. rewrite Elag. cbn [bind].
    rewrite <- Esz, Ehr, Ehs, Etm. reflexivity. }
  assert (Hn : nParams sz = nBeta sz + nBetaRS sz + nRho sz + nTrans sz).
  { rewrite <- Esz. reflexivity. }
  assert (Ht : nTrans sz = nTrans_of tm).
  { rewrite <- Esz, <- Etm. reflexivity. }
  split; [exact Hn |].
  split.
  { exists prec0, lag0. rewrite <- Esz. cbn [nBeta nBetaRS nRho].
    rewrite !mul_b2n. repeat split; reflexivity. }
  split; [intro E; rewrite Ht, E; reflexivity |].
  split; [intro E; rewrite Ht, E; reflexivity |].
  split; [intro E; rewrite Ht, E; reflexivity |].
  split.
  { unfold setParameters_locals. rewrite Elag. cbn [bind].
    rewrite Hhr, Hhs, Htm, <- Esz, Ehr, Ehs, Etm. reflexivity. }
  split; [exact Heval |].
  intro v. rewrite Hn, Ht. split.
  - intros [r Hr]. exact (evalPrior_reads this v r hr hs tm _ _ _ Heval Hr).
  - intro Hv. eexists.
    exact (evalPrior_product this v hr hs tm _ _ _ Heval Hcover Hv).
Qed.

(** ** The simplex constraint in evalPrior *)

Lemma fold_left_mul_absorbed : forall l : list D,
  Forall (fun y => mul d0 y = d0) l -> fold_left mul l d0 = d0.
Proof.
  intros l H. induction H as [|y l Hy Hl IH]; [reflexivity |].
  cbn [fold_left]. rewrite Hy. exact IH.
Qed.

(** C7. With [0 <= 1] and [x > y] excluding [x <= y]: on a validated
    configuration and a parameter vector of full length, [evalPrior]
    returns the product of its factors, the rho block contributing one
    Beta(spatial_prior[0], spatial_prior[1]) density per entry followed by
    the indicator of [sum <= 1]. When the entries of the rho block sum to
    more than 1 the indicator is 0, and [evalPrior] returns 0 provided the
    factors are finite: zero absorbs the product of the factors before the
    indicator, and each factor of the transition block after it. *)
Theorem evalPrior_zero_outside_simplex :
  leb d0 d1 = true ->
  (forall x y : D, gtb x y = true -> leb x y = false) ->
  forall (this : spatialSEIRModel) (v : list D) (hr hs : bool) (tm : string)
         (nb nrs nrho : nat),
  evalPrior_locals this = Done (hr, hs, tm, (nb, nrs, nrho)) ->
  priors_cover this nb nrs nrho tm ->
  nb + nrs + nrho + nTrans_of tm <= length v ->
  let densities :=
    map (fun x => dbeta x
                    (nth 0 (distanceModel.spatial_prior (distanceModelInstance this)) d0)
                    (nth 1 (distanceModel.spatial_prior (distanceModelInstance this)) d0))
        (rho_values v (nb + nrs) nrho) in
  let before :=
    normal_factors nb
      (exposureModel.betaPriorMean (exposureModelInstance this))
      (exposureModel.betaPriorPrecision (exposureModelInstance this)) v 0
    ++ normal_factors nrs
         (reinfectionModel.betaPriorMean (reinfectionModelInstance this))
         (reinfectionModel.betaPriorPrecision (reinfectionModelInstance this)) v nb
    ++ densities in
  evalPrior this v = Done (fold_left mul (prior_factors this nb nrs nrho tm v) d1) /\
  (0 < nrho ->
   rho_factors (distanceModel.spatial_prior (distanceModelInstance this)) v (nb + nrs) nrho
   = densities ++ [of_bool (leb (rho_sum v (nb + nrs) nrho) d1)]) /\
  (gtb (rho_sum v (nb + nrs) nrho) d1 = true ->
   of_bool (leb (rho_sum v (nb + nrs) nrho) d1) = d0 /\
   (mul (fold_left mul before d1) d0 = d0 ->
    Forall (fun y => mul d0 y = d0) (transition_factors this tm v (nb + nrs + nrho)) ->
    evalPrior this v = Done d0)).
Proof.
  intros H01 Hgt this v hr hs tm nb nrs nrho Hloc Hcover Hv densities before.
  pose proof (evalPrior_product this v hr hs tm nb nrs nrho Hloc Hcover Hv) as Hprod.
  split; [exact Hprod |].
  split.
  { intro Hn. unfold rho_factors. apply Nat.ltb_lt in Hn. rewrite Hn. reflexivity. }
  intro Hsum. apply Hgt in Hsum.
  split; [rewrite Hsum; reflexivity |].
  intros Hbefore Hafter. rewrite Hprod. f_equal.
  assert (Hn : 0 < nrho).
  { destruct nrho as [|k]; [| lia].
    unfold rho_sum, rho_values in Hsum. simpl in Hsum. congruence. }
  unfold prior_factors. unfold rho_factors at 1. apply Nat.ltb_lt in Hn. rewrite Hn.
  fold densities. rewrite Hsum. cbn [of_bool].
  rewrite !app_assoc. rewrite fold_left_app.
  rewrite fold_left_snoc.
  rewrite <- !app_assoc. fold before. rewrite Hbefore.
  apply fold_left_mul_absorbed. exact Hafter.
Qed.

(** ** Sampling: draws written to a row *)

Lemma draws_length : forall (ds : list gamma_object) (g : rng),
  length (fst (draws ds g)) = length ds.
Proof.
  induction ds as [|d ds IH]; intro g; [reflexivity |].
  simpl. destruct (sample_gamma d g) as [x g1]. specialize (IH g1).
  destruct (draws ds g1) as [xs g2]. simpl in *. rewrite IH. reflexivity.
Qed.

Lemma write_Done : forall (i j : nat) (x : D) (f : frame),
  i < rows (outParams f) -> j < cols (outParams f) ->
  write i j x f
  = Done (mkFrame
            (mkMatrix (rows (outParams f)) (cols (outParams f))
               (fun r c => if (r =? i) && (c =? j) then x else coeff (outParams f) r c))
            (gen f) (Rcout f)).
Proof.
  intros i j x f Hi Hj. unfold write, mset, in_range.
  apply Nat.ltb_lt in Hi. apply Nat.ltb_lt in Hj. rewrite Hi, Hj. reflexivity.
Qed.

Lemma write_in_range : forall (i j : nat) (x : D) (f f' : frame),
  write i j x f = Done f' -> i < rows (outParams f) /\ j < cols (outParams f).
Proof.
  intros i j x f f' H. unfold write, mset, in_range in H.
  destruct (Nat.ltb_spec i (rows (outParams f))); [| discriminate H].
  destruct (Nat.ltb_spec j (cols (outParams f))); [| discriminate H].
  split; assumption.
Qed.

(** [fill] returns when the row and the columns are inside the matrix, and
    then the row holds the draws. *)
Lemma fill_spec : forall (ds : list gamma_object) (i j : nat) (f : frame),
  i < rows (outParams f) -> j + length ds <= cols (outParams f) ->
  exists f', fill ds i j f = Done f' /\
             row_written i j (fst (draws ds (gen f))) (snd (draws ds (gen f))) f f'.
Proof.
  induction ds as [|d ds IH]; intros i j f Hi Hj.
  - exists f. split; [reflexivity |]. unfold row_written. simpl.
    repeat split; try reflexivity.
    intros r c.
    destruct (Nat.leb_spec j c); destruct (Nat.ltb_spec c (j + 0));
      rewrite ?andb_false_r; cbn [andb]; try reflexivity; lia.
  - simpl in Hj. cbn [fill draws]. unfold draw.
    destruct (sample_gamma d (gen f)) as [x g1] eqn:Ed.
    rewrite write_Done by (simpl; lia). cbn [bind].
    match goal with
    | |- context [fill ds i (S j) ?f1] =>
        destruct (IH i (S j) f1) as [f' [Hrun Hw]]; [simpl; lia | simpl; lia |]
    end.
    exists f'. split; [exact Hrun |]. cbn [gen] in Hw.
    destruct (draws ds g1) as [xs g2] eqn:Eds. cbn [fst snd] in *.
    destruct Hw as [Hr [Hc [Ho [Hg Hcoeff]]]]. cbn [outParams Rcout rows cols coeff] in *.
    unfold row_written. repeat split; try assumption.
    intros r c. rewrite Hcoeff. cbn [length].
    destruct (Nat.eqb_spec r i) as [Eri|Eri]; cbn [andb]; [| reflexivity].
    destruct (Nat.leb_spec (S j) c) as [L1|L1];
      destruct (Nat.ltb_spec c (S j + length xs)) as [L2|L2];
      destruct (Nat.leb_spec j c) as [L3|L3];
      destruct (Nat.ltb_spec c (j + S (length xs))) as [L4|L4];
      destruct (Nat.eqb_spec c j) as [L5|L5];
      cbn [andb]; try lia; try reflexivity.
    + replace (c - j) with (S (c - S j)) by lia. reflexivity.
    + subst c. rewrite Nat.sub_diag. reflexivity.
Qed.

(** ** Sampling: the rho block *)

(** One draw of the rho block is [nRho] draws from [rhoDist] written to the
    row, and [rhoTot] is their sum, accumulated from 0.0 in column order. *)
Lemma rho_block_fill_from :
  forall (rhoDist : gamma_object) (i n lo : nat) (f : frame) (tot : D),
  for_loop n lo
    (fun j '(f, rhoTot) =>
       let (x, f) := draw (sample_gamma rhoDist) f in
       f <- write i j x f ;;
       y <- mget (outParams f) i j ;;
       Done (f, add rhoTot y))
    (f, tot)
  = (f' <- fill (repeat rhoDist n) i lo f ;;
     Done (f', fold_left add (fst (draws (repeat rhoDist n) (gen f))) tot)).
Proof.
  intros rhoDist i n. induction n as [|n IH]; intros lo f tot; [reflexivity |].
  cbn [for_loop repeat fill draws]. unfold draw.
  destruct (sample_gamma rhoDist (gen f)) as [x g1] eqn:Ed.
  destruct (write i lo x (mkFrame (outParams f) g1 (Rcout f))) as [f2| |] eqn:Ew;
    cbn [bind]; try reflexivity.
  pose proof (write_in_range _ _ _ _ _ Ew) as [Hi Hj].
  rewrite write_Done in Ew by assumption. injection Ew as Ef2. subst f2.
  cbn [outParams gen Rcout rows cols] in *.
  unfold mget at 1, in_range. cbn [rows cols coeff].
  apply Nat.ltb_lt in Hi. apply Nat.ltb_lt in Hj. rewrite Hi, Hj, !Nat.eqb_refl.
  cbn [andb bind]. rewrite IH. cbn [gen].
  destruct (draws (repeat rhoDist n) g1) as [xs g2]. reflexivity.
Qed.

Lemma rho_block_fill :
  forall (rhoDist : gamma_object) (i lo nRho : nat) (f : frame),
  rho_block rhoDist i lo nRho f
  = (f' <- fill (repeat rhoDist nRho) i lo f ;;
     Done (f', fold_left add (fst (draws (repeat rhoDist nRho) (gen f))) d0)).
Proof. intros. unfold rho_block. apply rho_block_fill_from. Qed.

Lemma attempt_gen_shift : forall (rhoDist : gamma_object) (nRho k : nat) (g : rng),
  attempt_gen rhoDist nRho k (snd (draws (repeat rhoDist nRho) g))
  = attempt_gen rhoDist nRho (S k) g.
Proof.
  intros rhoDist nRho k. induction k as [|k IH]; intro g; [reflexivity |].
  cbn [attempt_gen]. rewrite IH. reflexivity.
Qed.

Lemma attempt_values_length : forall (rhoDist : gamma_object) (nRho k : nat) (g : rng),
  length (attempt_values rhoDist nRho k g) = nRho.
Proof.
  intros. unfold attempt_values. rewrite draws_length. apply repeat_length.
Qed.

(** Writing the same cells twice leaves the second block. *)
Lemma row_written_twice :
  forall (i j : nat) (xs ys : list D) (g1 g2 : rng) (f f1 f2 : frame),
  length xs = length ys ->
  row_written i j xs g1 f f1 -> row_written i j ys g2 f1 f2 ->
  row_written i j ys g2 f f2.
Proof.
  intros i j xs ys g1 g2 f f1 f2 Hlen [R1 [C1 [O1 [G1 H1]]]] [R2 [C2 [O2 [G2 H2]]]].
  unfold row_written. repeat split; try congruence.
  intros r c. rewrite H2, H1, Hlen.
  destruct ((r =? i) && (j <=? c) && (c <? j + length ys)); reflexivity.
Qed.

Lemma rho_block_attempt :
  forall (rhoDist : gamma_object) (i lo nRho : nat) (f : frame),
  i < rows (outParams f) -> lo + nRho <= cols (outParams f) ->
  exists f1,
    rho_block rhoDist i lo nRho f = Done (f1, attempt_sum rhoDist nRho 0 (gen f)) /\
    row_written i lo (attempt_values rhoDist nRho 0 (gen f))
      (attempt_gen rhoDist nRho 1 (gen f)) f f1.
Proof.
  intros rhoDist i lo nRho f Hi Hj. rewrite rho_block_fill.
  destruct (fill_spec (repeat rhoDist nRho) i lo f) as [f1 [Hrun Hw]];
    [exact Hi | rewrite repeat_length; exact Hj |].
  exists f1. rewrite Hrun. cbn [bind]. split; [reflexivity | exact Hw].
Qed.

(** The retry loop, entered with [left + rhoItrs = 100]. Either it makes no
    attempt, because [rhoTot] is not above 1 or the budget is spent; or it
    makes attempts 0 to [k], stopping at the first whose sum is not above 1
    or at the last the budget allows, and the row holds attempt [k]. *)
Lemma rho_while_spec :
  forall (rhoDist : gamma_object) (i lo nRho left : nat) (rhoTot : D) (rhoItrs : nat)
         (f : frame),
  i < rows (outParams f) -> lo + nRho <= cols (outParams f) ->
  left + rhoItrs = 100 ->
  ((gtb rhoTot d1 = false \/ left = 0) /\
   rho_while left rhoDist i lo nRho rhoTot rhoItrs f = Done (f, rhoTot, rhoItrs))
  \/
  (gtb rhoTot d1 = true /\
   exists k f',
     k < left /\
     rho_while left rhoDist i lo nRho rhoTot rhoItrs f
     = Done (f', attempt_sum rhoDist nRho k (gen f), rhoItrs + S k) /\
     (forall m, m < k -> gtb (attempt_sum rhoDist nRho m (gen f)) d1 = true) /\
     row_written i lo (attempt_values rhoDist nRho k (gen f))
       (attempt_gen rhoDist nRho (S k) (gen f)) f f' /\
     (gtb (attempt_sum rhoDist nRho k (gen f)) d1 = false \/ S k = left)).
Proof.
  intros rhoDist i lo nRho left. induction left as [|left IH];
    intros rhoTot rhoItrs f Hi Hj Hbudget.
  - left. split; [right; reflexivity |].
    cbn [rho_while]. assert (E : (rhoItrs <? 100) = false) by (apply Nat.ltb_ge; lia).
    rewrite E, andb_false_r. reflexivity.
  - cbn [rho_while].
    assert (E : (rhoItrs <? 100) = true) by (apply Nat.ltb_lt; lia).
    rewrite E, andb_true_r.
    destruct (gtb rhoTot d1) eqn:Egt.
    2:{ left. split; [left; reflexivity | reflexivity]. }
    right. split; [reflexivity |].
    destruct (rho_block_attempt rhoDist i lo nRho f Hi Hj) as [f1 [Hblock Hw1]].
    rewrite Hblock. cbn [bind].
    pose proof Hw1 as [R1 [C1 [O1 [G1 _]]]].
    destruct (IH (attempt_sum rhoDist nRho 0 (gen f)) (S rhoItrs) f1) as
      [[Hstop Hrun] | [Hgo [k [f' [Hk [Hrun [Hall [Hw Hlast]]]]]]]];
      [rewrite R1; exact Hi | rewrite C1; exact Hj | lia | |].
    + exists 0, f1. split; [lia |].
      rewrite Hrun. replace (rhoItrs + 1) with (S rhoItrs) by lia.
      split; [reflexivity |].
      split; [intros m Hm; lia |].
      split; [exact Hw1 |].
      destruct Hstop as [Hs|Hs]; [left; exact Hs | right; lia].
    + rewrite G1 in Hrun, Hall, Hw, Hlast.
      assert (Eg : forall m, attempt_gen rhoDist nRho m (attempt_gen rhoDist nRho 1 (gen f))
                             = attempt_gen rhoDist nRho (S m) (gen f)).
      { intro m. cbn [attempt_gen]. apply attempt_gen_shift. }
      assert (Ev : forall m, attempt_values rhoDist nRho m (attempt_gen rhoDist nRho 1 (gen f))
                             = attempt_values rhoDist nRho (S m) (gen f)).
      { intro m. unfold attempt_values. rewrite Eg. reflexivity. }
      assert (Es : forall m, attempt_sum rhoDist nRho m (attempt_gen rhoDist nRho 1 (gen f))
                             = attempt_sum rhoDist nRho (S m) (gen f)).
      { intro m. unfold attempt_sum. rewrite Ev. reflexivity. }
      rewrite Es in Hrun, Hlast. rewrite Ev, Eg in Hw.
      exists (S k), f'. split; [lia |].
      rewrite Hrun. replace (S rhoItrs + S k) with (rhoItrs + S (S k)) by lia.
      split; [reflexivity |].
      split.
      { intros m Hm. destruct m as [|m]; [exact Hgo |]. rewrite <- Es. apply Hall. lia. }
      split.
      { apply (row_written_twice i lo (attempt_values rhoDist nRho 0 (gen f))
                 (attempt_values rhoDist nRho (S k) (gen f))
                 (attempt_gen rhoDist nRho 1 (gen f)) _ f f1 f');
          [rewrite !attempt_values_length; reflexivity | exact Hw1 | exact Hw]. }
      destruct Hlast as [Hs|Hs]; [left; exact Hs | right; lia].
Qed.

Lemma draw_rho_row_spec :
  gtb d2 d1 = true ->
  forall (rhoDist : gamma_object) (lo nRho i : nat) (f : frame),
  i < rows (outParams f) -> lo + nRho <= cols (outParams f) ->
  exists k f',
    k < 100 /\ draw_rho_row rhoDist lo nRho i f = Done f' /\
    rho_row_outcome rhoDist lo nRho i k f f'.
Proof.
  intros H21 rhoDist lo nRho i f Hi Hj. unfold draw_rho_row. cbv zeta.
  destruct (rho_while_spec rhoDist i lo nRho 100 d2 0 f Hi Hj eq_refl)
    as [[[Hs|Hs] _] | [_ [k [f' [Hk [Hrun [Hall [Hw Hlast]]]]]]]];
    [congruence | discriminate Hs |].
  rewrite Hrun. cbn [bind].
  destruct Hw as [R [C [O [G Hcoeff]]]]. rewrite attempt_values_length in Hcoeff.
  destruct (gtb (attempt_sum rhoDist nRho k (gen f)) d1) eqn:Esum.
  - exists k. eexists. split; [exact Hk |]. split; [reflexivity |].
    unfold rho_row_outcome, print. cbn [outParams gen Rcout].
    repeat (split; [assumption |]).
    right. destruct Hlast as [Hl|Hl]; [discriminate Hl |].
    split; [lia |]. split; [exact Esum |]. rewrite O. reflexivity.
  - exists k, f'. split; [exact Hk |]. split; [reflexivity |].
    unfold rho_row_outcome. repeat (split; [assumption |]).
    left. split; [exact Esum | exact O].
Qed.

Lemma rho_rows_dims : forall (rhoDist : gamma_object) (lo nRho n : nat) (f f' : frame),
  rho_rows rhoDist lo nRho n f f' ->
  rows (outParams f') = rows (outParams f) /\ cols (outParams f') = cols (outParams f).
Proof.
  intros rhoDist lo nRho n f f' H. induction H as [f|n k f f1 f2 H IH Hk Hrow].
  - split; reflexivity.
  - destruct Hrow as [_ [R [C _]]]. destruct IH as [R1 C1]. split; congruence.
Qed.

Lemma draw_rho_spec :
  gtb d2 d1 = true ->
  forall (rhoDist : gamma_object) (n lo nRho : nat) (f : frame),
  n <= rows (outParams f) -> lo + nRho <= cols (outParams f) ->
  exists f', draw_rho true rhoDist n lo nRho f = Done f' /\
             rho_rows rhoDist lo nRho n f f'.
Proof.
  intros H21 rhoDist n lo nRho f Hn Hj. unfold draw_rho.
  match goal with
  | |- context [for_loop n 0 ?body f] =>
      destruct (for_loop_invariant frame
                  (fun k s => rho_rows rhoDist lo nRho k f s) body n 0 f)
        as [f' [Hrun Hf']]
  end.
  - constructor.
  - intros k t Hk Ht. destruct (rho_rows_dims _ _ _ _ _ _ Ht) as [R C].
    destruct (draw_rho_row_spec H21 rhoDist lo nRho k t) as [a [t' [Ha [Hrun Hrow]]]];
      [lia | lia |].
    exists t'. split; [exact Hrun |]. exact (rho_rows_S _ _ _ k a f t t' Ht Ha Hrow).
  - exists f'. split; [exact Hrun | exact Hf'].
Qed.

(** ** The body of generateParamsPrior, phase by phase *)

Lemma generateParamsPrior_body_phases :
  forall (this : spatialSEIRModel) (nParticles : Z) (out : list string)
         (hr hs : bool) (tm : string) (sz : sizes) (f_end : frame),
  generateParamsPrior_locals this = Done (hr, hs, tm, sz) ->
  generateParamsPrior_body this nParticles out = Done f_end ->
  exists sp0 sp1 gammaEIDist gammaIRDist f1 f2 f3,
    vget (distanceModel.spatial_prior (distanceModelInstance this)) 0 = Done sp0 /\
    vget (distanceModel.spatial_prior (distanceModelInstance this)) 1 = Done sp1 /\
    gamma_setup (transitionPriorsInstance this) tm = Done (gammaEIDist, gammaIRDist) /\
    draw_beta (Z.to_nat nParticles) (nBeta sz) (exposureModelInstance this)
      (allocated this sz out) = Done f1 /\
    draw_transitions tm (Z.to_nat nParticles) (nBeta sz + nBetaRS sz + nRho sz)
      gammaEIDist gammaIRDist f1 = Done f2 /\
    draw_betaRS hr (Z.to_nat nParticles) (nBeta sz) (nBetaRS sz)
      (reinfectionModelInstance this) f2 = Done f3 /\
    draw_rho hs (sp0, div d1 sp1) (Z.to_nat nParticles) (nBeta sz + nBetaRS sz) (nRho sz) f3
    = Done f_end.
Proof.
  intros this nParticles out hr hs tm sz f_end Hloc Hrun.
  unfold generateParamsPrior_body in Hrun. rewrite Hloc in Hrun. cbn [bind] in Hrun.
  cbv zeta in Hrun.
  apply bind_Done in Hrun. destruct Hrun as [sp0 [H0 Hrun]].
  apply bind_Done in Hrun. destruct Hrun as [sp1 [H1 Hrun]].
  apply bind_Done in Hrun. destruct Hrun as [[eis irs] [Hg Hrun]].
  apply bind_Done in Hrun. destruct Hrun as [f1 [Hb Hrun]].
  apply bind_Done in Hrun. destruct Hrun as [f2 [Ht Hrun]].
  apply bind_Done in Hrun. destruct Hrun as [f3 [Hr Hrun]].
  exists sp0, sp1, eis, irs, f1, f2, f3. unfold allocated. repeat split; assumption.
Qed.

(** C6. With 2.0 > 1.0: the rho phase runs exactly when the data have more
    than one column, and without it the block has width 0 and no draw is
    made. A row of the block is drawn by attempts, each a fresh draw of the
    whole block, at most 100 of them, stopping at the first whose sum is not
    above 1; after the hundredth the last draw stays in the row and the
    diagnostic is printed, and the call goes on: the phase returns for every
    row count. In the body the entries are drawn from
    Gamma(spatial_prior[0], 1 / spatial_prior[1]). *)
Theorem rho_block_redrawn_until_simplex :
  gtb d2 d1 = true ->
  forall (this : spatialSEIRModel) (nParticles : Z) (out : list string)
         (hr hs : bool) (tm : string) (sz : sizes),
  generateParamsPrior_locals this = Done (hr, hs, tm, sz) ->
  (hs = (1 <? cols (dataModel.Y (dataModelInstance this))) /\
   (hs = false -> nRho sz = 0) /\
   (forall rhoDist n lo nRho f, draw_rho false rhoDist n lo nRho f = Done f)) /\
  (forall rhoDist lo nRho i f,
     i < rows (outParams f) -> lo + nRho <= cols (outParams f) ->
     exists k f',
       k < 100 /\ draw_rho_row rhoDist lo nRho i f = Done f' /\
       rho_row_outcome rhoDist lo nRho i k f f') /\
  (forall rhoDist n lo nRho f,
     n <= rows (outParams f) -> lo + nRho <= cols (outParams f) ->
     exists f', draw_rho true rhoDist n lo nRho f = Done f' /\
                rho_rows rhoDist lo nRho n f f') /\
  (forall f_end,
     generateParamsPrior_body this nParticles out = Done f_end ->
     exists sp0 sp1 f_before,
       vget (distanceModel.spatial_prior (distanceModelInstance this)) 0 = Done sp0 /\
       vget (distanceModel.spatial_prior (distanceModelInstance this)) 1 = Done sp1 /\
       draw_rho hs (sp0, div d1 sp1) (Z.to_nat nParticles)
         (nBeta sz + nBetaRS sz) (nRho sz) f_before = Done f_end).
Proof.
  intros H21 this nParticles out hr hs tm sz Hloc.
  split.
  { pose proof Hloc as Hgen. unfold generateParamsPrior_locals in Hgen.
    destruct (vget (reinfectionModel.betaPriorPrecision (reinfectionModelInstance this)) 0)
      as [prec0| |]; try discriminate Hgen.
    cbn [bind] in Hgen.
    destruct (vget (distanceModel.tdm_list (distanceModelInstance this)) 0)
      as [lag0| |]; try discriminate Hgen.
    cbn [bind] in Hgen. injection Hgen as Ehr Ehs Etm Esz.
    split; [symmetry; exact Ehs |].
    split; [| reflexivity].
    intro Hf. rewrite <- Esz. cbn [nRho]. rewrite Ehs, Hf. simpl. lia. }
  split; [intros; apply draw_rho_row_spec; assumption |].
  split; [intros; apply draw_rho_spec; assumption |].
  intros f_end Hrun.
  destruct (generateParamsPrior_body_phases this nParticles out hr hs tm sz f_end Hloc Hrun)
    as [sp0 [sp1 [eis [irs [f1 [f2 [f3 [H0 [H1 [_ [_ [_ [_ Hrho]]]]]]]]]]]]].
  exists sp0, sp1, f3. repeat split; assumption.
Qed.

(** ** Sampling: the transition block *)

Lemma for_loop_ext :
  forall (S : Type) (body body' : nat -> S -> outcome S),
  (forall k s, body k s = body' k s) ->
  forall (n lo : nat) (s : S), for_loop n lo body s = for_loop n lo body' s.
Proof.
  intros S body body' Hext n. induction n as [|n IH]; intros lo s; [reflexivity |].
  simpl. rewrite Hext. destruct (body' lo s); simpl; [apply IH | reflexivity | reflexivity].
Qed.

Lemma fill_rows : forall (ds : list gamma_object) (off n : nat) (f : frame),
  n <= rows (outParams f) -> off + length ds <= cols (outParams f) ->
  exists f', for_loop n 0 (fun i f => fill ds i off f) f = Done f' /\
             rows_filled ds off n f f'.
Proof.
  intros ds off n f Hn Hoff.
  destruct (for_loop_invariant frame (fun k s => rows_filled ds off k f s)
              (fun i f => fill ds i off f) n 0 f) as [f' [Hrun Hf']].
  - unfold rows_filled. cbn [row_gen]. repeat split; reflexivity.
  - intros k t Hk [R [C [O [G Hc]]]].
    destruct (fill_spec ds k off t) as [t' [Hrun [R' [C' [O' [G' Hc']]]]]]; [lia | lia |].
    exists t'. split; [exact Hrun |].
    unfold rows_filled. cbn [row_gen]. rewrite <- G.
    repeat split; try congruence.
    intros r c. rewrite Hc', Hc, draws_length, G.
    destruct (Nat.eqb_spec r k) as [E|E]; destruct (Nat.ltb_spec r k) as [L|L];
      destruct (Nat.ltb_spec r (S k)) as [L'|L']; try lia; cbn [andb]; try reflexivity.
    subst r. destruct ((off <=? c) && (c <? off + length ds)); reflexivity.
  - exists f'. split; [exact Hrun | exact Hf'].
Qed.

Lemma bind_ret : forall (A : Type) (m : outcome A), (x <- m ;; Done x) = m.
Proof. intros A m. destruct m; reflexivity. Qed.

(** The row bodies of the two modes are one draw per sampler, in column
    order: E to I first, then I to R. *)
Lemma exponential_row :
  forall (ei ir : gamma_object) (i off : nat) (f : frame),
  (f <- draw_gamma [ei] 0 i off f ;; draw_gamma [ir] 0 i (off + 1) f)
  = fill [ei; ir] i off f.
Proof.
  intros ei ir i off f. unfold draw_gamma. cbn [vget nth_error bind fill].
  rewrite Nat.add_1_r.
  destruct (draw (sample_gamma ei) f) as [x f1].
  destruct (write i off x f1) as [f2| |]; cbn [bind]; try reflexivity.
  destruct (draw (sample_gamma ir) f2) as [y f3].
  rewrite bind_ret. reflexivity.
Qed.

Lemma weibull_row :
  forall (ei ei' ir ir' : gamma_object) (i off : nat) (f : frame),
  (f <- draw_gamma [ei; ei'] 0 i off f ;;
   f <- draw_gamma [ei; ei'] 1 i (off + 1) f ;;
   f <- draw_gamma [ir; ir'] 0 i (off + 2) f ;;
   draw_gamma [ir; ir'] 1 i (off + 3) f)
  = fill [ei; ei'; ir; ir'] i off f.
Proof.
  intros ei ei' ir ir' i off f. unfold draw_gamma. cbn [vget nth_error bind fill].
  replace (off + 1) with (S off) by lia.
  replace (off + 2) with (S (S off)) by lia.
  replace (off + 3) with (S (S (S off))) by lia.
  destruct (draw (sample_gamma ei) f) as [x f1].
  destruct (write i off x f1) as [f2| |]; cbn [bind]; try reflexivity.
  destruct (draw (sample_gamma ei') f2) as [x' f3].
  destruct (write i (S off) x' f3) as [f4| |]; cbn [bind]; try reflexivity.
  destruct (draw (sample_gamma ir) f4) as [y f5].
  destruct (write i (S (S off)) y f5) as [f6| |]; cbn [bind]; try reflexivity.
  destruct (draw (sample_gamma ir') f6) as [y' f7].
  rewrite bind_ret. reflexivity.
Qed.

Lemma draw_transitions_exponential :
  forall (ei ir : gamma_object) (n off : nat) (f : frame),
  n <= rows (outParams f) -> off + 2 <= cols (outParams f) ->
  exists f', draw_transitions "exponential" n off [ei] [ir] f = Done f' /\
             rows_filled [ei; ir] off n f f'.
Proof.
  intros ei ir n off f Hn Hoff. unfold draw_transitions. cbn [String.eqb Ascii.eqb Bool.eqb].
  rewrite (for_loop_ext frame _ (fun i f => fill [ei; ir] i off f))
    by (intros; apply exponential_row).
  apply fill_rows; [exact Hn | exact Hoff].
Qed.

Lemma draw_transitions_weibull :
  forall (ei ei' ir ir' : gamma_object) (n off : nat) (f : frame),
  n <= rows (outParams f) -> off + 4 <= cols (outParams f) ->
  exists f', draw_transitions "weibull" n off [ei; ei'] [ir; ir'] f = Done f' /\
             rows_filled [ei; ei'; ir; ir'] off n f f'.
Proof.
  intros ei ei' ir ir' n off f Hn Hoff. unfold draw_transitions.
  cbn [String.eqb Ascii.eqb Bool.eqb].
  rewrite (for_loop_ext frame _ (fun i f => fill [ei; ei'; ir; ir'] i off f))
    by (intros; apply weibull_row).
  apply fill_rows; [exact Hn | exact Hoff].
Qed.

Lemma gamma_setup_exponential : forall tp : transitionPriors.t D,
  2 <= rows (transitionPriors.E_to_I_params tp) ->
  1 <= cols (transitionPriors.E_to_I_params tp) ->
  2 <= rows (transitionPriors.I_to_R_params tp) ->
  1 <= cols (transitionPriors.I_to_R_params tp) ->
  gamma_setup tp "exponential"
  = Done ([(coeff (transitionPriors.E_to_I_params tp) 0 0,
            div d1 (coeff (transitionPriors.E_to_I_params tp) 1 0))],
          [(coeff (transitionPriors.I_to_R_params tp) 0 0,
            div d1 (coeff (transitionPriors.I_to_R_params tp) 1 0))]).
Proof.
  intros tp H1 H2 H3 H4. unfold gamma_setup. cbn [String.eqb Ascii.eqb Bool.eqb].
  cbv zeta. rewrite !mget_Done by lia. reflexivity.
Qed.

Lemma gamma_setup_weibull : forall tp : transitionPriors.t D,
  4 <= rows (transitionPriors.E_to_I_params tp) ->
  1 <= cols (transitionPriors.E_to_I_params tp) ->
  4 <= rows (transitionPriors.I_to_R_params tp) ->
  1 <= cols (transitionPriors.I_to_R_params tp) ->
  gamma_setup tp "weibull"
  = Done ([(coeff (transitionPriors.E_to_I_params tp) 0 0,
            div d1 (coeff (transitionPriors.E_to_I_params tp) 1 0));
           (coeff (transitionPriors.E_to_I_params tp) 2 0,
            div d1 (coeff (transitionPriors.E_to_I_params tp) 3 0))],
          [(coeff (transitionPriors.I_to_R_params tp) 0 0,
            div d1 (coeff (transitionPriors.I_to_R_params tp) 1 0));
           (coeff (transitionPriors.I_to_R_params tp) 2 0,
            div d1 (coeff (transitionPriors.I_to_R_params tp) 3 0))]).
Proof.
  intros tp H1 H2 H3 H4. unfold gamma_setup. cbn [String.eqb Ascii.eqb Bool.eqb].
  cbv zeta. rewrite !mget_Done by lia. reflexivity.
Qed.

(** The sampler does not look at the two transition-distribution objects. *)
Lemma generateParamsPrior_body_ignores_dists :
  forall (this : spatialSEIRModel) (ei ir : option (weibullTransitionDistribution D))
         (nParticles : Z) (out : list string),
  generateParamsPrior_body (set_IR_transition_dist ir (set_EI_transition_dist ei this))
    nParticles out
  = generateParamsPrior_body this nParticles out.
Proof. intros this ei ir nParticles out. destruct this. reflexivity. Qed.

Lemma evalPrior_locals_of_generate :
  forall (this : spatialSEIRModel) (hr hs : bool) (tm : string) (sz : sizes),
  generateParamsPrior_locals this = Done (hr, hs, tm, sz) ->
  evalPrior_locals this = Done (hr, hs, tm, (nBeta sz, nBetaRS sz, nRho sz)) /\
  tm = transitionPriors.mode (transitionPriorsInstance this).
Proof.
  intros this hr hs tm sz Hgen. unfold generateParamsPrior_locals in Hgen.
  unfold evalPrior_locals.
  destruct (vget (reinfectionModel.betaPriorPrecision (reinfectionModelInstance this)) 0)
    as [prec0| |]; try discriminate Hgen.
  cbn [bind] in *.
  destruct (vget (distanceModel.tdm_list (distanceModelInstance this)) 0)
    as [lag0| |]; try discriminate Hgen.
  cbn [bind] in *. injection Hgen as Ehr Ehs Etm Esz.
  rewrite <- Esz, Ehr, Ehs, Etm. split; reflexivity.
Qed.

(** ** What the sampler reads of the reinfection priors *)

(** When the reinfection block of at least one row has been drawn, the
    reinfection priors were read at the column indices [nBeta] to
    [nBeta + nBetaRS - 1]: they hold at least [nBeta + nBetaRS] entries. *)
Lemma draw_betaRS_reads_shifted :
  forall (n nb nrs : nat) (rm : reinfectionModel.t D) (f f' : frame),
  draw_betaRS true n nb nrs rm f = Done f' ->
  0 < n -> 0 < nrs ->
  nb + nrs <= length (reinfectionModel.betaPriorMean rm) /\
  nb + nrs <= length (reinfectionModel.betaPriorPrecision rm).
Proof.
  intros n nb nrs rm f f' Hrun Hn Hnrs. unfold draw_betaRS in Hrun.
  destruct n as [|n]; [lia |]. cbn [for_loop] in Hrun.
  apply bind_Done in Hrun. destruct Hrun as [f1 [Hrow _]].
  apply (for_loop_preserves frame
           (fun k _ => k = nb \/
                       (k <= length (reinfectionModel.betaPriorMean rm) /\
                        k <= length (reinfectionModel.betaPriorPrecision rm)))) in Hrow.
  - destruct Hrow as [E|E]; [lia | exact E].
  - left. reflexivity.
  - intros k t t' Hk _ Hbody. right. unfold draw_normal in Hbody.
    destruct (vget_cases D (reinfectionModel.betaPriorMean rm) k) as [[x [Ex Hlt]]|[Ex _]];
      rewrite Ex in Hbody; [| discriminate Hbody].
    cbn [bind] in Hbody. destruct (draw standardNormal t) as [z t1].
    destruct (vget_cases D (reinfectionModel.betaPriorPrecision rm) k)
      as [[y [Ey Hlt']]|[Ey _]]; rewrite Ey in Hbody; [| discriminate Hbody].
    lia.
Qed.

(** ** What generateParamsPrior hands back *)

(** Whatever the configuration, a call never hands back a matrix. *)
Lemma generateParamsPrior_never_returns_matrix :
  forall (nParticles : Z) (out : list string) (this : spatialSEIRModel)
         (m : Matrix D) (l : list string),
  fst (generateParamsPrior nParticles out this) <> Done (Some m, l).
Proof.
  intros nParticles out this m l. unfold generateParamsPrior, mbind, get, lift, assign, mret.
  destruct (generateParamsPrior_body this nParticles out); simpl; discriminate.
Qed.

(** * Further properties of the code *)

(** ** The constructor: what a successful construction leaves *)

Lemma validate_Done_or_Stop : forall this : spatialSEIRModel,
  dataModel.nTpt (dataModelInstance this) <> 0%Z ->
  ~ dimension_mismatch (dataModelInstance this) (exposureModelInstance this)
      (reinfectionModelInstance this) (distanceModelInstance this)
      (transitionPriorsInstance this) (initialValueContainerInstance this) ->
  validate this = Done tt.
Proof.
  intros this Hn Hok. destruct (validate_outcome this Hn) as [Hnf Hiff].
  destruct (validate this) as [[]|msg|].
  - reflexivity.
  - exfalso. apply Hok. apply Hiff. exists msg. reflexivity.
  - contradiction.
Qed.

(** What [setParameters] will read on the object a returning constructor
    leaves: the components are the arguments, [transitionMode] is the
    empty string, and the two flags are what the storage held. *)
Lemma new_object_unassigned :
  forall (storage : spatialSEIRModel)
         (dm : dataModel.t) (em : exposureModel.t D) (rm : reinfectionModel.t D)
         (dist : distanceModel.t D) (tp : transitionPriors.t D)
         (iv : initialValueContainer.t) (sc : samplingControl.t D)
         (this : spatialSEIRModel),
  spatialSEIRModel_new storage dm em rm dist tp iv sc = Done this ->
  dataModelInstance this = dm /\ exposureModelInstance this = em /\
  reinfectionModelInstance this = rm /\ distanceModelInstance this = dist /\
  transitionPriorsInstance this = tp /\
  transitionMode this = ""%string /\
  hasReinfection this = hasReinfection storage /\
  hasSpatial this = hasSpatial storage.
Proof.
  intros storage dm em rm dist tp iv sc this Hnew.
  unfold spatialSEIRModel_new in Hnew.
  destruct (ctor_run dm em rm dist tp iv sc (fresh storage)) as [Hbad Hgood].
  assert (Hty : ~ type_mismatch dm em rm dist tp iv sc).
  { intro Hty. rewrite (Hbad Hty) in Hnew. discriminate Hnew. }
  rewrite (Hgood Hty) in Hnew.
  destruct (validate (set_components dm em rm dist tp iv sc (fresh storage)))
    as [u|msg|]; try discriminate Hnew.
  unfold build, mbind, lift, assign, get in Hnew. cbv zeta in Hnew.
  destruct storage. cbn [fresh set_components] in Hnew.
  destruct (String.eqb (transitionPriors.mode tp) "weibull").
  - destruct (col (transitionPriors.E_to_I_params tp) 0) as [ei| |];
      try discriminate Hnew.
    cbn [set_EI_transition_dist] in Hnew.
    destruct (col (transitionPriors.I_to_R_params tp) 0) as [ir| |];
      try discriminate Hnew.
    destruct (Zero d0 (samplingControl.batch_size sc) (samplingControl.m sc));
      try discriminate Hnew.
    cbn -[int_add] in Hnew. injection Hnew as Hthis. subst this.
    repeat split; reflexivity.
  - destruct (Zero d0 (samplingControl.batch_size sc) (samplingControl.m sc));
      try discriminate Hnew.
    cbn -[int_add] in Hnew. injection Hnew as Hthis. subst this.
    repeat split; reflexivity.
Qed.

(** On such an object [setParameters] counts no transition block, whatever
    the mode of the configuration. *)
Lemma setParameters_locals_after_new :
  forall (storage : spatialSEIRModel)
         (dm : dataModel.t) (em : exposureModel.t D) (rm : reinfectionModel.t D)
         (dist : distanceModel.t D) (tp : transitionPriors.t D)
         (iv : initialValueContainer.t) (sc : samplingControl.t D)
         (this : spatialSEIRModel) (sz : sizes),
  spatialSEIRModel_new storage dm em rm dist tp iv sc = Done this ->
  setParameters_locals this = Done sz ->
  nBeta sz = cols (exposureModel.X em) /\
  nBetaRS sz <= cols (reinfectionModel.X_rs rm) /\
  (exists lag0, vget (distanceModel.tdm_list dist) 0 = Done lag0 /\
                nRho sz <= length (distanceModel.dm_list dist) + length lag0) /\
  nTrans sz = 0 /\
  nParams sz = nBeta sz + nBetaRS sz + nRho sz.
Proof.
  intros storage dm em rm dist tp iv sc this sz Hnew Hsz.
  destruct (new_object_unassigned storage dm em rm dist tp iv sc this Hnew)
    as [_ [Eem [Erm [Edist [_ [Etm _]]]]]].
  unfold setParameters_locals in Hsz. rewrite Eem, Erm, Edist, Etm in Hsz.
  destruct (vget (distanceModel.tdm_list dist) 0) as [lag0| |] eqn:Elag;
    try discriminate Hsz.
  cbn [bind] in Hsz. injection Hsz as Hsz. subst sz. cbn [nBeta nBetaRS nRho nTrans nParams].
  rewrite !mul_b2n.
  split; [reflexivity |].
  split; [destruct (hasReinfection this); lia |].
  split; [exists lag0; split; [reflexivity | destruct (hasSpatial this); lia] |].
  split; [reflexivity |]. cbn [nTrans_of String.eqb]. lia.
Qed.

(** The object a returning constructor leaves: the seven handles are the
    arguments; the object is marked uninitialised; the generator is seeded
    from the [int] sum [random_seed + 1]; [results_complete] is empty and
    [results_double] is a [batch_size] by [m] matrix of zeros; the worker
    pool is built with the core count as an [unsigned int], the [int] sum
    [random_seed + ncalls] as seed and the width [m]; the two transition
    distributions hold column 0 of the hyperparameter matrices in weibull
    mode and four ones in any other mode. No line assigns the other
    members: those of class type are as default-constructed
    ([param_matrix] 0 by 0, [result_idx] empty, [transitionMode] the empty
    string), those of built-in type ([ncalls], [N], [hasReinfection],
    [hasSpatial]) are what the storage held. *)
Theorem construction_sets_members :
  forall (storage : spatialSEIRModel)
         (dm : dataModel.t) (em : exposureModel.t D) (rm : reinfectionModel.t D)
         (dist : distanceModel.t D) (tp : transitionPriors.t D)
         (iv : initialValueContainer.t) (sc : samplingControl.t D)
         (this : spatialSEIRModel),
  spatialSEIRModel_new storage dm em rm dist tp iv sc = Done this ->
  (dataModelInstance this = dm /\ exposureModelInstance this = em /\
   reinfectionModelInstance this = rm /\ distanceModelInstance this = dist /\
   transitionPriorsInstance this = tp /\ initialValueContainerInstance this = iv /\
   samplingControlInstance this = sc) /\
  is_initialized this = false /\
  generator this = mt19937_seeded (int_add (samplingControl.random_seed sc) 1) /\
  results_complete this = [] /\
  (rows (results_double this) = Z.to_nat (samplingControl.batch_size sc) /\
   cols (results_double this) = Z.to_nat (samplingControl.m sc) /\
   forall i j, coeff (results_double this) i j = d0) /\
  worker_pool this
  = Some (mkNodePool (samplingControl.CPU_cores sc mod 2 ^ 32)
            (int_add (samplingControl.random_seed sc) (ncalls storage))
            (samplingControl.m sc)) /\
  (if String.eqb (transitionPriors.mode tp) "weibull"
   then exists ei ir,
          col (transitionPriors.E_to_I_params tp) 0 = Done ei /\
          col (transitionPriors.I_to_R_params tp) 0 = Done ir /\
          EI_transition_dist this = Some (mkWeibull ei) /\
          IR_transition_dist this = Some (mkWeibull ir)
   else EI_transition_dist this = Some (mkWeibull [d1; d1; d1; d1]) /\
        IR_transition_dist this = Some (mkWeibull [d1; d1; d1; d1])) /\
  (param_matrix this = empty_matrix d0 /\ result_idx this = [] /\
   transitionMode this = ""%string) /\
  (ncalls this = ncalls storage /\ N this = N storage /\
   hasReinfection this = hasReinfection storage /\
   hasSpatial this = hasSpatial storage).
Proof.
  intros storage dm em rm dist tp iv sc this Hnew.
  unfold spatialSEIRModel_new in Hnew.
  destruct (ctor_run dm em rm dist tp iv sc (fresh storage)) as [Hbad Hgood].
  assert (Hty : ~ type_mismatch dm em rm dist tp iv sc).
  { intro Hty. rewrite (Hbad Hty) in Hnew. discriminate Hnew. }
  rewrite (Hgood Hty) in Hnew.
  destruct (validate (set_components dm em rm dist tp iv sc (fresh storage)))
    as [u|msg|]; try discriminate Hnew.
  unfold build, mbind, lift, assign, get in Hnew. cbv zeta in Hnew.
  destruct storage. cbn [fresh set_components] in Hnew.
  destruct (String.eqb (transitionPriors.mode tp) "weibull").
  - destruct (col (transitionPriors.E_to_I_params tp) 0) as [ei| |];
      try discriminate Hnew.
    cbn [set_EI_transition_dist] in Hnew.
    destruct (col (transitionPriors.I_to_R_params tp) 0) as [ir| |];
      try discriminate Hnew.
    unfold Zero in Hnew.
    destruct ((0 <=? samplingControl.batch_size sc)%Z && (0 <=? samplingControl.m sc)%Z);
      try discriminate Hnew.
    cbn -[int_add] in Hnew. injection Hnew as Hthis. subst this. cbn -[int_add].
    repeat split; try reflexivity.
    exists ei, ir. repeat split; reflexivity.
  - unfold Zero in Hnew.
    destruct ((0 <=? samplingControl.batch_size sc)%Z && (0 <=? samplingControl.m sc)%Z);
      try discriminate Hnew.
    cbn -[int_add] in Hnew. injection Hnew as Hthis. subst this. cbn -[int_add].
    repeat split; reflexivity.
Qed.

(** A valid configuration is built: with a time-point count that is not
    zero, no listed failure condition, hyperparameter matrices with at
    least one column when the mode is weibull, and a batch size and summary
    width that are not negative, [new] returns an object. *)
Theorem construction_succeeds_on_valid_configuration :
  forall (storage : spatialSEIRModel)
         (dm : dataModel.t) (em : exposureModel.t D) (rm : reinfectionModel.t D)
         (dist : distanceModel.t D) (tp : transitionPriors.t D)
         (iv : initialValueContainer.t) (sc : samplingControl.t D),
  dataModel.nTpt dm <> 0%Z ->
  ~ invalid_configuration dm em rm dist tp iv sc ->
  (transitionPriors.mode tp = "weibull"%string ->
   0 < cols (transitionPriors.E_to_I_params tp) /\
   0 < cols (transitionPriors.I_to_R_params tp)) ->
  (0 <= samplingControl.batch_size sc)%Z -> (0 <= samplingControl.m sc)%Z ->
  exists this, spatialSEIRModel_new storage dm em rm dist tp iv sc = Done this.
Proof.
  intros storage dm em rm dist tp iv sc Hn Hvalid Hcols Hb Hm.
  unfold invalid_configuration in Hvalid.
  destruct (ctor_run dm em rm dist tp iv sc (fresh storage)) as [_ Hgood].
  destruct (set_components_spec dm em rm dist tp iv sc (fresh storage))
    as [Cdm [Cem [Crm [Cdist [Ctp [Civ _]]]]]].
  unfold spatialSEIRModel_new. rewrite Hgood by tauto.
  rewrite validate_Done_or_Stop;
    [| rewrite Cdm; exact Hn | rewrite Cdm, Cem, Crm, Cdist, Ctp, Civ; tauto].
  unfold build, mbind, lift, assign, get. cbv zeta.
  assert (HZ : ((0 <=? samplingControl.batch_size sc)%Z
                && (0 <=? samplingControl.m sc)%Z) = true).
  { apply andb_true_intro. split; apply Z.leb_le; assumption. }
  destruct (String.eqb_spec (transitionPriors.mode tp) "weibull") as [E|E].
  - destruct (Hcols E) as [H1 H2]. unfold col.
    apply Nat.ltb_lt in H1. apply Nat.ltb_lt in H2. rewrite H1. cbn [fst snd].
    rewrite H2. unfold Zero. rewrite HZ. eexists. reflexivity.
  - unfold Zero. rewrite HZ. eexists. reflexivity.
Qed.

(** ** The constructor: which error is reported *)

(** The checks run in a fixed order and the first that fails decides the
    message. A handle passed out of order is reported before any dimension
    is compared, with the storage untouched. Otherwise the handles are
    stored, and the first disagreement among the location counts of data
    and exposure model, their time-point counts, and the location counts of
    data and distance model is reported with the two counts in the message;
    after these comes the count of lagged-matrix lists. *)
Theorem construction_reports_first_failure :
  forall (storage : spatialSEIRModel)
         (dm : dataModel.t) (em : exposureModel.t D) (rm : reinfectionModel.t D)
         (dist : distanceModel.t D) (tp : transitionPriors.t D)
         (iv : initialValueContainer.t) (sc : samplingControl.t D),
  (type_mismatch dm em rm dist tp iv sc ->
   ctor dm em rm dist tp iv sc (fresh storage)
   = (Stop ("Error: model components were not provided in the correct order. " ++ nl),
      fresh storage)) /\
  (~ type_mismatch dm em rm dist tp iv sc ->
   (dataModel.nLoc dm <> exposureModel.nLoc em ->
    ctor dm em rm dist tp iv sc (fresh storage)
    = (Stop ("Exposure model and data model imply different number of locations: "
             ++ to_string (dataModel.nLoc dm) ++ ", "
             ++ to_string (exposureModel.nLoc em) ++ "." ++ nl),
       set_components dm em rm dist tp iv sc (fresh storage))) /\
   (dataModel.nLoc dm = exposureModel.nLoc em ->
    dataModel.nTpt dm <> exposureModel.nTpt em ->
    ctor dm em rm dist tp iv sc (fresh storage)
    = (Stop ("Exposure model and data model imply different number of time points:"
             ++ to_string (dataModel.nTpt dm) ++ ", "
             ++ to_string (exposureModel.nTpt em) ++ "." ++ nl),
       set_components dm em rm dist tp iv sc (fresh storage))) /\
   (dataModel.nLoc dm = exposureModel.nLoc em ->
    dataModel.nTpt dm = exposureModel.nTpt em ->
    dataModel.nLoc dm <> distanceModel.numLocations dist ->
    ctor dm em rm dist tp iv sc (fresh storage)
    = (Stop ("Data model and distance model imply different number of locations:"
             ++ to_string (dataModel.nLoc dm) ++ ", "
             ++ to_string (distanceModel.numLocations dist) ++ "." ++ nl),
       set_components dm em rm dist tp iv sc (fresh storage))) /\
   (dataModel.nLoc dm = exposureModel.nLoc em ->
    dataModel.nTpt dm = exposureModel.nTpt em ->
    dataModel.nLoc dm = distanceModel.numLocations dist ->
    Z.of_nat (length (distanceModel.tdm_list dist)) <> dataModel.nTpt dm ->
    ctor dm em rm dist tp iv sc (fresh storage)
    = (Stop ("TDistance model and data model imply a different number of time points."
             ++ nl),
       set_components dm em rm dist tp iv sc (fresh storage)))).
Proof.
  intros storage dm em rm dist tp iv sc.
  destruct (ctor_run dm em rm dist tp iv sc (fresh storage)) as [Hbad Hgood].
  destruct (set_components_spec dm em rm dist tp iv sc (fresh storage))
    as [Cdm [Cem [Crm [Cdist [Ctp [Civ _]]]]]].
  split; [exact Hbad |].
  intro Hty. rewrite (Hgood Hty). unfold validate. cbv zeta.
  rewrite Cdm, Cem, Cdist.
  split.
  { intro H1. apply Z.eqb_neq in H1. rewrite H1. reflexivity. }
  split.
  { intros H1 H2. apply Z.eqb_eq in H1. apply Z.eqb_neq in H2.
    rewrite H1, H2. reflexivity. }
  split.
  { intros H1 H2 H3. apply Z.eqb_eq in H1. apply Z.eqb_eq in H2. apply Z.eqb_neq in H3.
    rewrite H1, H2, H3. reflexivity. }
  intros H1 H2 H3 H4. apply Z.eqb_eq in H1. apply Z.eqb_eq in H2. apply Z.eqb_eq in H3.
  apply Z.eqb_neq in H4. rewrite H1, H2, H3, H4. reflexivity.
Qed.

(** ** samplingControl: what construction yields, and which error it reports *)

Ltac block_of_12 ints nums E9 E3 :=
  do 10 (destruct ints as [|? ints]; try discriminate E9);
  do 4 (destruct nums as [|? nums]; try discriminate E3).

(** A constructed [samplingControl] holds the block, position by position:
    the nine integers in the order simulation_width, random_seed,
    CPU_cores, algorithm, batch_size, epochs, max_batches,
    multivariatePerturbation (true exactly when the integer is not 0), m,
    and the three numerics accept_fraction, shrinkage, target_eps. Its
    algorithm is one of the three codes and its max_batches is positive. *)
Theorem samplingControl_new_fields :
  forall (ALG_BasicABC ALG_ModifiedBeaumont2009 ALG_DelMoral2012 prot0 : Z)
         (integerParameters : list Z) (numericParameters : list D)
         (sc : samplingControl.t D),
  samplingControl.new ALG_BasicABC ALG_ModifiedBeaumont2009 ALG_DelMoral2012 prot0
    integerParameters numericParameters = Done sc ->
  (length integerParameters = 9 /\ length numericParameters = 3) /\
  (nth_error integerParameters 0 = Some (samplingControl.simulation_width sc) /\
   nth_error integerParameters 1 = Some (samplingControl.random_seed sc) /\
   nth_error integerParameters 2 = Some (samplingControl.CPU_cores sc) /\
   nth_error integerParameters 3 = Some (samplingControl.algorithm sc) /\
   nth_error integerParameters 4 = Some (samplingControl.batch_size sc) /\
   nth_error integerParameters 5 = Some (samplingControl.epochs sc) /\
   nth_error integerParameters 6 = Some (samplingControl.max_batches sc) /\
   samplingControl.multivariatePerturbation sc
     = negb (nth 7 integerParameters 0 =? 0)%Z /\
   nth_error integerParameters 8 = Some (samplingControl.m sc)) /\
  numericParameters
    = [samplingControl.accept_fraction sc; samplingControl.shrinkage sc;
       samplingControl.target_eps sc] /\
  samplingControl.prot sc = prot0 /\
  (samplingControl.algorithm sc = ALG_BasicABC \/
   samplingControl.algorithm sc = ALG_ModifiedBeaumont2009 \/
   samplingControl.algorithm sc = ALG_DelMoral2012) /\
  (0 < samplingControl.max_batches sc)%Z.
Proof.
  intros A1 A2 A3 prot0 ints nums sc Hnew. unfold samplingControl.new in Hnew.
  destruct (length ints =? 9) eqn:E9; [| simpl in Hnew; discriminate Hnew].
  destruct (length nums =? 3) eqn:E3; [| simpl in Hnew; discriminate Hnew].
  apply Nat.eqb_eq in E9. apply Nat.eqb_eq in E3.
  block_of_12 ints nums E9 E3.
  cbn [negb orb vget nth_error bind] in Hnew.
  destruct (Z.eqb_spec z2 A1) as [B1|B1]; destruct (Z.eqb_spec z2 A2) as [B2|B2];
    destruct (Z.eqb_spec z2 A3) as [B3|B3]; cbn [negb andb] in Hnew;
    try discriminate Hnew;
    (destruct (Z.leb_spec z5 0) as [B4|B4]; [discriminate Hnew |]);
    injection Hnew as Hsc; subst sc; cbn;
    repeat split; try reflexivity; try assumption; tauto.
Qed.

(** Which error construction reports: a block of the wrong lengths is
    reported whatever it contains; with the right lengths an algorithm code
    that is none of the three is reported whatever [max_batches] is; the
    error on [max_batches] is reported only for a valid algorithm code. *)
Theorem samplingControl_new_reports_first_failure :
  forall (ALG_BasicABC ALG_ModifiedBeaumont2009 ALG_DelMoral2012 prot0 : Z)
         (integerParameters : list Z) (numericParameters : list D),
  (length integerParameters <> 9 \/ length numericParameters <> 3 ->
   samplingControl.new ALG_BasicABC ALG_ModifiedBeaumont2009 ALG_DelMoral2012 prot0
     integerParameters numericParameters
   = Stop "Exactly 12 samplingControl parameters are required.") /\
  (length integerParameters = 9 -> length numericParameters = 3 ->
   (nth 3 integerParameters 0%Z <> ALG_BasicABC /\
    nth 3 integerParameters 0%Z <> ALG_ModifiedBeaumont2009 /\
    nth 3 integerParameters 0%Z <> ALG_DelMoral2012 ->
    samplingControl.new ALG_BasicABC ALG_ModifiedBeaumont2009 ALG_DelMoral2012 prot0
      integerParameters numericParameters
    = Stop "Algorithm specification must be of length 1 and equal to 1 or 2 or 3.") /\
   (nth 3 integerParameters 0%Z = ALG_BasicABC \/
    nth 3 integerParameters 0%Z = ALG_ModifiedBeaumont2009 \/
    nth 3 integerParameters 0%Z = ALG_DelMoral2012 ->
    (nth 6 integerParameters 0 <= 0)%Z ->
    samplingControl.new ALG_BasicABC ALG_ModifiedBeaumont2009 ALG_DelMoral2012 prot0
      integerParameters numericParameters
    = Stop "max_batches must be greater than zero.")).
Proof.
  intros A1 A2 A3 prot0 ints nums. unfold samplingControl.new. split.
  - intros [H|H]; apply Nat.eqb_neq in H; rewrite H; cbn [negb orb];
      [reflexivity | rewrite orb_true_r; reflexivity].
  - intros E9 E3. pose proof E9 as E9'. pose proof E3 as E3'.
    apply Nat.eqb_eq in E9'. apply Nat.eqb_eq in E3'. rewrite E9', E3'.
    block_of_12 ints nums E9 E3.
    cbn [negb orb vget nth_error bind nth]. split.
    + intros [H1 [H2 H3]].
      apply Z.eqb_neq in H1. apply Z.eqb_neq in H2. apply Z.eqb_neq in H3.
      rewrite H1, H2, H3. reflexivity.
    + intros Halg Hmax.
      assert (Hb : (negb (z2 =? A1)%Z && negb (z2 =? A2)%Z && negb (z2 =? A3)%Z) = false).
      { destruct (Z.eqb_spec z2 A1); destruct (Z.eqb_spec z2 A2);
          destruct (Z.eqb_spec z2 A3); cbn; try reflexivity. tauto. }
      rewrite Hb. apply Z.leb_le in Hmax. rewrite Hmax. reflexivity.
Qed.

(** ** evalPrior: what it does not look at *)

Lemma for_loop_Done_mono :
  forall (S : Type) (body body' : nat -> S -> outcome S),
  (forall k s s', body k s = Done s' -> body' k s = Done s') ->
  forall (n lo : nat) (s s' : S),
  for_loop n lo body s = Done s' -> for_loop n lo body' s = Done s'.
Proof.
  intros S body body' Hmono n. induction n as [|n IH]; intros lo s s' H; [exact H |].
  simpl in H |- *. apply bind_Done in H. destruct H as [t [Hb Hl]].
  rewrite (Hmono _ _ _ Hb). simpl. apply IH. exact Hl.
Qed.

Lemma vget_app : forall (A : Type) (v extra : list A) (i : nat) (x : A),
  vget v i = Done x -> vget (v ++ extra) i = Done x.
Proof.
  intros A v extra i x H. destruct (vget_cases A v i) as [[y [Hy Hi]]|[Hf _]].
  - unfold vget in *. rewrite nth_error_app1 by exact Hi. exact H.
  - rewrite Hf in H. discriminate H.
Qed.

Lemma segment_app : forall (A : Type) (v extra : list A) (lo n : nat) (seg : list A),
  segment v lo n = Done seg -> segment (v ++ extra) lo n = Done seg.
Proof.
  intros A v extra lo n seg H. unfold segment in *.
  destruct (Nat.leb_spec (lo + n) (length v)) as [L|L]; [| discriminate H].
  assert (L' : lo + n <= length (v ++ extra)) by (rewrite length_app; lia).
  apply Nat.leb_le in L'. rewrite L'. rewrite <- H. f_equal.
  rewrite skipn_app. replace (lo - length v) with 0 by lia. cbn [skipn].
  rewrite firstn_app. rewrite length_skipn.
  replace (n - (length v - lo)) with 0 by lia. cbn [firstn]. apply app_nil_r.
Qed.

Lemma evalPrior_normal_app :
  forall (n : nat) (mean precision v extra : list D) (s s' : D * nat),
  evalPrior_normal n mean precision v s = Done s' ->
  evalPrior_normal n mean precision (v ++ extra) s = Done s'.
Proof.
  intros n mean precision v extra s s'. unfold evalPrior_normal.
  apply for_loop_Done_mono. intros k [o p] t Hb.
  apply bind_Done in Hb. destruct Hb as [x [Hx Hb]].
  rewrite (vget_app _ _ _ _ _ Hx). exact Hb.
Qed.

Lemma evalPrior_rho_app :
  forall (nRho : nat) (spatial_prior v extra : list D) (s s' : D * nat * D),
  evalPrior_rho nRho spatial_prior v s = Done s' ->
  evalPrior_rho nRho spatial_prior (v ++ extra) s = Done s'.
Proof.
  intros nRho spatial_prior v extra s s' H. unfold evalPrior_rho in *.
  destruct (0 <? nRho); [| exact H].
  apply bind_Done in H. destruct H as [t [Hl Hk]].
  match goal with
  | |- context [for_loop nRho 0 ?body' s] =>
      assert (Hl' : for_loop nRho 0 body' s = Done t)
  end.
  { revert Hl. apply for_loop_Done_mono. intros k [[o p] c] u Hb.
    apply bind_Done in Hb. destruct Hb as [x [Hx Hb]].
    rewrite (vget_app _ _ _ _ _ Hx). exact Hb. }
  rewrite Hl'. exact Hk.
Qed.

Lemma evalPrior_transition_app :
  forall (this : spatialSEIRModel) (tm : string) (v extra : list D) (o : D) (p : nat) (r : D),
  evalPrior_transition this tm v o p = Done r ->
  evalPrior_transition this tm (v ++ extra) o p = Done r.
Proof.
  intros this tm v extra o p r H. unfold evalPrior_transition in *.
  destruct (String.eqb tm "exponential").
  - apply bind_Done in H. destruct H as [x [Hx H]].
    rewrite (vget_app _ _ _ _ _ Hx). cbn [bind].
    apply bind_Done in H. destruct H as [a [Ha H]]. rewrite Ha. cbn [bind].
    apply bind_Done in H. destruct H as [b [Hb H]]. rewrite Hb. cbn [bind].
    cbv zeta in H |- *.
    apply bind_Done in H. destruct H as [y [Hy H]].
    rewrite (vget_app _ _ _ _ _ Hy). exact H.
  - destruct (String.eqb tm "weibull"); [| exact H].
    apply bind_Done in H. destruct H as [ei [Hei H]]. rewrite Hei. cbn [bind].
    apply bind_Done in H. destruct H as [seg [Hseg H]].
    rewrite (segment_app _ _ _ _ _ _ Hseg). cbn [bind]. cbv zeta in H |- *.
    apply bind_Done in H. destruct H as [ir [Hir H]]. rewrite Hir. cbn [bind].
    apply bind_Done in H. destruct H as [seg' [Hseg' H]].
    rewrite (segment_app _ _ _ _ _ _ Hseg'). exact H.
Qed.

(** [evalPrior] does not check the length of the vector against the layout:
    whenever it returns a density on a vector, it returns the same density
    on every extension of that vector; entries beyond the layout are never
    read. *)
Theorem evalPrior_ignores_trailing_entries :
  forall (this : spatialSEIRModel) (v extra : list D) (r : D),
  evalPrior this v = Done r ->
  evalPrior this (v ++ extra) = Done r.
Proof.
  intros this v extra r H. unfold evalPrior in *. cbv zeta in *.
  destruct (evalPrior_locals this) as [[[[hr hs] tm] [[nb nrs] nrho]]| |];
    try discriminate H.
  cbn [bind] in *.
  apply bind_Done in H. destruct H as [[o1 p1] [H1 H]].
  rewrite (evalPrior_normal_app _ _ _ _ extra _ _ H1). cbn [bind].
  apply bind_Done in H. destruct H as [[o2 p2] [H2 H]].
  assert (H2' :
    (if 0 <? nrs
     then evalPrior_normal nrs
            (reinfectionModel.betaPriorMean (reinfectionModelInstance this))
            (reinfectionModel.betaPriorPrecision (reinfectionModelInstance this))
            (v ++ extra) (o1, p1)
     else Done (o1, p1)) = Done (o2, p2)).
  { destruct (0 <? nrs); [apply evalPrior_normal_app |]; exact H2. }
  rewrite H2'. cbn [bind].
  apply bind_Done in H. destruct H as [[[o3 p3] c3] [H3 H]].
  rewrite (evalPrior_rho_app _ _ _ extra _ _ H3). cbn [bind].
  apply evalPrior_transition_app. exact H.
Qed.

(** The density of a vector depends on the components and on the two
    transition distributions only: no call of [setParameters],
    [run_simulation] or [generateParamsPrior] changes what [evalPrior]
    returns, whether that call returns, stops or fails. *)
Theorem evalPrior_unaffected_by_other_calls :
  forall (this : spatialSEIRModel) (v : list D),
  (forall params, evalPrior (snd (setParameters params this)) v = evalPrior this v) /\
  (forall params, evalPrior (snd (run_simulation params this)) v = evalPrior this v) /\
  (forall nParticles out,
     evalPrior (snd (generateParamsPrior nParticles out this)) v = evalPrior this v).
Proof.
  intros this v. split; [| split].
  - intro params. unfold setParameters, mbind, get, lift, Rcpp_stop, assign.
    destruct (setParameters_locals this) as [sz| |]; try reflexivity.
    destruct (negb (cols params =? nParams sz)); [reflexivity |].
    destruct this; reflexivity.
  - intro params. reflexivity.
  - intros nParticles out. unfold generateParamsPrior, mbind, get, lift, assign, mret.
    destruct (generateParamsPrior_body this nParticles out) as [f| |]; try reflexivity.
    destruct this; reflexivity.
Qed.

(** ** setParameters: successive calls *)

Lemma setParameters_locals_kept : forall (params : Matrix D) (this : spatialSEIRModel),
  setParameters_locals (set_is_initialized true (set_param_matrix params this))
  = setParameters_locals this.
Proof. intros params this. destruct this; reflexivity. Qed.

(** [setParameters] has no memory of earlier calls: the count it checks
    against is the same before and after a call; after an accepted matrix
    [p], an accepted matrix [q] leaves the object exactly as a single call
    with [q] would, and a rejected one stops and leaves [p] stored and the
    object initialised. *)
Theorem setParameters_last_accepted_wins :
  forall (this : spatialSEIRModel) (sz : sizes) (p q : Matrix D),
  setParameters_locals this = Done sz ->
  cols p = nParams sz ->
  let this1 := snd (setParameters p this) in
  setParameters_locals this1 = Done sz /\
  (cols q = nParams sz ->
   fst (setParameters q this1) = Done tt /\
   snd (setParameters q this1) = snd (setParameters q this) /\
   param_matrix (snd (setParameters q this1)) = q) /\
  (cols q <> nParams sz ->
   setParameters q this1
   = (Stop ("Number of supplied parameters does not match model specification." ++ nl),
      this1) /\
   param_matrix this1 = p /\ is_initialized this1 = true).
Proof.
  intros this sz p q Hloc Hp this1.
  assert (E1 : this1 = set_is_initialized true (set_param_matrix p this)).
  { unfold this1. rewrite (setParameters_unfold p this sz Hloc).
    apply Nat.eqb_eq in Hp. rewrite Hp. reflexivity. }
  assert (Hloc1 : setParameters_locals this1 = Done sz).
  { rewrite E1, setParameters_locals_kept. exact Hloc. }
  split; [exact Hloc1 |]. split.
  - intro Hq. apply Nat.eqb_eq in Hq.
    rewrite (setParameters_unfold q this1 sz Hloc1),
            (setParameters_unfold q this sz Hloc), Hq.
    cbn [negb fst snd]. rewrite E1.
    split; [reflexivity |]. split; destruct this; reflexivity.
  - intro Hq. apply Nat.eqb_neq in Hq.
    rewrite (setParameters_unfold q this1 sz Hloc1), Hq. cbn [negb].
    split; [reflexivity |]. rewrite E1. split; destruct this; reflexivity.
Qed.

(** ** Sampling: the two regression blocks *)

Lemma normal_row_spec :
  forall (mean precision : list D) (i m lo : nat) (f : frame),
  i < rows (outParams f) -> lo + m <= cols (outParams f) ->
  lo + m <= length mean -> lo + m <= length precision ->
  exists f', for_loop m lo (draw_normal mean precision i) f = Done f' /\
             normal_row_written mean precision i lo m (gen f) f f'.
Proof.
  intros mean precision i m. induction m as [|m IH]; intros lo f Hi Hc Hm Hp.
  - exists f. split; [reflexivity |]. unfold normal_row_written. cbn [normals fst snd].
    repeat split; try reflexivity.
    intros r c.
    destruct (Nat.leb_spec lo c); destruct (Nat.ltb_spec c (lo + 0));
      rewrite ?andb_false_r; cbn [andb]; try reflexivity; lia.
  - cbn [for_loop normals]. unfold draw_normal at 1.
    rewrite (vget_Done D mean lo d0) by lia. cbn [bind]. unfold draw.
    destruct (standardNormal (gen f)) as [z g1] eqn:Ez.
    rewrite (vget_Done D precision lo d0) by lia. cbn [bind].
    rewrite write_Done by (simpl; lia). cbn [bind].
    match goal with
    | |- context [for_loop m (S lo) _ ?f1] =>
        destruct (IH (S lo) f1) as [f' [Hrun Hw]];
          [simpl; lia | simpl; lia | lia | lia |]
    end.
    exists f'. split; [exact Hrun |]. cbn [gen] in Hw.
    destruct Hw as [Hr [Hcl [Ho [Hg Hcoeff]]]]. cbn [outParams Rcout rows cols coeff] in *.
    destruct (normals m g1) as [zs g2] eqn:Ezs. cbn [fst snd] in *.
    unfold normal_row_written. cbn [normals]. rewrite Ez, Ezs. cbn [fst snd].
    repeat split; try assumption.
    intros r c. rewrite Hcoeff. unfold normal_value.
    destruct (Nat.eqb_spec r i) as [Eri|Eri]; cbn [andb]; [| reflexivity].
    destruct (Nat.leb_spec (S lo) c) as [L1|L1];
      destruct (Nat.ltb_spec c (S lo + m)) as [L2|L2];
      destruct (Nat.leb_spec lo c) as [L3|L3];
      destruct (Nat.ltb_spec c (lo + S m)) as [L4|L4];
      destruct (Nat.eqb_spec c lo) as [L5|L5];
      cbn [andb]; try lia; try reflexivity.
    + replace (c - lo) with (S (c - S lo)) by lia. reflexivity.
    + subst c. rewrite Nat.sub_diag. reflexivity.
Qed.

Lemma normal_rows_spec :
  forall (mean precision : list D) (lo m n : nat) (f : frame),
  n <= rows (outParams f) -> lo + m <= cols (outParams f) ->
  lo + m <= length mean -> lo + m <= length precision ->
  exists f',
    for_loop n 0 (fun i f => for_loop m lo (draw_normal mean precision i) f) f = Done f' /\
    normal_rows_filled mean precision lo m n f f'.
Proof.
  intros mean precision lo m n f Hn Hc Hm Hp.
  destruct (for_loop_invariant frame
              (fun k s => normal_rows_filled mean precision lo m k f s)
              (fun i f => for_loop m lo (draw_normal mean precision i) f) n 0 f)
    as [f' [Hrun Hf']].
  - unfold normal_rows_filled. cbn [normal_row_gen]. repeat split; reflexivity.
  - intros k t Hk [R [C [O [G Hcf]]]].
    destruct (normal_row_spec mean precision k m lo t)
      as [t' [Hrun [R' [C' [O' [G' Hcf']]]]]]; [lia | lia | lia | lia |].
    exists t'. split; [exact Hrun |].
    unfold normal_rows_filled. cbn [normal_row_gen]. rewrite <- G.
    repeat split; try congruence.
    intros r c. rewrite Hcf', Hcf, G.
    destruct (Nat.eqb_spec r k) as [E|E]; destruct (Nat.ltb_spec r k) as [L|L];
      destruct (Nat.ltb_spec r (S k)) as [L'|L']; try lia; cbn [andb]; try reflexivity.
    subst r. destruct ((lo <=? c) && (c <? lo + m)); reflexivity.
  - exists f'. split; [exact Hrun | exact Hf'].
Qed.

(** What a block of normal draws needs, read off a run that returned. *)
Lemma normal_row_in_range :
  forall (mean precision : list D) (i m lo : nat) (f f' : frame),
  for_loop m lo (draw_normal mean precision i) f = Done f' ->
  rows (outParams f') = rows (outParams f) /\
  cols (outParams f') = cols (outParams f) /\
  (0 < m ->
   i < rows (outParams f) /\ lo + m <= cols (outParams f) /\
   lo + m <= length mean /\ lo + m <= length precision).
Proof.
  intros mean precision i m lo f f' Hrun.
  apply (for_loop_preserves frame
           (fun k s =>
              rows (outParams s) = rows (outParams f) /\
              cols (outParams s) = cols (outParams f) /\
              (lo < k ->
               i < rows (outParams f) /\ k <= cols (outParams f) /\
               k <= length mean /\ k <= length precision))
           (draw_normal mean precision i) m lo f f') in Hrun.
  - destruct Hrun as [R [C H]]. split; [exact R |]. split; [exact C |].
    intro Hm. apply H. lia.
  - split; [reflexivity |]. split; [reflexivity |]. intro H. lia.
  - intros k t t' Hk [R [C H]] Hb. unfold draw_normal in Hb.
    destruct (vget_cases D mean k) as [[mu [Emu Lmu]]|[Emu _]];
      rewrite Emu in Hb; [| discriminate Hb].
    cbn [bind] in Hb. unfold draw in Hb.
    destruct (standardNormal (gen t)) as [z g1].
    destruct (vget_cases D precision k) as [[pr [Epr Lpr]]|[Epr _]];
      rewrite Epr in Hb; [| discriminate Hb].
    cbn [bind] in Hb. pose proof (write_in_range _ _ _ _ _ Hb) as [Wi Wj].
    cbn [outParams] in Wi, Wj.
    rewrite write_Done in Hb by (simpl; assumption).
    inversion Hb; subst t'. cbn [outParams rows cols].
    split; [exact R |]. split; [exact C |]. intros _. lia.
Qed.

Lemma normal_rows_in_range :
  forall (mean precision : list D) (lo m n : nat) (f f' : frame),
  for_loop n 0 (fun i f => for_loop m lo (draw_normal mean precision i) f) f = Done f' ->
  0 < n -> 0 < m ->
  n <= rows (outParams f) /\ lo + m <= cols (outParams f) /\
  lo + m <= length mean /\ lo + m <= length precision.
Proof.
  intros mean precision lo m n f f' Hrun Hn Hm.
  apply (for_loop_preserves frame
           (fun k s =>
              rows (outParams s) = rows (outParams f) /\
              cols (outParams s) = cols (outParams f) /\
              (0 < k ->
               k <= rows (outParams f) /\ lo + m <= cols (outParams f) /\
               lo + m <= length mean /\ lo + m <= length precision))
           _ n 0 f f') in Hrun.
  - destruct Hrun as [_ [_ H]]. apply H. lia.
  - split; [reflexivity |]. split; [reflexivity |]. intro H. lia.
  - intros k t t' Hk [R [C _]] Hb.
    destruct (normal_row_in_range _ _ _ _ _ _ _ Hb) as [R' [C' H]].
    split; [congruence |]. split; [congruence |]. intros _.
    destruct (H Hm) as [H1 [H2 [H3 H4]]]. rewrite R in H1. rewrite C in H2.
    repeat split; assumption.
Qed.

(** The beta block, lines 253-262. With at least one row and one column to
    draw, the loops return exactly when the rows and columns are inside the
    matrix and the exposure priors hold [nBeta] entries; then row [i] holds,
    in column [j] below [nBeta], [betaPriorMean(j)] plus the
    ([i] * [nBeta] + [j])-th standard normal draw over
    [betaPriorPrecision(j)], and nothing else changed. *)
Theorem beta_block_sampled :
  forall (n nb : nat) (em : exposureModel.t D) (f : frame),
  0 < n -> 0 < nb ->
  ((n <= rows (outParams f) /\ nb <= cols (outParams f) /\
    nb <= length (exposureModel.betaPriorMean em) /\
    nb <= length (exposureModel.betaPriorPrecision em))
   <-> exists f', draw_beta n nb em f = Done f') /\
  (forall f', draw_beta n nb em f = Done f' ->
              normal_rows_filled (exposureModel.betaPriorMean em)
                (exposureModel.betaPriorPrecision em) 0 nb n f f').
Proof.
  intros n nb em f Hn Hnb.
  assert (Hspec :
    n <= rows (outParams f) /\ nb <= cols (outParams f) /\
    nb <= length (exposureModel.betaPriorMean em) /\
    nb <= length (exposureModel.betaPriorPrecision em) ->
    exists f', draw_beta n nb em f = Done f' /\
               normal_rows_filled (exposureModel.betaPriorMean em)
                 (exposureModel.betaPriorPrecision em) 0 nb n f f').
  { intros [H1 [H2 [H3 H4]]]. apply normal_rows_spec; simpl; assumption. }
  assert (Hneed : forall f', draw_beta n nb em f = Done f' ->
    n <= rows (outParams f) /\ nb <= cols (outParams f) /\
    nb <= length (exposureModel.betaPriorMean em) /\
    nb <= length (exposureModel.betaPriorPrecision em)).
  { intros f' Hrun.
    exact (normal_rows_in_range _ _ 0 nb n f f' Hrun Hn Hnb). }
  split; [split |].
  - intro H. destruct (Hspec H) as [f' [Hrun _]]. exists f'. exact Hrun.
  - intros [f' Hrun]. exact (Hneed f' Hrun).
  - intros f' Hrun. destruct (Hspec (Hneed f' Hrun)) as [f'' [Hrun' Hfilled]].
    rewrite Hrun in Hrun'. inversion Hrun'; subst f''. exact Hfilled.
Qed.

(** The reinfection block, lines 286-299, as the code runs it. Without
    reinfection nothing is drawn. With it, and at least one row and one
    column to draw, the loops return exactly when the rows and the columns
    [nBeta] to [nBeta + nBetaRS - 1] are inside the matrix and the
    reinfection priors hold [nBeta + nBetaRS] entries; then row [i] holds,
    in such a column [j], the reinfection [betaPriorMean(j)] plus a standard
    normal draw over [betaPriorPrecision(j)], with [j] the column index, and
    nothing else changed. *)
Theorem reinfection_block_sampled :
  forall (n nb nrs : nat) (rm : reinfectionModel.t D) (f : frame),
  draw_betaRS false n nb nrs rm f = Done f /\
  (0 < n -> 0 < nrs ->
   ((n <= rows (outParams f) /\ nb + nrs <= cols (outParams f) /\
     nb + nrs <= length (reinfectionModel.betaPriorMean rm) /\
     nb + nrs <= length (reinfectionModel.betaPriorPrecision rm))
    <-> exists f', draw_betaRS true n nb nrs rm f = Done f') /\
   (forall f', draw_betaRS true n nb nrs rm f = Done f' ->
               normal_rows_filled (reinfectionModel.betaPriorMean rm)
                 (reinfectionModel.betaPriorPrecision rm) nb nrs n f f')).
Proof.
  intros n nb nrs rm f. split; [reflexivity |]. intros Hn Hnrs.
  assert (Hspec :
    n <= rows (outParams f) /\ nb + nrs <= cols (outParams f) /\
    nb + nrs <= length (reinfectionModel.betaPriorMean rm) /\
    nb + nrs <= length (reinfectionModel.betaPriorPrecision rm) ->
    exists f', draw_betaRS true n nb nrs rm f = Done f' /\
               normal_rows_filled (reinfectionModel.betaPriorMean rm)
                 (reinfectionModel.betaPriorPrecision rm) nb nrs n f f').
  { intros [H1 [H2 [H3 H4]]]. apply normal_rows_spec; assumption. }
  assert (Hneed : forall f', draw_betaRS true n nb nrs rm f = Done f' ->
    n <= rows (outParams f) /\ nb + nrs <= cols (outParams f) /\
    nb + nrs <= length (reinfectionModel.betaPriorMean rm) /\
    nb + nrs <= length (reinfectionModel.betaPriorPrecision rm)).
  { intros f' Hrun.
    exact (normal_rows_in_range _ _ nb nrs n f f' Hrun Hn Hnrs). }
  split; [split |].
  - intro H. destruct (Hspec H) as [f' [Hrun _]]. exists f'. exact Hrun.
  - intros [f' Hrun]. exact (Hneed f' Hrun).
  - intros f' Hrun. destruct (Hspec (Hneed f' Hrun)) as [f'' [Hrun' Hfilled]].
    rewrite Hrun in Hrun'. inversion Hrun'; subst f''. exact Hfilled.
Qed.

(** ** Sampling: the rho block in the finished matrix *)

Lemma map_nth_seq_all : forall (l : list D),
  map (fun j => nth j l d0) (seq 0 (length l)) = l.
Proof.
  induction l as [|x l IH]; [reflexivity |].
  cbn [length seq map nth]. f_equal.
  rewrite <- seq_shift, map_map. exact IH.
Qed.

Lemma rho_rows_frame : forall (rhoDist : gamma_object) (lo nRho n : nat) (f f' : frame),
  rho_rows rhoDist lo nRho n f f' ->
  forall r c, n <= r \/ c < lo \/ lo + nRho <= c ->
              coeff (outParams f') r c = coeff (outParams f) r c.
Proof.
  intros rhoDist lo nRho n f f' H. induction H as [f|n k f f1 f2 H IH Hk Hrow].
  - reflexivity.
  - intros r c Hrc. destruct Hrow as [_ [_ [_ [_ [Hcf _]]]]]. rewrite Hcf.
    destruct (Nat.eqb_spec r n) as [E|E];
      destruct (Nat.leb_spec lo c) as [L1|L1];
      destruct (Nat.ltb_spec c (lo + nRho)) as [L2|L2];
      cbn [andb]; try (apply IH; lia); lia.
Qed.

Lemma rho_row_block : forall (rhoDist : gamma_object) (lo nRho i k : nat) (f f' : frame),
  rho_row_outcome rhoDist lo nRho i k f f' ->
  block_sum (outParams f') i lo nRho = attempt_sum rhoDist nRho k (gen f) /\
  forall r, r <> i -> block_values (outParams f') r lo nRho
                      = block_values (outParams f) r lo nRho.
Proof.
  intros rhoDist lo nRho i k f f' [_ [_ [_ [_ [Hcf _]]]]]. split.
  - unfold block_sum, attempt_sum. f_equal. unfold block_values.
    rewrite <- (map_nth_seq_all (attempt_values rhoDist nRho k (gen f))) at 1.
    rewrite attempt_values_length. apply map_ext_in. intros j Hj.
    apply in_seq in Hj. rewrite Hcf, Nat.eqb_refl.
    destruct (Nat.leb_spec lo (lo + j)) as [L1|L1]; [| lia].
    destruct (Nat.ltb_spec (lo + j) (lo + nRho)) as [L2|L2]; [| lia].
    cbn [andb]. f_equal. lia.
  - intros r Hr. unfold block_values. apply map_ext. intro j. rewrite Hcf.
    apply Nat.eqb_neq in Hr. rewrite Hr. reflexivity.
Qed.

Lemma rho_rows_diagnostics :
  forall (rhoDist : gamma_object) (lo nRho n : nat) (f f' : frame),
  rho_rows rhoDist lo nRho n f f' ->
  Rcout f'
  = Rcout f ++ repeat ("Error, valid rho value not obtained" ++ nl)%string
                 (rows_above_one (outParams f') lo nRho n).
Proof.
  intros rhoDist lo nRho n f f' H. induction H as [f|n k f f1 f2 H IH Hk Hrow].
  - unfold rows_above_one. cbn [seq filter length repeat]. symmetry. apply app_nil_r.
  - destruct (rho_row_block _ _ _ _ _ _ _ Hrow) as [Hsum Hother].
    unfold rows_above_one in *. rewrite seq_S, filter_app, length_app. cbn [Nat.add].
    rewrite (filter_ext_in
               (fun r => gtb (block_sum (outParams f2) r lo nRho) d1)
               (fun r => gtb (block_sum (outParams f1) r lo nRho) d1)).
    2:{ intros r Hr. apply in_seq in Hr. unfold block_sum.
        rewrite (Hother r) by lia. reflexivity. }
    rewrite repeat_app, app_assoc, <- IH. cbn [filter]. rewrite Hsum.
    destruct Hrow as [_ [_ [_ [_ [_ [[Hle Hout]|[_ [Hgt Hout]]]]]]]].
    + rewrite Hle. cbn [length repeat]. rewrite app_nil_r. exact Hout.
    + rewrite Hgt. cbn [length repeat]. exact Hout.
Qed.

(** The rho phase, lines 300-322, seen from the matrix it leaves. With
    2.0 > 1.0 and the first [n] rows and the rho columns inside the matrix,
    the phase returns; it changes no cell outside the rho columns of the
    first [n] rows, keeps the dimensions, and prints the diagnostic once
    for each of these rows whose rho block, as it stands in the finished
    matrix, sums to more than 1, and nothing else. *)
Theorem rho_phase_leaves_matrix :
  gtb d2 d1 = true ->
  forall (rhoDist : gamma_object) (n lo nRho : nat) (f : frame),
  n <= rows (outParams f) -> lo + nRho <= cols (outParams f) ->
  exists f',
    draw_rho true rhoDist n lo nRho f = Done f' /\
    rows (outParams f') = rows (outParams f) /\
    cols (outParams f') = cols (outParams f) /\
    (forall r c, n <= r \/ c < lo \/ lo + nRho <= c ->
                 coeff (outParams f') r c = coeff (outParams f) r c) /\
    Rcout f'
    = Rcout f ++ repeat ("Error, valid rho value not obtained" ++ nl)%string
                   (rows_above_one (outParams f') lo nRho n).
Proof.
  intros H21 rhoDist n lo nRho f Hn Hc.
  destruct (draw_rho_spec H21 rhoDist n lo nRho f Hn Hc) as [f' [Hrun Hrows]].
  exists f'. split; [exact Hrun |].
  destruct (rho_rows_dims _ _ _ _ _ _ Hrows) as [R C].
  split; [exact R |]. split; [exact C |].
  split; [exact (rho_rows_frame _ _ _ _ _ _ Hrows) |].
  exact (rho_rows_diagnostics _ _ _ _ _ _ Hrows).
Qed.

(** ** The sampler as a whole *)

Lemma generateParamsPrior_locals_sizes :
  forall (this : spatialSEIRModel) (hr hs : bool) (tm : string) (sz : sizes),
  generateParamsPrior_locals this = Done (hr, hs, tm, sz) ->
  nParams sz = nBeta sz + nBetaRS sz + nRho sz + nTrans_of tm /\
  (hr = false -> nBetaRS sz = 0) /\ (hs = false -> nRho sz = 0).
Proof.
  intros this hr hs tm sz Hloc. unfold generateParamsPrior_locals in Hloc.
  destruct (vget (reinfectionModel.betaPriorPrecision (reinfectionModelInstance this)) 0)
    as [prec0| |]; try discriminate Hloc.
  cbn [bind] in Hloc.
  destruct (vget (distanceModel.tdm_list (distanceModelInstance this)) 0)
    as [lag0| |]; try discriminate Hloc.
  cbn [bind] in Hloc. injection Hloc as Ehr Ehs Etm Esz.
  rewrite <- Esz. cbn [nParams nBeta nBetaRS nRho]. rewrite Etm, Ehr, Ehs.
  split; [reflexivity |].
  split; intro E; rewrite E; simpl; lia.
Qed.

Lemma row_gen_nil : forall (n : nat) (g : rng), row_gen [] n g = g.
Proof. induction n as [|n IH]; intro g; [reflexivity |]. simpl. apply IH. Qed.

Lemma rows_filled_frame : forall (ds : list gamma_object) (off n : nat) (f f' : frame),
  rows_filled ds off n f f' ->
  forall r c, n <= r \/ c < off \/ off + length ds <= c ->
              coeff (outParams f') r c = coeff (outParams f) r c.
Proof.
  intros ds off n f f' [_ [_ [_ [_ Hcf]]]] r c Hrc. rewrite Hcf.
  destruct (Nat.ltb_spec r n); destruct (Nat.leb_spec off c);
    destruct (Nat.ltb_spec c (off + length ds)); cbn [andb]; try reflexivity; lia.
Qed.

Lemma normal_rows_filled_frame :
  forall (mean precision : list D) (lo m n : nat) (f f' : frame),
  normal_rows_filled mean precision lo m n f f' ->
  forall r c, n <= r \/ c < lo \/ lo + m <= c ->
              coeff (outParams f') r c = coeff (outParams f) r c.
Proof.
  intros mean precision lo m n f f' [_ [_ [_ [_ Hcf]]]] r c Hrc. rewrite Hcf.
  destruct (Nat.ltb_spec r n); destruct (Nat.leb_spec lo c);
    destruct (Nat.ltb_spec c (lo + m)); cbn [andb]; try reflexivity; lia.
Qed.

Lemma transition_samplers_length : forall (tp : transitionPriors.t D) (tm : string),
  length (transition_samplers tp tm) = nTrans_of tm.
Proof.
  intros tp tm. unfold transition_samplers, nTrans_of.
  destruct (String.eqb tm "exponential"); [reflexivity |].
  destruct (String.eqb tm "weibull"); reflexivity.
Qed.

(** The transition phase in any mode: set-up and loops. *)
Lemma transition_phase :
  forall (tp : transitionPriors.t D) (tm : string) (n off : nat) (f : frame),
  hyperparameters_ok tp tm ->
  n <= rows (outParams f) -> off + nTrans_of tm <= cols (outParams f) ->
  exists eis irs f',
    gamma_setup tp tm = Done (eis, irs) /\
    draw_transitions tm n off eis irs f = Done f' /\
    rows_filled (transition_samplers tp tm) off n f f'.
Proof.
  intros tp tm n off f [Hexp Hwei] Hn Hoff.
  destruct (String.eqb_spec tm "exponential") as [E1|E1].
  - subst tm. destruct (Hexp eq_refl) as [H1 [H2 [H3 H4]]].
    destruct (draw_transitions_exponential
                (coeff (transitionPriors.E_to_I_params tp) 0 0,
                 div d1 (coeff (transitionPriors.E_to_I_params tp) 1 0))
                (coeff (transitionPriors.I_to_R_params tp) 0 0,
                 div d1 (coeff (transitionPriors.I_to_R_params tp) 1 0))
                n off f Hn Hoff) as [f' [Hrun Hfilled]].
    eexists. eexists. exists f'.
    split; [apply gamma_setup_exponential; assumption |].
    split; [exact Hrun | exact Hfilled].
  - destruct (String.eqb_spec tm "weibull") as [E2|E2].
    + subst tm. destruct (Hwei eq_refl) as [H1 [H2 [H3 H4]]].
      destruct (draw_transitions_weibull
                  (coeff (transitionPriors.E_to_I_params tp) 0 0,
                   div d1 (coeff (transitionPriors.E_to_I_params tp) 1 0))
                  (coeff (transitionPriors.E_to_I_params tp) 2 0,
                   div d1 (coeff (transitionPriors.E_to_I_params tp) 3 0))
                  (coeff (transitionPriors.I_to_R_params tp) 0 0,
                   div d1 (coeff (transitionPriors.I_to_R_params tp) 1 0))
                  (coeff (transitionPriors.I_to_R_params tp) 2 0,
                   div d1 (coeff (transitionPriors.I_to_R_params tp) 3 0))
                  n off f Hn Hoff) as [f' [Hrun Hfilled]].
      eexists. eexists. exists f'.
      split; [apply gamma_setup_weibull; assumption |].
      split; [exact Hrun | exact Hfilled].
    + apply String.eqb_neq in E1. apply String.eqb_neq in E2.
      exists [], [], f. unfold gamma_setup, draw_transitions, transition_samplers.
      rewrite E1, E2. split; [reflexivity |]. split; [reflexivity |].
      unfold rows_filled. rewrite row_gen_nil. repeat split; try reflexivity.
      intros r c. cbn [length]. rewrite Nat.add_0_r.
      destruct (Nat.ltb_spec r n); destruct (Nat.leb_spec off c);
        destruct (Nat.ltb_spec c off); cbn [andb]; try reflexivity; lia.
Qed.

Lemma reinfection_phase :
  forall (hr : bool) (n nb nrs : nat) (rm : reinfectionModel.t D) (f : frame),
  (hr = true ->
   nb + nrs <= length (reinfectionModel.betaPriorMean rm) /\
   nb + nrs <= length (reinfectionModel.betaPriorPrecision rm)) ->
  n <= rows (outParams f) -> nb + nrs <= cols (outParams f) ->
  exists f',
    draw_betaRS hr n nb nrs rm f = Done f' /\
    (if hr
     then normal_rows_filled (reinfectionModel.betaPriorMean rm)
            (reinfectionModel.betaPriorPrecision rm) nb nrs n f f'
     else f' = f) /\
    rows (outParams f') = rows (outParams f) /\
    cols (outParams f') = cols (outParams f) /\
    Rcout f' = Rcout f /\
    (forall r c, n <= r \/ c < nb \/ nb + nrs <= c ->
                 coeff (outParams f') r c = coeff (outParams f) r c).
Proof.
  intros hr n nb nrs rm f Hpri Hn Hc. destruct hr.
  - destruct (Hpri eq_refl) as [H1 H2].
    destruct (normal_rows_spec (reinfectionModel.betaPriorMean rm)
                (reinfectionModel.betaPriorPrecision rm) nb nrs n f Hn Hc H1 H2)
      as [f' [Hrun Hfilled]].
    exists f'. split; [exact Hrun |]. split; [exact Hfilled |].
    pose proof (normal_rows_filled_frame _ _ _ _ _ _ _ Hfilled) as Hframe.
    destruct Hfilled as [R [C [O _]]]. repeat split; assumption.
  - exists f. repeat split; reflexivity.
Qed.

Lemma rho_phase :
  gtb d2 d1 = true ->
  forall (hs : bool) (rhoDist : gamma_object) (n lo nRho : nat) (f : frame),
  n <= rows (outParams f) -> lo + nRho <= cols (outParams f) ->
  exists f',
    draw_rho hs rhoDist n lo nRho f = Done f' /\
    (if hs then rho_rows rhoDist lo nRho n f f' else f' = f) /\
    rows (outParams f') = rows (outParams f) /\
    cols (outParams f') = cols (outParams f) /\
    Rcout f'
    = Rcout f ++ repeat ("Error, valid rho value not obtained" ++ nl)%string
                   (if hs then rows_above_one (outParams f') lo nRho n else 0) /\
    (forall r c, n <= r \/ c < lo \/ lo + nRho <= c ->
                 coeff (outParams f') r c = coeff (outParams f) r c).
Proof.
  intros H21 hs rhoDist n lo nRho f Hn Hc. destruct hs.
  - destruct (draw_rho_spec H21 rhoDist n lo nRho f Hn Hc) as [f' [Hrun Hrows]].
    exists f'. split; [exact Hrun |]. split; [exact Hrows |].
    destruct (rho_rows_dims _ _ _ _ _ _ Hrows) as [R C].
    split; [exact R |]. split; [exact C |].
    split; [exact (rho_rows_diagnostics _ _ _ _ _ _ Hrows) |].
    exact (rho_rows_frame _ _ _ _ _ _ Hrows).
  - exists f. cbn [repeat]. rewrite app_nil_r. repeat split; reflexivity.
Qed.

(** The four phases run one after the other on the allocated matrix. *)
Lemma generateParamsPrior_body_run :
  gtb d2 d1 = true ->
  forall (this : spatialSEIRModel) (nParticles : Z) (out : list string)
         (hr hs : bool) (tm : string) (sz : sizes),
  generateParamsPrior_locals this = Done (hr, hs, tm, sz) ->
  sampler_inputs_ok this hr tm sz ->
  Z.to_nat nParticles <= N this ->
  exists f1 f2 f3 f_end,
    sampler_phases this hr hs tm sz (Z.to_nat nParticles)
      (allocated this sz out) f1 f2 f3 f_end /\
    generateParamsPrior_body this nParticles out = Done f_end.
Proof.
  intros H21 this nParticles out hr hs tm sz Hloc [Hsp [Hem [Hep [Hrm Hhyp]]]] HN.
  set (n := Z.to_nat nParticles) in *.
  set (off := nBeta sz + nBetaRS sz + nRho sz).
  destruct (generateParamsPrior_locals_sizes this hr hs tm sz Hloc) as [Hnp _].
  destruct (normal_rows_spec
              (exposureModel.betaPriorMean (exposureModelInstance this))
              (exposureModel.betaPriorPrecision (exposureModelInstance this))
              0 (nBeta sz) n (allocated this sz out))
    as [f1 [Hrun1 Hf1]];
    [exact HN | simpl; lia | exact Hem | exact Hep |].
  pose proof Hf1 as [R1 [C1 _]].
  cbn [allocated outParams rows cols] in R1, C1.
  destruct (transition_phase (transitionPriorsInstance this) tm n off f1 Hhyp)
    as [eis [irs [f2 [Hsetup [Hrun2 Hf2]]]]]; [lia | unfold off; lia |].
  pose proof Hf2 as [R2 [C2 _]].
  destruct (reinfection_phase hr n (nBeta sz) (nBetaRS sz)
              (reinfectionModelInstance this) f2 Hrm)
    as [f3 [Hrun3 [Hf3 [R3 [C3 _]]]]]; [lia | lia |].
  destruct (rho_phase H21 hs
              (nth 0 (distanceModel.spatial_prior (distanceModelInstance this)) d0,
               div d1 (nth 1 (distanceModel.spatial_prior (distanceModelInstance this)) d0))
              n (nBeta sz + nBetaRS sz) (nRho sz) f3)
    as [f4 [Hrun4 [Hf4 _]]]; [lia | lia |].
  exists f1, f2, f3, f4.
  split.
  { unfold sampler_phases. cbv zeta.
    split; [exact Hf1 |]. split; [exact Hf2 |]. split; [exact Hf3 | exact Hf4]. }
  unfold generateParamsPrior_body. rewrite Hloc. cbn [bind]. cbv zeta.
  rewrite (vget_Done D _ 0 d0) by lia. cbn [bind].
  rewrite (vget_Done D _ 1 d0) by lia. cbn [bind].
  rewrite Hsetup. cbn [bind].
  unfold draw_beta. unfold allocated in Hrun1. fold n. rewrite Hrun1. cbn [bind].
  fold off. rewrite Hrun2. cbn [bind]. rewrite Hrun3. cbn [bind]. exact Hrun4.
Qed.

(** What the phases leave outside their own block. *)
Lemma sampler_phases_frame :
  forall (this : spatialSEIRModel) (hr hs : bool) (tm : string) (sz : sizes) (n : nat)
         (f0 f1 f2 f3 f_end : frame),
  sampler_phases this hr hs tm sz n f0 f1 f2 f3 f_end ->
  rows (outParams f_end) = rows (outParams f0) /\
  cols (outParams f_end) = cols (outParams f0) /\
  (forall r c, n <= r -> coeff (outParams f_end) r c = coeff (outParams f0) r c) /\
  (forall r c, c < nBeta sz ->
               coeff (outParams f_end) r c = coeff (outParams f1) r c) /\
  (forall r c, nBeta sz + nBetaRS sz + nRho sz <= c ->
               coeff (outParams f_end) r c = coeff (outParams f2) r c) /\
  Rcout f_end
  = Rcout f0 ++ repeat ("Error, valid rho value not obtained" ++ nl)%string
                  (if hs
                   then rows_above_one (outParams f_end) (nBeta sz + nBetaRS sz) (nRho sz) n
                   else 0).
Proof.
  intros this hr hs tm sz n f0 f1 f2 f3 f4 [Hf1 [Hf2 [Hf3 Hf4]]].
  pose proof (normal_rows_filled_frame _ _ _ _ _ _ _ Hf1) as Fr1.
  pose proof Hf1 as [R1 [C1 [O1 _]]].
  pose proof (rows_filled_frame _ _ _ _ _ Hf2) as Fr2.
  pose proof Hf2 as [R2 [C2 [O2 _]]].
  assert (H3 :
    rows (outParams f3) = rows (outParams f2) /\
    cols (outParams f3) = cols (outParams f2) /\ Rcout f3 = Rcout f2 /\
    forall r c, n <= r \/ c < nBeta sz \/ nBeta sz + nBetaRS sz <= c ->
                coeff (outParams f3) r c = coeff (outParams f2) r c).
  { destruct hr.
    - pose proof (normal_rows_filled_frame _ _ _ _ _ _ _ Hf3) as Fr3.
      destruct Hf3 as [R3 [C3 [O3 _]]]. repeat split; assumption.
    - subst f3. repeat split; reflexivity. }
  destruct H3 as [R3 [C3 [O3 Fr3]]].
  assert (H4 :
    rows (outParams f4) = rows (outParams f3) /\
    cols (outParams f4) = cols (outParams f3) /\
    Rcout f4
    = Rcout f3 ++ repeat ("Error, valid rho value not obtained" ++ nl)%string
                    (if hs
                     then rows_above_one (outParams f4) (nBeta sz + nBetaRS sz) (nRho sz) n
                     else 0) /\
    forall r c, n <= r \/ c < nBeta sz + nBetaRS sz
                \/ nBeta sz + nBetaRS sz + nRho sz <= c ->
                coeff (outParams f4) r c = coeff (outParams f3) r c).
  { destruct hs.
    - destruct (rho_rows_dims _ _ _ _ _ _ Hf4) as [R4 C4].
      split; [exact R4 |]. split; [exact C4 |].
      split; [exact (rho_rows_diagnostics _ _ _ _ _ _ Hf4) |].
      exact (rho_rows_frame _ _ _ _ _ _ Hf4).
    - subst f4. cbn [repeat]. rewrite app_nil_r. repeat split; reflexivity. }
  destruct H4 as [R4 [C4 [O4 Fr4]]].
  split; [congruence |]. split; [congruence |].
  split.
  { intros r c Hr. rewrite Fr4, Fr3, Fr2, Fr1 by (left; exact Hr). reflexivity. }
  split.
  { intros r c Hc. rewrite Fr4, Fr3, Fr2 by lia. reflexivity. }
  split.
  { intros r c Hc. rewrite Fr4, Fr3 by lia. reflexivity. }
  rewrite O4, O3, O2, O1. reflexivity.
Qed.

(** [generateParamsPrior] end to end. With 2.0 > 1.0, the prior entries the
    function reads in place, and [nParticles] at most the row count [N] of
    the local matrix: the body returns. The beta block of the first
    [nParticles] rows is drawn first, then the transition block from the
    Gamma samplers of the mode, then with reinfection the reinfection
    block, then with more than one data column the rho block; each phase
    draws row after row on the one generator. The matrix is [N] by
    [nParams]; its rows from [nParticles] on are never written; the later
    phases leave the beta and the transition block as drawn; the text
    printed is one diagnostic per row whose rho block sums to more than 1.
    The call then stores the generator state and hands back no matrix. *)
Theorem generateParamsPrior_end_to_end :
  gtb d2 d1 = true ->
  forall (this : spatialSEIRModel) (nParticles : Z) (out : list string)
         (hr hs : bool) (tm : string) (sz : sizes),
  generateParamsPrior_locals this = Done (hr, hs, tm, sz) ->
  sampler_inputs_ok this hr tm sz ->
  Z.to_nat nParticles <= N this ->
  let n := Z.to_nat nParticles in
  exists f1 f2 f3 f_end,
    sampler_phases this hr hs tm sz n (allocated this sz out) f1 f2 f3 f_end /\
    generateParamsPrior_body this nParticles out = Done f_end /\
    generateParamsPrior nParticles out this
    = (Done (None, Rcout f_end), set_generator (gen f_end) this) /\
    rows (outParams f_end) = N this /\
    cols (outParams f_end) = nParams sz /\
    (forall r c, n <= r -> coeff (outParams f_end) r c = uninitialized r c) /\
    (forall r c, c < nBeta sz ->
                 coeff (outParams f_end) r c = coeff (outParams f1) r c) /\
    (forall r c, nBeta sz + nBetaRS sz + nRho sz <= c ->
                 coeff (outParams f_end) r c = coeff (outParams f2) r c) /\
    Rcout f_end
    = out ++ repeat ("Error, valid rho value not obtained" ++ nl)%string
               (if hs
                then rows_above_one (outParams f_end) (nBeta sz + nBetaRS sz) (nRho sz) n
                else 0).
Proof.
  intros H21 this nParticles out hr hs tm sz Hloc Hok HN n.
  destruct (generateParamsPrior_body_run H21 this nParticles out hr hs tm sz Hloc Hok HN)
    as [f1 [f2 [f3 [f4 [Hph Hbody]]]]].
  destruct (sampler_phases_frame _ _ _ _ _ _ _ _ _ _ _ Hph)
    as [R [C [Hrest [Hbeta [Htrans Hout]]]]].
  exists f1, f2, f3, f4.
  split; [exact Hph |]. split; [exact Hbody |].
  split.
  { unfold generateParamsPrior, mbind, get, lift, assign, mret. rewrite Hbody. reflexivity. }
  split; [exact R |]. split; [exact C |].
  split; [exact Hrest |]. split; [exact Hbeta |]. split; [exact Htrans |]. exact Hout.
Qed.

Lemma mget_in_range : forall (A : Type) (M : Matrix A) (i j : nat) (x : A),
  mget M i j = Done x -> i < rows M /\ j < cols M.
Proof.
  intros A M i j x H. unfold mget, in_range in H.
  destruct (Nat.ltb_spec i (rows M)); [| discriminate H].
  destruct (Nat.ltb_spec j (cols M)); [| discriminate H].
  split; assumption.
Qed.

Lemma gamma_setup_needs :
  forall (tp : transitionPriors.t D) (tm : string) (r : list gamma_object * list gamma_object),
  gamma_setup tp tm = Done r -> hyperparameters_ok tp tm.
Proof.
  intros tp tm r H. unfold gamma_setup in H. cbv zeta in H. split; intro E; subst tm.
  - cbn [String.eqb Ascii.eqb Bool.eqb] in H.
    apply bind_Done in H. destruct H as [a [_ H]].
    apply bind_Done in H. destruct H as [b [Hb H]].
    apply bind_Done in H. destruct H as [c [_ H]].
    apply bind_Done in H. destruct H as [d [Hd _]].
    apply mget_in_range in Hb. apply mget_in_range in Hd. lia.
  - cbn [String.eqb Ascii.eqb Bool.eqb] in H.
    apply bind_Done in H. destruct H as [a [_ H]].
    apply bind_Done in H. destruct H as [b [_ H]].
    apply bind_Done in H. destruct H as [a' [_ H]].
    apply bind_Done in H. destruct H as [b' [Hb H]].
    apply bind_Done in H. destruct H as [c [_ H]].
    apply bind_Done in H. destruct H as [d [_ H]].
    apply bind_Done in H. destruct H as [c' [_ H]].
    apply bind_Done in H. destruct H as [d' [Hd _]].
    apply mget_in_range in Hb. apply mget_in_range in Hd. lia.
Qed.

(** What a call of [generateParamsPrior] that reaches its closing brace has
    read. Both entries of [spatial_prior], whether or not there is a rho
    block; the hyperparameters of the mode; and, once a row is drawn, the
    exposure priors up to [nBeta], the reinfection priors up to
    [nBeta + nBetaRS] when reinfection is on, and rows of the local matrix
    up to [nParticles], which therefore is at most [N]. *)
Theorem generateParamsPrior_reads :
  forall (this : spatialSEIRModel) (nParticles : Z) (out : list string)
         (hr hs : bool) (tm : string) (sz : sizes) (f_end : frame),
  generateParamsPrior_locals this = Done (hr, hs, tm, sz) ->
  generateParamsPrior_body this nParticles out = Done f_end ->
  2 <= length (distanceModel.spatial_prior (distanceModelInstance this)) /\
  hyperparameters_ok (transitionPriorsInstance this) tm /\
  ((0 < nParticles)%Z -> 0 < nBeta sz ->
   Z.to_nat nParticles <= N this /\
   nBeta sz <= length (exposureModel.betaPriorMean (exposureModelInstance this)) /\
   nBeta sz <= length (exposureModel.betaPriorPrecision (exposureModelInstance this))) /\
  ((0 < nParticles)%Z -> hr = true -> 0 < nBetaRS sz ->
   nBeta sz + nBetaRS sz
   <= length (reinfectionModel.betaPriorMean (reinfectionModelInstance this)) /\
   nBeta sz + nBetaRS sz
   <= length (reinfectionModel.betaPriorPrecision (reinfectionModelInstance this))).
Proof.
  intros this nParticles out hr hs tm sz f_end Hloc Hrun.
  destruct (generateParamsPrior_body_phases this nParticles out hr hs tm sz f_end Hloc Hrun)
    as [sp0 [sp1 [eis [irs [f1 [f2 [f3 [H0 [H1 [Hg [Hb [Ht [Hr Hrho]]]]]]]]]]]]].
  split.
  { destruct (vget_cases D (distanceModel.spatial_prior (distanceModelInstance this)) 1)
      as [[x [_ L]]|[E _]]; [lia | rewrite E in H1; discriminate H1]. }
  split; [exact (gamma_setup_needs _ _ _ Hg) |].
  split.
  - intros Hn Hnb. unfold draw_beta in Hb.
    destruct (normal_rows_in_range _ _ 0 (nBeta sz) (Z.to_nat nParticles) _ _ Hb)
      as [A [_ [B C]]]; [lia | exact Hnb |].
    cbn [allocated outParams rows] in A. repeat split; assumption.
  - intros Hn Ehr Hnrs. subst hr. unfold draw_betaRS in Hr.
    destruct (normal_rows_in_range _ _ (nBeta sz) (nBetaRS sz) (Z.to_nat nParticles) _ _ Hr)
      as [_ [_ [B C]]]; [lia | exact Hnrs |].
    split; assumption.
Qed.

(** A particle count that is not positive: once the priors and
    hyperparameters are read, every loop is skipped; the call returns, no
    variate is drawn, nothing is printed, and the object is as before. *)
Theorem generateParamsPrior_without_particles :
  forall (this : spatialSEIRModel) (nParticles : Z) (out : list string)
         (hr hs : bool) (tm : string) (sz : sizes),
  generateParamsPrior_locals this = Done (hr, hs, tm, sz) ->
  2 <= length (distanceModel.spatial_prior (distanceModelInstance this)) ->
  hyperparameters_ok (transitionPriorsInstance this) tm ->
  (nParticles <= 0)%Z ->
  generateParamsPrior_body this nParticles out = Done (allocated this sz out) /\
  generateParamsPrior nParticles out this = (Done (None, out), this).
Proof.
  intros this nParticles out hr hs tm sz Hloc Hsp Hhyp Hn.
  assert (Hbody : generateParamsPrior_body this nParticles out
                  = Done (allocated this sz out)).
  { destruct (transition_phase (transitionPriorsInstance this) tm 0
                (nBeta sz + nBetaRS sz + nRho sz)
                (mkFrame (mkMatrix 0 (nBeta sz + nBetaRS sz + nRho sz + nTrans_of tm)
                            uninitialized) (generator this) out) Hhyp)
      as [eis [irs [f' [Hsetup _]]]]; [simpl; lia | simpl; lia |].
    unfold generateParamsPrior_body. rewrite Hloc. cbn [bind]. cbv zeta.
    rewrite (vget_Done D _ 0 d0) by lia. cbn [bind].
    rewrite (vget_Done D _ 1 d0) by lia. cbn [bind].
    rewrite Hsetup. cbn [bind].
    replace (Z.to_nat nParticles) with 0 by lia.
    unfold draw_beta, draw_transitions, draw_betaRS, draw_rho. cbn [for_loop bind].
    destruct (String.eqb tm "exponential"); cbn [bind];
      [| destruct (String.eqb tm "weibull"); cbn [bind]];
      destruct hr; destruct hs; reflexivity. }
  split; [exact Hbody |].
  unfold generateParamsPrior, mbind, get, lift, assign, mret. rewrite Hbody.
  cbn [allocated gen Rcout]. destruct this; reflexivity.
Qed.

(** ** The sampled rows do not depend on what the matrix held before *)

Lemma agree_normal_rows :
  forall (P : nat -> Prop) (mean precision : list D) (lo m n : nat) (a a' f f' : frame),
  agree P n a a' ->
  normal_rows_filled mean precision lo m n a f ->
  normal_rows_filled mean precision lo m n a' f' ->
  agree (fun c => P c \/ lo <= c < lo + m) n f f'.
Proof.
  intros P mean precision lo m n a a' f f' [G [O Hc]]
         [_ [_ [O1 [G1 C1]]]] [_ [_ [O2 [G2 C2]]]].
  split; [congruence |]. split; [congruence |].
  intros r c Hr Hp. rewrite C1, C2, G.
  destruct (Nat.ltb_spec r n); [| lia].
  destruct (Nat.leb_spec lo c); destruct (Nat.ltb_spec c (lo + m));
    cbn [andb]; try reflexivity; apply Hc; try assumption;
    destruct Hp as [Hp|Hp]; try assumption; lia.
Qed.

Lemma agree_rows_filled :
  forall (P : nat -> Prop) (ds : list gamma_object) (off n : nat) (a a' f f' : frame),
  agree P n a a' ->
  rows_filled ds off n a f ->
  rows_filled ds off n a' f' ->
  agree (fun c => P c \/ off <= c < off + length ds) n f f'.
Proof.
  intros P ds off n a a' f f' [G [O Hc]]
         [_ [_ [O1 [G1 C1]]]] [_ [_ [O2 [G2 C2]]]].
  split; [congruence |]. split; [congruence |].
  intros r c Hr Hp. rewrite C1, C2, G.
  destruct (Nat.ltb_spec r n); [| lia].
  destruct (Nat.leb_spec off c); destruct (Nat.ltb_spec c (off + length ds));
    cbn [andb]; try reflexivity; apply Hc; try assumption;
    destruct Hp as [Hp|Hp]; try assumption; lia.
Qed.

(** The attempt a row ends on is determined by the generator. *)
Lemma rho_row_attempt_unique :
  forall (rhoDist : gamma_object) (lo nRho i k k' : nat) (f f' g g' : frame),
  gen f = gen f' -> k < 100 -> k' < 100 ->
  rho_row_outcome rhoDist lo nRho i k f g ->
  rho_row_outcome rhoDist lo nRho i k' f' g' ->
  k = k'.
Proof.
  intros rhoDist lo nRho i k k' f f' g g' G Hk Hk'
         [A [_ [_ [_ [_ L]]]]] [A' [_ [_ [_ [_ L']]]]].
  rewrite <- G in A', L'.
  destruct (Nat.lt_trichotomy k k') as [Hlt|[E|Hlt]]; [| exact E |].
  - specialize (A' k Hlt). destruct L as [[L _]|[L _]]; [congruence | lia].
  - specialize (A k' Hlt). destruct L' as [[L' _]|[L' _]]; [congruence | lia].
Qed.

Lemma agree_rho_rows :
  forall (rhoDist : gamma_object) (lo nRho n : nat) (a f : frame),
  rho_rows rhoDist lo nRho n a f ->
  forall (P : nat -> Prop) (a' f' : frame),
  rho_rows rhoDist lo nRho n a' f' ->
  agree P n a a' ->
  agree (fun c => P c \/ lo <= c < lo + nRho) n f f'.
Proof.
  intros rhoDist lo nRho n a f H. induction H as [a|n k a f1 f2 H IH Hk Hrow].
  - intros P a' f' H' [G [O _]]. inversion H'; subst.
    split; [exact G |]. split; [exact O |]. intros r c Hr. lia.
  - intros P a' f' H' Hag. inversion H' as [|n0 k' a0 f1' f2' H1' Hk' Hrow']; subst.
    assert (Hag1 : agree (fun c => P c \/ lo <= c < lo + nRho) n f1 f1').
    { apply (IH P a' f1' H1'). destruct Hag as [G [O C]].
      split; [exact G |]. split; [exact O |]. intros r c Hr Hp. apply C; [lia | exact Hp]. }
    destruct Hag1 as [G1 [O1 C1]].
    assert (Ek : k = k') by exact (rho_row_attempt_unique _ _ _ _ _ _ _ _ _ _ G1 Hk Hk' Hrow Hrow').
    subst k'.
    destruct Hrow as [_ [_ [_ [G2 [Cf L]]]]]. destruct Hrow' as [_ [_ [_ [G2' [Cf' L']]]]].
    rewrite <- G1 in G2', Cf', L'.
    split; [congruence |]. split.
    + destruct L as [[L O]|[_ [L O]]]; destruct L' as [[L' O']|[_ [L' O']]];
        congruence.
    + intros r c Hr Hp. rewrite Cf, Cf'.
      destruct ((r =? n) && (lo <=? c) && (c <? lo + nRho)) eqn:E; [reflexivity |].
      destruct (Nat.eqb_spec r n) as [Ern|Ern].
      * subst r. cbn [andb] in E.
        destruct (Nat.leb_spec lo c); destruct (Nat.ltb_spec c (lo + nRho));
          cbn [andb] in E; try discriminate E;
          destruct Hag as [_ [_ C]]; (destruct Hp as [Hp|Hp]; [| lia]);
          rewrite (rho_rows_frame _ _ _ _ _ _ H), (rho_rows_frame _ _ _ _ _ _ H1')
            by lia;
          (apply C; [lia | exact Hp]).
      * apply C1; [lia | exact Hp].
Qed.

(** Two runs of the four phases on matrices of any contents, from the same
    generator and the same text: they end on the same generator and text,
    and the first [n] rows hold the same entries in every column of the
    layout. *)
Lemma sampled_rows_agree :
  forall (mean precision rmean rprecision : list D) (ds : list gamma_object)
         (rhoDist : gamma_object) (hr hs : bool) (nb nrs nrho n : nat)
         (a f1 f2 f3 fe a' f1' f2' f3' fe' : frame),
  gen a = gen a' -> Rcout a = Rcout a' ->
  (hr = false -> nrs = 0) -> (hs = false -> nrho = 0) ->
  normal_rows_filled mean precision 0 nb n a f1 ->
  normal_rows_filled mean precision 0 nb n a' f1' ->
  rows_filled ds (nb + nrs + nrho) n f1 f2 ->
  rows_filled ds (nb + nrs + nrho) n f1' f2' ->
  (if hr then normal_rows_filled rmean rprecision nb nrs n f2 f3 else f3 = f2) ->
  (if hr then normal_rows_filled rmean rprecision nb nrs n f2' f3' else f3' = f2') ->
  (if hs then rho_rows rhoDist (nb + nrs) nrho n f3 fe else fe = f3) ->
  (if hs then rho_rows rhoDist (nb + nrs) nrho n f3' fe' else fe' = f3') ->
  agree (fun c => c < nb + nrs + nrho + length ds) n fe fe'.
Proof.
  intros mean precision rmean rprecision ds rhoDist hr hs nb nrs nrho n
         a f1 f2 f3 fe a' f1' f2' f3' fe' G O Hr0 Hs0 H1 H1' H2 H2' H3 H3' H4 H4'.
  assert (A0 : agree (fun _ => False) n a a').
  { split; [exact G |]. split; [exact O |]. intros r c _ []. }
  pose proof (agree_normal_rows _ _ _ _ _ _ _ _ _ _ A0 H1 H1') as A1.
  pose proof (agree_rows_filled _ _ _ _ _ _ _ _ A1 H2 H2') as A2.
  assert (A3 : agree (fun c => c < nb \/ nb + nrs + nrho <= c < nb + nrs + nrho + length ds
                               \/ nb <= c < nb + nrs) n f3 f3').
  { destruct hr.
    - pose proof (agree_normal_rows _ _ _ _ _ _ _ _ _ _ A2 H3 H3') as [G3 [O3 C3]].
      split; [exact G3 |]. split; [exact O3 |].
      intros r c Hr Hp. apply C3; [exact Hr |]. lia.
    - subst f3 f3'. destruct A2 as [G2 [O2 C2]].
      split; [exact G2 |]. split; [exact O2 |].
      intros r c Hr Hp. apply C2; [exact Hr |]. specialize (Hr0 eq_refl). lia. }
  destruct hs.
  - pose proof (agree_rho_rows _ _ _ _ _ _ H4 _ _ _ H4' A3) as [G4 [O4 C4]].
    split; [exact G4 |]. split; [exact O4 |].
    intros r c Hr Hp. apply C4; [exact Hr |]. lia.
  - subst fe fe'. destruct A3 as [G3 [O3 C3]].
    split; [exact G3 |]. split; [exact O3 |].
    intros r c Hr Hp. apply C3; [exact Hr |]. specialize (Hs0 eq_refl). lia.
Qed.

Lemma sampler_phases_agree :
  forall (this : spatialSEIRModel) (hr hs : bool) (tm : string) (sz : sizes) (n : nat)
         (a f1 f2 f3 fe a' f1' f2' f3' fe' : frame),
  gen a = gen a' -> Rcout a = Rcout a' ->
  (hr = false -> nBetaRS sz = 0) -> (hs = false -> nRho sz = 0) ->
  sampler_phases this hr hs tm sz n a f1 f2 f3 fe ->
  sampler_phases this hr hs tm sz n a' f1' f2' f3' fe' ->
  agree (fun c => c < nBeta sz + nBetaRS sz + nRho sz + nTrans_of tm) n fe fe'.
Proof.
  intros this hr hs tm sz n a f1 f2 f3 fe a' f1' f2' f3' fe' G O Hr0 Hs0
         [H1 [H2 [H3 H4]]] [H1' [H2' [H3' H4']]].
  rewrite <- (transition_samplers_length (transitionPriorsInstance this) tm).
  exact (sampled_rows_agree _ _ _ _ _ _ hr hs _ _ _ _ _ _ _ _ _ _ _ _ _ _
           G O Hr0 Hs0 H1 H1' H2 H2' H3 H3' H4 H4').
Qed.

(** ** The transition block, by mode *)

(** C8. Both functions handle the transition block by a branch on the
    mode, at the column [off] where the three blocks before it end. Take
    2.0 > 1.0, the prior entries the sampler reads in place and
    [nParticles] at most [N]. [generateParamsPrior] reaches its closing
    brace, and in row [r] of the first [nParticles] rows the columns from
    [off] on hold successive draws from the Gamma samplers of the mode, on
    the generator as the rows before left it. In exponential mode these
    are two samplers, E to I then I to R, each with shape the entry of row
    0 and scale 1 over the entry of row 1 of column 0 of its hyperparameter
    matrix. In weibull mode they are four, from the row pairs (0, 1) and
    (2, 3) of column 0 of the two matrices, and the run is the same
    whatever the two TransitionDistribution objects are. [evalPrior], on a
    vector of full length, returns the product of the factors of the three
    blocks before, times the transition factors: in exponential mode two
    Gamma densities with the parameters of the two samplers, at the entries
    [off] and [off + 1]; in weibull mode what the E to I object's
    [evalParamPrior] returns on the entries [off], [off + 1] and what the
    I to R object's returns on the entries [off + 2], [off + 3]. *)
Theorem transition_block_by_mode :
  gtb d2 d1 = true ->
  forall (this : spatialSEIRModel) (nParticles : Z) (out : list string)
         (hr hs : bool) (tm : string) (sz : sizes),
  let EI := transitionPriors.E_to_I_params (transitionPriorsInstance this) in
  let IR := transitionPriors.I_to_R_params (transitionPriorsInstance this) in
  let ei := (coeff EI 0 0, div d1 (coeff EI 1 0)) in
  let ei' := (coeff EI 2 0, div d1 (coeff EI 3 0)) in
  let ir := (coeff IR 0 0, div d1 (coeff IR 1 0)) in
  let ir' := (coeff IR 2 0, div d1 (coeff IR 3 0)) in
  let samplers := transition_samplers (transitionPriorsInstance this) tm in
  let off := nBeta sz + nBetaRS sz + nRho sz in
  let n := Z.to_nat nParticles in
  generateParamsPrior_locals this = Done (hr, hs, tm, sz) ->
  sampler_inputs_ok this hr tm sz ->
  n <= N this ->
  (* the samplers of the mode *)
  ((tm = "exponential"%string -> samplers = [ei; ir]) /\
   (tm = "weibull"%string -> samplers = [ei; ei'; ir; ir']) /\
   length samplers = nTrans_of tm) /\
  (* the block in the matrix the sampler leaves *)
  (exists f_end,
     generateParamsPrior_body this nParticles out = Done f_end /\
     forall r c, r < n -> off <= c < off + nTrans_of tm ->
       coeff (outParams f_end) r c
       = nth (c - off)
           (fst (draws samplers
                   (row_gen samplers r
                      (normal_row_gen (nBeta sz) n (generator this))))) d0) /\
  (* the sampler does not look at the two objects *)
  (forall dEI dIR,
     generateParamsPrior_body
       (set_IR_transition_dist dIR (set_EI_transition_dist dEI this)) nParticles out
     = generateParamsPrior_body this nParticles out) /\
  (* the factors of the block in the density *)
  (forall v,
     priors_cover this (nBeta sz) (nBetaRS sz) (nRho sz) tm ->
     nParams sz <= length v ->
     evalPrior this v
     = Done (fold_left mul (transition_factors this tm v off)
               (fold_left mul
                  (normal_factors (nBeta sz)
                     (exposureModel.betaPriorMean (exposureModelInstance this))
                     (exposureModel.betaPriorPrecision (exposureModelInstance this)) v 0
                   ++ normal_factors (nBetaRS sz)
                        (reinfectionModel.betaPriorMean (reinfectionModelInstance this))
                        (reinfectionModel.betaPriorPrecision (reinfectionModelInstance this))
                        v (nBeta sz)
                   ++ rho_factors (distanceModel.spatial_prior (distanceModelInstance this))
                        v (nBeta sz + nBetaRS sz) (nRho sz))
                  d1)) /\
     (tm = "exponential"%string ->
      transition_factors this tm v off
      = [dgamma (nth off v d0) (fst ei) (snd ei);
         dgamma (nth (S off) v d0) (fst ir) (snd ir)]) /\
     (tm = "weibull"%string ->
      exists dEI dIR,
        EI_transition_dist this = Some dEI /\ IR_transition_dist this = Some dIR /\
        transition_factors this tm v off
        = [evalParamPrior dEI (firstn 2 (skipn off v));
           evalParamPrior dIR (firstn 2 (skipn (off + 2) v))])).
Proof.
  intros H21 this nParticles out hr hs tm sz EI IR ei ei' ir ir' samplers off n
         Hloc Hok HN.
  destruct (evalPrior_locals_of_generate this hr hs tm sz Hloc) as [Hev _].
  destruct (generateParamsPrior_locals_sizes this hr hs tm sz Hloc) as [Hnp _].
  assert (Hlen : length samplers = nTrans_of tm)
    by apply transition_samplers_length.
  split.
  { split; [| split; [| exact Hlen]]; intro E; unfold samplers; rewrite E; reflexivity. }
  split.
  { destruct (generateParamsPrior_body_run H21 this nParticles out hr hs tm sz Hloc Hok HN)
      as [f1 [f2 [f3 [f4 [Hph Hbody]]]]].
    destruct (sampler_phases_frame _ _ _ _ _ _ _ _ _ _ _ Hph)
      as [_ [_ [_ [_ [Htrans _]]]]].
    destruct Hph as [[_ [_ [_ [G1 _]]]] [[_ [_ [_ [_ C2]]]] _]].
    cbn [allocated gen] in G1.
    exists f4. split; [exact Hbody |].
    intros r c Hr Hc. rewrite Htrans by (fold off; lia). rewrite C2.
    fold samplers off n. rewrite Hlen, G1.
    destruct (Nat.ltb_spec r n); [| lia].
    destruct (Nat.leb_spec off c); [| lia].
    destruct (Nat.ltb_spec c (off + nTrans_of tm)); [| lia].
    reflexivity. }
  split; [intros; apply generateParamsPrior_body_ignores_dists |].
  intros v Hcover Hv.
  split.
  { rewrite (evalPrior_product this v hr hs tm _ _ _ Hev Hcover) by lia.
    unfold prior_factors. rewrite !app_assoc. rewrite fold_left_app. reflexivity. }
  split.
  - intro E. unfold transition_factors. rewrite E. reflexivity.
  - intro E. destruct Hcover as [_ [_ [_ [_ [_ [_ Hw]]]]]].
    destruct (Hw E) as [HE HI].
    destruct (EI_transition_dist this) as [dEI|] eqn:EE; [| contradiction].
    destruct (IR_transition_dist this) as [dIR|] eqn:EI'; [| contradiction].
    exists dEI, dIR. split; [reflexivity |]. split; [reflexivity |].
    unfold transition_factors. rewrite E, EE, EI'. reflexivity.
Qed.

End Orchestrator.

Arguments is_initialized {D rng simulationResultSet} s.
Arguments param_matrix {D rng simulationResultSet} s.
Arguments worker_pool {D rng simulationResultSet} s.
Arguments generator {D rng simulationResultSet} s.
Arguments N {D rng simulationResultSet} s.
Arguments transitionMode {D rng simulationResultSet} s.
Arguments fresh {D} d0 {rng simulationResultSet} storage.
Arguments priors_cover {D rng simulationResultSet} this nb nrs nrho tm.
Arguments outParams {D rng} f.
Arguments gen {D rng} f.
Arguments Rcout {D rng} f.
Arguments mkFrame {D rng} outParams gen Rcout.

(** * The sampler and the storage it allocates

    [Eigen::MatrixXd(N, nParams)] allocates without initialising. The
    sampler is run on two contents of that storage. *)

Section Storage.

Context {D : Type} (d0 d1 d2 : D) (add div : D -> D -> D) (gtb : D -> D -> bool).
Context {rng : Type} (standardNormal : rng -> D * rng).
Context (gamma_distribution : D -> D -> rng -> D * rng).
Context {simulationResultSet : Type}.

Local Abbreviation body_on u :=
  (generateParamsPrior_body D d0 d1 d2 add div gtb rng standardNormal
     gamma_distribution simulationResultSet u).

Local Abbreviation call_on u :=
  (generateParamsPrior D d0 d1 d2 add div gtb rng standardNormal
     gamma_distribution simulationResultSet u).

(** What [generateParamsPrior] draws does not depend on what the storage
    of the local matrix held: under the conditions of a complete run, two
    runs on storage of different contents return, end on the same generator
    state and the same printed text, and put the same entries in every
    column of the first [nParticles] rows; the call itself ends the same,
    result and object. No cell is read before it is written. *)
Theorem sampled_rows_ignore_storage :
  gtb d2 d1 = true ->
  forall (u u' : nat -> nat -> D) (this : spatialSEIRModel D rng simulationResultSet)
         (nParticles : Z) (out : list string)
         (hr hs : bool) (tm : string) (sz : sizes),
  generateParamsPrior_locals D d0 gtb rng simulationResultSet this = Done (hr, hs, tm, sz) ->
  sampler_inputs_ok D rng simulationResultSet this hr tm sz ->
  Z.to_nat nParticles <= N this ->
  exists f f',
    body_on u this nParticles out = Done f /\
    body_on u' this nParticles out = Done f' /\
    gen f = gen f' /\ Rcout f = Rcout f' /\
    (forall r c, r < Z.to_nat nParticles -> c < nParams sz ->
                 coeff (outParams f) r c = coeff (outParams f') r c) /\
    call_on u nParticles out this = call_on u' nParticles out this.
Proof.
  intros H21 u u' this nParticles out hr hs tm sz Hloc Hok HN.
  destruct (generateParamsPrior_body_run D d0 d1 d2 add div gtb rng standardNormal
              gamma_distribution simulationResultSet u H21 this nParticles out
              hr hs tm sz Hloc Hok HN) as [f1 [f2 [f3 [f [Hph Hrun]]]]].
  destruct (generateParamsPrior_body_run D d0 d1 d2 add div gtb rng standardNormal
              gamma_distribution simulationResultSet u' H21 this nParticles out
              hr hs tm sz Hloc Hok HN) as [f1' [f2' [f3' [f' [Hph' Hrun']]]]].
  destruct (generateParamsPrior_locals_sizes D d0 gtb rng simulationResultSet
              this hr hs tm sz Hloc) as [Hnp [Hr0 Hs0]].
  destruct (sampler_phases_agree D d0 d1 add div gtb rng standardNormal
              gamma_distribution simulationResultSet this hr hs tm sz
              (Z.to_nat nParticles)
              (allocated D rng simulationResultSet u this sz out) f1 f2 f3 f
              (allocated D rng simulationResultSet u' this sz out) f1' f2' f3' f'
              eq_refl eq_refl Hr0 Hs0 Hph Hph') as [G [O C]].
  exists f, f'. split; [exact Hrun |]. split; [exact Hrun' |].
  split; [exact G |]. split; [exact O |]. split.
  - intros r c Hr Hc. apply C; [exact Hr | lia].
  - unfold generateParamsPrior, mbind, get, lift, assign, mret.
    rewrite Hrun, Hrun', G, O. reflexivity.
Qed.

End Storage.

(** * sort_indexes

    Lines 19-29: the indices of a numeric vector, sorted by the entries they
    point at. [std::sort] is the library's; it enters with what the
    standard promises of it. *)

(** [lt] is a strict weak ordering of the values in [dom]: irreflexive,
    transitive, and with a transitive incomparability. *)
Definition strict_weak_order_on {A : Type} (dom : A -> Prop) (lt : A -> A -> bool) : Prop :=
  (forall a, dom a -> lt a a = false) /\
  (forall a b c, dom a -> dom b -> dom c ->
                 lt a b = true -> lt b c = true -> lt a c = true) /\
  (forall a b c, dom a -> dom b -> dom c ->
                 lt a b = false -> lt b a = false ->
                 lt b c = false -> lt c b = false ->
                 lt a c = false /\ lt c a = false).

(** A range is sorted with respect to [comp] when no element compares
    less than one before it. *)
Definition sorted_wrt (comp : nat -> nat -> bool) (l : list nat) : Prop :=
  StronglySorted (fun a b => comp b a = false) l.

Section Sort_indexes.

Context {D : Type} (d0 : D) (ltb : D -> D -> bool).

(** [std::sort(first, last, comp)], on the elements of the range. *)
Variable std_sort : (nat -> nat -> bool) -> list nat -> list nat.

(** With a comparison that is a strict weak ordering of the elements, the
    range is rearranged and ends sorted with respect to the comparison.
    The order of equivalent elements is not fixed. *)
Hypothesis std_sort_sorts : forall (comp : nat -> nat -> bool) (l : list nat),
  strict_weak_order_on (fun i => In i l) comp ->
  Permutation l (std_sort comp l) /\ sorted_wrt comp (std_sort comp l).

(** [sort_indexes(inVec)]: [idx] is filled with 0 to [inVec.size() - 1]
    and sorted by [inVec(i1) < inVec(i2)]. The comparison is only called
    on elements of [idx], which are below the size. *)
Definition sort_indexes (inVec : list D) : list nat :=
  let idx := seq 0 (length inVec) in
  std_sort (fun i1 i2 => ltb (nth i1 inVec d0) (nth i2 inVec d0)) idx.

Lemma StronglySorted_nth :
  forall (R : nat -> nat -> Prop) (l : list nat),
  StronglySorted R l ->
  forall i j, i < j < length l -> R (nth i l 0) (nth j l 0).
Proof.
  intros R l H. induction H as [|a l Hs IH Hall]; intros i j Hij.
  - simpl in Hij. lia.
  - simpl in Hij. destruct j as [|j]; [lia |]. destruct i as [|i].
    + cbn [nth]. rewrite Forall_forall in Hall. apply Hall. apply nth_In. lia.
    + cbn [nth]. apply IH. lia.
Qed.

Lemma nth_StronglySorted :
  forall (R : nat -> nat -> Prop) (l : list nat),
  (forall i j, i < j < length l -> R (nth i l 0) (nth j l 0)) ->
  StronglySorted R l.
Proof.
  intros R l. induction l as [|a l IH]; intro H; [constructor |].
  constructor.
  - apply IH. intros i j Hij. apply (H (S i) (S j)). simpl. lia.
  - apply Forall_forall. intros x Hx.
    destruct (In_nth l x 0 Hx) as [k [Hk Ek]]. rewrite <- Ek.
    apply (H 0 (S k)). simpl. lia.
Qed.

(** Two sorted arrangements of the same elements are the same list when
    two distinct elements never tie. *)
Lemma sorted_arrangement_unique :
  forall (R : nat -> nat -> Prop) (l1 l2 : list nat),
  (forall a b, In a l1 -> In b l1 -> R a b -> R b a -> a = b) ->
  Permutation l1 l2 -> StronglySorted R l1 -> StronglySorted R l2 -> l1 = l2.
Proof.
  intros R l1. induction l1 as [|a l1 IH]; intros l2 Hanti Hp H1 H2.
  - apply Permutation_nil in Hp. symmetry. exact Hp.
  - destruct l2 as [|b l2].
    { apply Permutation_sym, Permutation_nil in Hp. discriminate Hp. }
    inversion H1 as [|? ? H1s H1a]; subst. inversion H2 as [|? ? H2s H2a]; subst.
    rewrite Forall_forall in H1a, H2a.
    assert (Eab : a = b).
    { assert (Hb : In b (a :: l1))
        by (apply (Permutation_in b (Permutation_sym Hp)); left; reflexivity).
      assert (Ha : In a (b :: l2))
        by (apply (Permutation_in a Hp); left; reflexivity).
      destruct Hb as [Hb|Hb]; [exact Hb |].
      destruct Ha as [Ha|Ha]; [symmetry; exact Ha |].
      apply Hanti; [left; reflexivity | right; exact Hb | apply H1a; exact Hb
                   | apply H2a; exact Ha]. }
    subst b. f_equal. apply IH.
    + intros x y Hx Hy. apply Hanti; right; assumption.
    + exact (Permutation_cons_inv Hp).
    + exact H1s.
    + exact H2s.
Qed.

(** The comparison of [sort_indexes] inherits the ordering of the
    entries. *)
Lemma index_comparison_is_ordering : forall inVec : list D,
  strict_weak_order_on (fun x => In x inVec) ltb ->
  strict_weak_order_on (fun i => In i (seq 0 (length inVec)))
    (fun i1 i2 => ltb (nth i1 inVec d0) (nth i2 inVec d0)).
Proof.
  intros inVec [Hirr [Htrans Hinc]].
  assert (Hdom : forall i, In i (seq 0 (length inVec)) -> In (nth i inVec d0) inVec).
  { intros i Hi. apply in_seq in Hi. apply nth_In. lia. }
  split; [| split].
  - intros a Ha. apply Hirr. apply Hdom. exact Ha.
  - intros a b c Ha Hb Hc. apply Htrans; apply Hdom; assumption.
  - intros a b c Ha Hb Hc. apply Hinc; apply Hdom; assumption.
Qed.

(** [sort_indexes] ranks the entries. When [<] is a strict weak ordering
    of the entries of the vector, the result is a rearrangement of the
    indices 0 to size - 1, each once, and reading the vector along it
    never steps down. When, besides, no two entries tie, the result is the
    only such rearrangement: it does not depend on how [std::sort] orders
    equivalent elements. *)
Theorem sort_indexes_ranks :
  forall inVec : list D,
  strict_weak_order_on (fun x => In x inVec) ltb ->
  let n := length inVec in
  let at_rank (r : list nat) (k : nat) := nth (nth k r 0) inVec d0 in
  Permutation (seq 0 n) (sort_indexes inVec) /\
  length (sort_indexes inVec) = n /\
  NoDup (sort_indexes inVec) /\
  (forall i j, i < j < n ->
               ltb (at_rank (sort_indexes inVec) j) (at_rank (sort_indexes inVec) i) = false) /\
  ((forall a b, a < n -> b < n -> a <> b ->
                ltb (nth a inVec d0) (nth b inVec d0) = true \/
                ltb (nth b inVec d0) (nth a inVec d0) = true) ->
   forall r : list nat,
     Permutation (seq 0 n) r ->
     (forall i j, i < j < n -> ltb (at_rank r j) (at_rank r i) = false) ->
     r = sort_indexes inVec).
Proof using std_sort_sorts.
  intros inVec Hord. cbv zeta. unfold sort_indexes.
  destruct (std_sort_sorts (fun i1 i2 => ltb (nth i1 inVec d0) (nth i2 inVec d0))
              (seq 0 (length inVec)) (index_comparison_is_ordering inVec Hord))
    as [Hperm Hsorted].
  set (r0 := std_sort _ _) in *.
  assert (Hlen : length r0 = length inVec).
  { rewrite <- (Permutation_length Hperm). apply length_seq. }
  split; [exact Hperm |]. split; [exact Hlen |].
  split; [exact (Permutation_NoDup Hperm (seq_NoDup (length inVec) 0)) |].
  split.
  - intros i j Hij.
    apply (StronglySorted_nth _ _ Hsorted i j). rewrite Hlen. exact Hij.
  - intros Htotal r Hr Hsr.
    apply (sorted_arrangement_unique
             (fun a b => ltb (nth b inVec d0) (nth a inVec d0) = false)).
    + intros a b Ha Hb Hab Hba.
      apply (Permutation_in a (Permutation_sym Hr)) in Ha.
      apply (Permutation_in b (Permutation_sym Hr)) in Hb.
      apply in_seq in Ha. apply in_seq in Hb.
      destruct (Nat.eq_dec a b) as [E|E]; [exact E |].
      destruct (Htotal a b) as [H|H]; try lia; congruence.
    + exact (Permutation_trans (Permutation_sym Hr) Hperm).
    + apply nth_StronglySorted. intros i j Hij. apply Hsr.
      rewrite <- (Permutation_length Hr), length_seq in Hij. exact Hij.
    + exact Hsorted.
Qed.

End Sort_indexes.

(** * A concrete configuration

    The end-to-end example of the specification, run on exact integers: 3
    locations, 10 time points, 2 exposure covariates, reinfection disabled,
    one distance matrix and one lagged matrix per time point, spatial prior
    (1, 1), exponential transitions, BasicABC with 10 batches. The
    generator is a tape of the variates still to come; the densities are
    integer-valued stand-ins. *)

Module Demo.

Definition rng : Type := list Z.

Definition next (g : rng) : Z * rng :=
  match g with
  | [] => (0%Z, [])
  | x :: g' => (x, g')
  end.

Definition standardNormal : rng -> Z * rng := next.

Definition gamma_distribution (alpha beta : Z) : rng -> Z * rng := next.

Definition mt19937_seeded (seed : Z) : rng :=
  [2; 1; 1; 0; seed; 0; 1; 3; 0; 0; 1; 0]%Z.

Definition dnorm (x mu sigma : Z) : Z := (1 + (x - mu) * (x - mu) + sigma)%Z.

Definition dbeta (x a b : Z) : Z := (1 + x + a + b)%Z.

Definition dgamma (x shape scale : Z) : Z := (1 + x * shape + scale)%Z.

Definition evalParamPrior (w : weibullTransitionDistribution Z) (v : list Z) : Z :=
  fold_left Z.add v (fold_left Z.add (priorParams w) 0%Z).

Definition uninitialized (i j : nat) : Z := (-1)%Z.

Definition zeros {A : Type} (zero : A) (r c : nat) : Matrix A :=
  mkMatrix r c (fun _ _ => zero).

Definition dm : dataModel.t := dataModel.mk 1 3 10 (zeros 0%Z 10 3).

Definition em : exposureModel.t Z :=
  exposureModel.mk 2 3 10 (zeros 0%Z 30 2) [5; 6]%Z [1; 2]%Z.

Definition rm : reinfectionModel.t Z :=
  reinfectionModel.mk 3 3 (zeros 0%Z 10 1) [0]%Z [0]%Z.

Definition dist : distanceModel.t Z :=
  distanceModel.mk 4 3 [zeros 0%Z 3 3] (repeat [zeros 0%Z 3 3] 10) [1; 1]%Z.

Definition hyper : Matrix Z :=
  mkMatrix 4 1
    (fun i _ => match i with 0%nat => 2%Z | 1%nat => 1%Z | 2%nat => 3%Z | _ => 1%Z end).

Definition tp : transitionPriors.t Z := transitionPriors.mk 5 "exponential" hyper hyper.

Definition iv : initialValueContainer.t :=
  initialValueContainer.mk 6 [100; 100; 100]%Z [0; 0; 0]%Z [1; 1; 1]%Z [0; 0; 0]%Z.

Definition sc : samplingControl.t Z :=
  samplingControl.mk (D := Z) 1 123 1 1 10 5 10 false 4 1%Z 1%Z 0%Z 0.

(** The storage the object is built in. Of the members that no line of
    the source assigns, the two flags hold the values the other functions
    derive and [N] is 4; what the storage holds in the members of class
    type does not matter, they are default-constructed. *)
Definition storage : spatialSEIRModel Z rng unit :=
  mkModel Z rng unit dm em rm dist tp iv sc None None [] true (zeros 0%Z 0 0) []
    (zeros 0%Z 0 0) [] None 0 false true "exponential" 4.

Local Abbreviation New :=
  (@spatialSEIRModel_new Z 0%Z 1%Z rng mt19937_seeded unit 1 2 3 4 5 6 7 storage).
Local Abbreviation New_in :=
  (@spatialSEIRModel_new Z 0%Z 1%Z rng mt19937_seeded unit 1 2 3 4 5 6 7).
Local Abbreviation Ctor :=
  (@ctor Z 0%Z 1%Z rng mt19937_seeded unit 1 2 3 4 5 6 7).

(** The orchestrator of the example. *)
Definition model : spatialSEIRModel Z rng unit :=
  match New dm em rm dist tp iv sc with
  | Done this => this
  | _ => storage
  end.

(** The same with reinfection enabled: one reinfection covariate, with one
    prior mean and one prior precision. *)
Definition rm_on : reinfectionModel.t Z :=
  reinfectionModel.mk 3 1 (zeros 0%Z 10 1) [3]%Z [2]%Z.

Definition model_rs : spatialSEIRModel Z rng unit :=
  match New dm em rm_on dist tp iv sc with
  | Done this => this
  | _ => storage
  end.

(** The same in weibull mode. *)
Definition tp_weibull : transitionPriors.t Z := transitionPriors.mk 5 "weibull" hyper hyper.

Definition model_weibull : spatialSEIRModel Z rng unit :=
  match New dm em rm dist tp_weibull iv sc with
  | Done this => this
  | _ => storage
  end.

Local Abbreviation EvalPrior :=
  (@evalPrior Z 0%Z 1%Z Z.add Z.mul Z.div Z.gtb Z.leb rng dnorm dbeta dgamma
     evalParamPrior unit).
Local Abbreviation GenerateParamsPrior :=
  (@generateParamsPrior Z 0%Z 1%Z 2%Z Z.add Z.div Z.gtb rng standardNormal
     gamma_distribution unit uninitialized).
Local Abbreviation GenerateParamsPrior_body :=
  (@generateParamsPrior_body Z 0%Z 1%Z 2%Z Z.add Z.div Z.gtb rng standardNormal
     gamma_distribution unit uninitialized).
Local Abbreviation GenerateParamsPrior_locals := (@generateParamsPrior_locals Z 0%Z Z.gtb rng unit).
Local Abbreviation SetParameters := (@setParameters Z rng unit).
Local Abbreviation SetParameters_locals := (@setParameters_locals Z rng unit).

Example model_is_built : New dm em rm dist tp iv sc = Done model.
Proof. vm_compute. reflexivity. Qed.

Example model_nParams :
  GenerateParamsPrior_locals model = Done (false, true, "exponential"%string, mkSizes 2 0 2 2 6).
Proof. vm_compute. reflexivity. Qed.

(** ** The theorems at the example *)

(** C1, at the example: 2 exposure covariates, reinfection disabled, 2 rho
    entries, exponential mode, so [nParams] is 2 + 0 + 2 + 2 = 6.
    [generateParamsPrior] and [evalPrior] derive their counts from the
    components and arrive there. [setParameters] reads the members
    [hasReinfection], [hasSpatial] and [transitionMode] instead, which no
    line of the file assigns: on the object the constructor returns
    [transitionMode] is the empty string, the transition block counts for
    0, and the count is 4 when the two flags happen to hold the right
    values, and never 6 whatever the storage held. *)
Theorem setParameters_counts_no_transition_block :
  New dm em rm dist tp iv sc = Done model /\
  GenerateParamsPrior_locals model
    = Done (false, true, "exponential"%string, mkSizes 2 0 2 2 6) /\
  @evalPrior_locals Z 0%Z Z.gtb rng unit model
    = Done (false, true, "exponential"%string, (2, 0, 2)) /\
  transitionMode model = ""%string /\
  SetParameters_locals model = Done (mkSizes 2 0 2 0 4) /\
  (forall (storage0 : spatialSEIRModel Z rng unit) (this : spatialSEIRModel Z rng unit),
     New_in storage0 dm em rm dist tp iv sc = Done this ->
     GenerateParamsPrior_locals this
       = Done (false, true, "exponential"%string, mkSizes 2 0 2 2 6) /\
     exists sz, SetParameters_locals this = Done sz /\ nTrans sz = 0 /\ nParams sz < 6).
Proof.
  split; [vm_compute; reflexivity |].
  split; [vm_compute; reflexivity |].
  split; [vm_compute; reflexivity |].
  split; [vm_compute; reflexivity |].
  split; [vm_compute; reflexivity |].
  intros storage0 this Hnew.
  destruct (new_object_unassigned Z 0%Z 1%Z rng mt19937_seeded unit 1 2 3 4 5 6 7
              storage0 dm em rm dist tp iv sc this Hnew)
    as [Edm [Eem [Erm [Edist [Etp _]]]]].
  split.
  { unfold generateParamsPrior_locals. rewrite Edm, Eem, Erm, Edist, Etp.
    vm_compute. reflexivity. }
  assert (Hsz : exists sz, SetParameters_locals this = Done sz).
  { unfold setParameters_locals. rewrite Edist. eexists. reflexivity. }
  destruct Hsz as [sz Hsz]. exists sz. split; [exact Hsz |].
  destruct (setParameters_locals_after_new Z 0%Z 1%Z rng mt19937_seeded unit 1 2 3 4 5 6 7
              storage0 dm em rm dist tp iv sc this sz Hnew Hsz)
    as [Hb [Hrs [[lag0 [Hlag Hrho]] [Ht Hn]]]].
  split; [exact Ht |].
  change (nBeta sz = 2) in Hb. change (nBetaRS sz <= 1) in Hrs.
  change (Done [zeros 0%Z 3 3] = Done lag0) in Hlag. injection Hlag as Hlag. subst lag0.
  change (nRho sz <= 2) in Hrho. lia.
Qed.

(** C3, at the same example. A matrix with [nParams] = 6 columns, the
    count of the configuration, is rejected, and one with 4 columns is
    stored and marks the object initialised: [setParameters] compares with
    the count it computes from the unassigned members (see C1). Whatever
    the storage held, the 6-column matrix is rejected. *)
Theorem setParameters_rejects_nParams_columns :
  New dm em rm dist tp iv sc = Done model /\
  GenerateParamsPrior_locals model
    = Done (false, true, "exponential"%string, mkSizes 2 0 2 2 6) /\
  SetParameters (zeros 0%Z 100 6) model
  = (Stop ("Number of supplied parameters does not match model specification." ++ nl),
     model) /\
  fst (SetParameters (zeros 0%Z 100 4) model) = Done tt /\
  param_matrix (snd (SetParameters (zeros 0%Z 100 4) model)) = zeros 0%Z 100 4 /\
  is_initialized (snd (SetParameters (zeros 0%Z 100 4) model)) = true /\
  (forall (storage0 : spatialSEIRModel Z rng unit) (this : spatialSEIRModel Z rng unit),
     New_in storage0 dm em rm dist tp iv sc = Done this ->
     SetParameters (zeros 0%Z 100 6) this
     = (Stop ("Number of supplied parameters does not match model specification." ++ nl),
        this)).
Proof.
  split; [vm_compute; reflexivity |].
  split; [vm_compute; reflexivity |].
  split; [vm_compute; reflexivity |].
  split; [vm_compute; reflexivity |].
  split; [vm_compute; reflexivity |].
  split; [vm_compute; reflexivity |].
  intros storage0 this Hnew.
  assert (Hsz : exists sz, SetParameters_locals this = Done sz).
  { destruct (new_object_unassigned Z 0%Z 1%Z rng mt19937_seeded unit 1 2 3 4 5 6 7
                storage0 dm em rm dist tp iv sc this Hnew) as [_ [_ [_ [Edist _]]]].
    unfold setParameters_locals. rewrite Edist. eexists. reflexivity. }
  destruct Hsz as [sz Hsz].
  destruct (setParameters_locals_after_new Z 0%Z 1%Z rng mt19937_seeded unit 1 2 3 4 5 6 7
              storage0 dm em rm dist tp iv sc this sz Hnew Hsz)
    as [Hb [Hrs [[lag0 [Hlag Hrho]] [Ht Hn]]]].
  change (nBeta sz = 2) in Hb. change (nBetaRS sz <= 1) in Hrs.
  change (Done [zeros 0%Z 3 3] = Done lag0) in Hlag. injection Hlag as Hlag. subst lag0.
  change (nRho sz <= 2) in Hrho.
  rewrite (setParameters_unfold Z rng unit (zeros 0%Z 100 6) this sz Hsz).
  assert (E : (cols (zeros 0%Z 100 6) =? nParams sz) = false)
    by (apply Nat.eqb_neq; cbn [zeros cols]; lia).
  rewrite E. reflexivity.
Qed.

Lemma construction_validates_witness :
  dataModel.nTpt dm <> 0%Z /\
  ((exists msg, fst (Ctor dm em rm dist tp iv sc (fresh 0%Z storage)) = Stop msg) <->
   invalid_configuration Z 1 2 3 4 5 6 7 dm em rm dist tp iv sc).
Proof.
  split; [discriminate |].
  apply (construction_validates Z 0%Z 1%Z rng mt19937_seeded unit 1 2 3 4 5 6 7
           storage dm em rm dist tp iv sc).
  discriminate.
Defined.

(** The fixture of the specification: an exposure model with 4 locations
    against a data model with 3. The message names the two counts, and no
    worker pool exists when the constructor stops. *)
Definition em_4_locations : exposureModel.t Z :=
  exposureModel.mk 2 4 10 (zeros 0%Z 40 2) [5; 6]%Z [1; 2]%Z.

Example construction_rejects_location_mismatch :
  fst (Ctor dm em_4_locations rm dist tp iv sc (fresh 0%Z storage))
  = Stop ("Exposure model and data model imply different number of locations: 3, 4."
          ++ nl)%string /\
  worker_pool (snd (Ctor dm em_4_locations rm dist tp iv sc (fresh 0%Z storage))) = None /\
  New dm em_4_locations rm dist tp iv sc
  = Stop ("Exposure model and data model imply different number of locations: 3, 4."
          ++ nl)%string.
Proof. repeat split. Qed.

Lemma model_priors_cover : priors_cover model 2 0 2 "exponential".
Proof.
  unfold priors_cover, transition_inputs_ok. simpl.
  repeat split; try lia; try (intros _; lia); try discriminate.
Qed.

Lemma Z_gtb_not_leb : forall x y : Z, (x >? y)%Z = true -> (x <=? y)%Z = false.
Proof. intros x y H. apply Z.leb_gt. apply Z.gtb_lt. exact H. Qed.

Lemma evalPrior_zero_outside_simplex_witness :
  (rho_sum Z 0%Z Z.add [0; 0; 1; 1; 1; 1]%Z 2 2 >? 1)%Z = true /\
  EvalPrior model [0; 0; 1; 1; 1; 1]%Z = Done 0%Z.
Proof.
  split; [reflexivity |].
  assert (Hloc : @evalPrior_locals Z 0%Z Z.gtb rng unit model
                 = Done (false, true, "exponential"%string, (2, 0, 2)))
    by (vm_compute; reflexivity).
  destruct (evalPrior_zero_outside_simplex Z 0%Z 1%Z Z.add Z.mul Z.div Z.gtb Z.leb rng
              dnorm dbeta dgamma evalParamPrior unit
              eq_refl Z_gtb_not_leb
              model [0; 0; 1; 1; 1; 1]%Z _ _ _ _ _ _ Hloc model_priors_cover)
    as [_ [_ Hzero]]; [vm_compute; lia |].
  destruct (Hzero eq_refl) as [_ Hzero'].
  apply Hzero'.
  - apply Z.mul_0_r.
  - apply Forall_forall. intros y _. apply Z.mul_0_l.
Defined.

Local Abbreviation Draw_rho_row :=
  (@draw_rho_row Z 0%Z 1%Z 2%Z Z.add Z.gtb rng gamma_distribution).
Local Abbreviation Rho_row_outcome :=
  (@rho_row_outcome Z 0%Z 1%Z Z.add Z.gtb rng gamma_distribution).

(** A frame whose generator yields the blocks (1, 1), then (0, 1). *)
Definition two_attempts : frame Z rng :=
  mkFrame (zeros (-1)%Z 4 6) [1; 1; 0; 1]%Z [].

(** A frame whose generator yields 1 for ever: every block sums to 2. *)
Definition never_valid : frame Z rng :=
  mkFrame (zeros (-1)%Z 4 6) (repeat 1%Z 250) [].

Lemma rho_block_redrawn_until_simplex_witness :
  (2 >? 1)%Z = true /\
  GenerateParamsPrior_locals model
    = Done (false, true, "exponential"%string, mkSizes 2 0 2 2 6) /\
  exists k f',
    k < 100 /\ Draw_rho_row (1, 1)%Z 2 2 0 two_attempts = Done f' /\
    Rho_row_outcome (1, 1)%Z 2 2 0 k two_attempts f'.
Proof.
  split; [reflexivity |].
  assert (H : GenerateParamsPrior_locals model
              = Done (false, true, "exponential"%string, mkSizes 2 0 2 2 6))
    by (vm_compute; reflexivity).
  split; [exact H |].
  destruct (rho_block_redrawn_until_simplex Z 0%Z 1%Z 2%Z Z.add Z.div Z.gtb rng
              standardNormal gamma_distribution unit uninitialized eq_refl
              model 3%Z [] _ _ _ _ H) as [_ [Hrow _]].
  apply Hrow; simpl; lia.
Defined.

(** The second attempt is kept: the row holds (0, 1), the tape is used up,
    nothing is printed. *)
Example rho_row_second_attempt :
  exists f',
    Draw_rho_row (1, 1)%Z 2 2 0 two_attempts = Done f' /\
    coeff (outParams f') 0 2 = 0%Z /\ coeff (outParams f') 0 3 = 1%Z /\
    gen f' = [] /\ Rcout f' = [].
Proof. eexists. split; [vm_compute; reflexivity |]. repeat split. Qed.

(** After a hundred attempts the last block (1, 1) stays, the diagnostic
    is printed, and the call returns: 200 variates were drawn. *)
Example rho_row_budget_spent :
  exists f',
    Draw_rho_row (1, 1)%Z 2 2 0 never_valid = Done f' /\
    coeff (outParams f') 0 2 = 1%Z /\ coeff (outParams f') 0 3 = 1%Z /\
    gen f' = repeat 1%Z 50 /\
    Rcout f' = [("Error, valid rho value not obtained" ++ nl)%string].
Proof. eexists. split; [vm_compute; reflexivity |]. repeat split. Qed.

Local Abbreviation EvalPrior_transition :=
  (@evalPrior_transition Z 1%Z Z.mul Z.div rng dgamma evalParamPrior unit).

Lemma model_weibull_inputs_ok :
  sampler_inputs_ok Z rng unit model_weibull false "weibull" (mkSizes 2 0 2 4 8) /\
  priors_cover model_weibull 2 0 2 "weibull".
Proof.
  unfold sampler_inputs_ok, hyperparameters_ok, priors_cover, transition_inputs_ok. simpl.
  repeat split; try lia; try (intros _; lia); try discriminate.
Qed.

Lemma transition_block_by_mode_witness :
  GenerateParamsPrior_locals model_weibull
    = Done (false, true, "weibull"%string, mkSizes 2 0 2 4 8) /\
  transition_samplers Z 1%Z Z.div tp_weibull "weibull"
    = [(2, 1); (3, 1); (2, 1); (3, 1)]%Z /\
  (exists f_end,
     GenerateParamsPrior_body model_weibull 2%Z [] = Done f_end /\
     coeff (outParams f_end) 0 4 = 124%Z /\ coeff (outParams f_end) 0 5 = 0%Z /\
     coeff (outParams f_end) 0 6 = 1%Z /\ coeff (outParams f_end) 0 7 = 3%Z) /\
  EvalPrior model_weibull [5; 6; 0; 0; 4; 5; 6; 7]%Z
    = Done (fold_left Z.mul
              [evalParamPrior (mkWeibull [2; 1; 3; 1]%Z) [4; 5]%Z;
               evalParamPrior (mkWeibull [2; 1; 3; 1]%Z) [6; 7]%Z]
              (dnorm 5 5 1 * dnorm 6 6 0 * dbeta 0 1 1 * dbeta 0 1 1 * 1))%Z.
Proof.
  assert (H : GenerateParamsPrior_locals model_weibull
              = Done (false, true, "weibull"%string, mkSizes 2 0 2 4 8))
    by (vm_compute; reflexivity).
  split; [exact H |].
  destruct model_weibull_inputs_ok as [Hok Hcover].
  destruct (transition_block_by_mode Z 0%Z 1%Z 2%Z Z.add Z.mul Z.div Z.gtb Z.leb rng
              standardNormal gamma_distribution dnorm dbeta dgamma evalParamPrior unit
              uninitialized eq_refl model_weibull 2%Z [] _ _ _ _ H Hok)
    as [[_ [Hs _]] [[f_end [Hbody Hcells]] [_ Heval]]]; [vm_compute; lia |].
  split; [exact (Hs eq_refl) |].
  split.
  { exists f_end. split; [exact Hbody |].
    repeat split; rewrite Hcells by (vm_compute; lia); reflexivity. }
  destruct (Heval [5; 6; 0; 0; 4; 5; 6; 7]%Z Hcover) as [Hprod [_ Hw]];
    [vm_compute; lia |].
  destruct (Hw eq_refl) as [dEI [dIR [HE [HI Hf]]]].
  rewrite Hprod, Hf.
  vm_compute in HE. vm_compute in HI.
  injection HE as HE. injection HI as HI. subst dEI dIR. reflexivity.
Defined.

(** ** What a call of generateParamsPrior hands back, at the example *)

(** C2, at the example with [nParticles = 3] (the member [N] is 4): the
    body runs to its end, the local matrix has [N] = 4 rows and [nParams] =
    6 columns, and the call hands back no matrix. With [nParticles = 5] the
    beta loop writes row 4 of the 4-row matrix. *)
Theorem generateParamsPrior_hands_back_nothing :
  fst (GenerateParamsPrior 3%Z [] model) = Done (None, []) /\
  (exists f,
     GenerateParamsPrior_body model 3%Z [] = Done f /\
     rows (outParams f) = 4 /\ cols (outParams f) = 6) /\
  GenerateParamsPrior_body model 5%Z [] = Fault.
Proof.
  split; [vm_compute; reflexivity |].
  split; [| vm_compute; reflexivity].
  eexists. split; [vm_compute; reflexivity |].
  split; reflexivity.
Qed.

(** ** The reinfection priors read by the sampler and by evalPrior *)

(** The reinfection-enabled example with two more entries in each
    reinfection prior vector. *)
Definition rm_padded : reinfectionModel.t Z :=
  reinfectionModel.mk 3 1 (zeros 0%Z 10 1) [3; 30; 300]%Z [2; 1; 1]%Z.

Definition model_rs_padded : spatialSEIRModel Z rng unit :=
  match New dm em rm_padded dist tp iv sc with
  | Done this => this
  | _ => storage
  end.

(** C5, at the example with reinfection enabled: 2 exposure covariates,
    1 reinfection covariate with prior mean 3 and precision 2. [evalPrior]
    evaluates the reinfection coefficient against entry 0 of the
    reinfection priors and returns. The sampler reads the reinfection
    priors at the column index 2, outside the one-entry vectors. With
    three-entry vectors the sampler returns, and the coefficient of row 0
    is mean(2) + z / precision(2) = 300 + 124 / 1, not
    mean(0) + z / precision(0) = 3 + 124 / 2. *)
Theorem betaRS_sampler_reads_column_index :
  GenerateParamsPrior_locals model_rs
    = Done (true, true, "exponential"%string, mkSizes 2 1 2 2 7) /\
  EvalPrior model_rs [5; 6; 3; 0; 0; 0; 0]%Z
    = Done (dnorm 5 5 1 * dnorm 6 6 0 * dnorm 3 3 0
            * dbeta 0 1 1 * dbeta 0 1 1 * 1 * dgamma 0 2 1 * dgamma 0 2 1)%Z /\
  GenerateParamsPrior_body model_rs 1%Z [] = Fault /\
  (exists f,
     GenerateParamsPrior_body model_rs_padded 1%Z [] = Done f /\
     coeff (outParams f) 0 2 = (300 + 124 / 1)%Z /\
     coeff (outParams f) 0 2 <> (3 + 124 / 2)%Z).
Proof.
  split; [vm_compute; reflexivity |].
  split; [vm_compute; reflexivity |].
  split; [vm_compute; reflexivity |].
  eexists. split; [vm_compute; reflexivity |].
  split; [reflexivity | discriminate].
Qed.

Lemma samplingControl_contract_witness :
  (exists msg,
     samplingControl.new 1 2 3 0 [1; 123; 1; 7; 10; 5; 10; 0; 4]%Z [1; 1; 0]%Z
     = Stop msg) /\
  (exists msg,
     samplingControl.new 1 2 3 0 [1; 123; 1; 1; 10; 5; 0; 0; 4]%Z [1; 1; 0]%Z
     = Stop msg) /\
  samplingControl.new 1 2 3 0 [1; 123; 1; 1; 10; 5; 10; 0; 4]%Z [1; 1; 0]%Z = Done sc /\
  (exists msg, samplingControl.delete (D := Z) (samplingControl.mk 1 123 1 1 10 5 10 false 4
                                          1%Z 1%Z 0%Z 2) = Stop msg).
Proof.
  split.
  { apply (proj1 (samplingControl_contract Z 0%Z 1%Z 2%Z Z.add Z.div Z.gtb rng
                    standardNormal gamma_distribution unit uninitialized
                    1 2 3 0 [1; 123; 1; 7; 10; 5; 10; 0; 4]%Z [1; 1; 0]%Z)).
    right. left. simpl. repeat split; discriminate. }
  split.
  { apply (proj1 (samplingControl_contract Z 0%Z 1%Z 2%Z Z.add Z.div Z.gtb rng
                    standardNormal gamma_distribution unit uninitialized
                    1 2 3 0 [1; 123; 1; 1; 10; 5; 0; 0; 4]%Z [1; 1; 0]%Z)).
    right. right. simpl. lia. }
  split; [reflexivity |].
  apply (proj2 (proj2 (proj2 (proj2
           (samplingControl_contract Z 0%Z 1%Z 2%Z Z.add Z.div Z.gtb rng
              standardNormal gamma_distribution unit uninitialized
              1 2 3 0 [] [])))) _).
  simpl. discriminate.
Defined.

(** ** The further properties at the example *)

Lemma configuration_is_valid : ~ invalid_configuration Z 1 2 3 4 5 6 7 dm em rm dist tp iv sc.
Proof.
  unfold invalid_configuration, type_mismatch, dimension_mismatch.
  intros [H|H].
  - repeat (destruct H as [H|H]; [apply H; reflexivity |]). apply H. reflexivity.
  - destruct H as [[H|H]|[H|[[H|[l [l' [Hl [Hl' H]]]]]|[H|[[H _]|[H _]]]]]];
      try (apply H; reflexivity).
    apply repeat_spec in Hl. apply repeat_spec in Hl'. subst l l'. apply H. reflexivity.
Qed.

Lemma construction_sets_members_witness :
  New dm em rm dist tp iv sc = Done model /\
  is_initialized model = false /\
  generator model = mt19937_seeded 124 /\
  worker_pool model = Some (mkNodePool 1 123 4) /\
  param_matrix model = empty_matrix 0%Z /\
  transitionMode model = ""%string /\
  N model = 4.
Proof.
  assert (H : New dm em rm dist tp iv sc = Done model) by (vm_compute; reflexivity).
  split; [exact H |].
  destruct (construction_sets_members Z 0%Z 1%Z rng mt19937_seeded unit 1 2 3 4 5 6 7
              storage dm em rm dist tp iv sc model H)
    as [_ [Hini [Hgen [_ [_ [Hpool [_ [[Hpm [_ Htm]] [_ [HN _]]]]]]]]]].
  split; [exact Hini |]. split; [exact Hgen |]. split; [exact Hpool |].
  split; [exact Hpm |]. split; [exact Htm | exact HN].
Defined.

(** The seed sums are [int] sums: at the largest [int] the generator is
    seeded from the smallest. *)
Example seed_wraps : int_add 2147483647 1 = (-2147483648)%Z.
Proof. reflexivity. Qed.

Lemma construction_succeeds_on_valid_configuration_witness :
  exists this, New dm em rm dist tp iv sc = Done this.
Proof.
  apply (construction_succeeds_on_valid_configuration Z 0%Z 1%Z rng mt19937_seeded unit
           1 2 3 4 5 6 7 storage dm em rm dist tp iv sc).
  - discriminate.
  - exact configuration_is_valid.
  - discriminate.
  - vm_compute. discriminate.
  - vm_compute. discriminate.
Defined.

Lemma samplingControl_new_fields_witness :
  samplingControl.new 1 2 3 0 [1; 123; 1; 1; 10; 5; 10; 0; 4]%Z [1; 1; 0]%Z = Done sc /\
  samplingControl.multivariatePerturbation sc = false /\
  (0 < samplingControl.max_batches sc)%Z.
Proof.
  split; [reflexivity |].
  destruct (samplingControl_new_fields Z 1 2 3 0
              [1; 123; 1; 1; 10; 5; 10; 0; 4]%Z [1; 1; 0]%Z sc eq_refl)
    as [_ [[_ [_ [_ [_ [_ [_ [_ [Hmp _]]]]]]]] [_ [_ [_ Hmax]]]]].
  split; [exact Hmp | exact Hmax].
Defined.

Lemma evalPrior_ignores_trailing_entries_witness :
  EvalPrior model [5; 6; 0; 0; 1; 1]%Z = Done 288%Z /\
  EvalPrior model ([5; 6; 0; 0; 1; 1] ++ [7; 7])%Z = Done 288%Z.
Proof.
  assert (H : EvalPrior model [5; 6; 0; 0; 1; 1]%Z = Done 288%Z)
    by (vm_compute; reflexivity).
  split; [exact H |].
  exact (evalPrior_ignores_trailing_entries Z 0%Z 1%Z Z.add Z.mul Z.div Z.gtb Z.leb rng
           dnorm dbeta dgamma evalParamPrior unit model _ [7; 7]%Z _ H).
Defined.

Lemma setParameters_last_accepted_wins_witness :
  SetParameters_locals model = Done (mkSizes 2 0 2 0 4) /\
  param_matrix (snd (SetParameters (zeros 1%Z 50 4)
                       (snd (SetParameters (zeros 0%Z 100 4) model))))
  = zeros 1%Z 50 4 /\
  param_matrix (snd (SetParameters (zeros 1%Z 50 5)
                       (snd (SetParameters (zeros 0%Z 100 4) model))))
  = zeros 0%Z 100 4.
Proof.
  assert (H : SetParameters_locals model = Done (mkSizes 2 0 2 0 4))
    by (vm_compute; reflexivity).
  split; [exact H |].
  destruct (setParameters_last_accepted_wins Z rng unit model _
              (zeros 0%Z 100 4) (zeros 1%Z 50 4) H eq_refl) as [_ [Hgood _]].
  destruct (setParameters_last_accepted_wins Z rng unit model _
              (zeros 0%Z 100 4) (zeros 1%Z 50 5) H eq_refl) as [_ [_ Hbad]].
  destruct Hgood as [_ [_ Hq]]; [reflexivity |].
  destruct Hbad as [Hstop [Hp _]]; [vm_compute; lia |].
  split; [exact Hq |]. rewrite Hstop. exact Hp.
Defined.

Local Abbreviation Draw_beta := (@draw_beta Z Z.add Z.div rng standardNormal).
Local Abbreviation Normal_rows_filled :=
  (@normal_rows_filled Z 0%Z Z.add Z.div rng standardNormal).

(** A frame with a 4 by 6 matrix whose generator yields 1, 2, 3, 4. *)
Definition four_normals : frame Z rng :=
  mkFrame (zeros (-1)%Z 4 6) [1; 2; 3; 4]%Z [].

Lemma beta_block_sampled_witness :
  exists f',
    Draw_beta 2 2 em four_normals = Done f' /\
    Normal_rows_filled [5; 6]%Z [1; 2]%Z 0 2 2 four_normals f'.
Proof.
  destruct (beta_block_sampled Z 0%Z Z.add Z.div rng standardNormal 2 2 em four_normals)
    as [[Hrun _] Hfilled]; [lia | lia |].
  destruct Hrun as [f' Hf']; [vm_compute; lia |].
  exists f'. split; [exact Hf' | exact (Hfilled f' Hf')].
Defined.

(** Row 1, column 1 of the block: 6 + 4 / 2. *)
Example beta_block_entry :
  exists f',
    Draw_beta 2 2 em four_normals = Done f' /\
    coeff (outParams f') 1 1 = (6 + 4 / 2)%Z /\ coeff (outParams f') 2 0 = (-1)%Z.
Proof. eexists. split; [vm_compute; reflexivity |]. split; reflexivity. Qed.

Local Abbreviation Draw_rho :=
  (@draw_rho Z 0%Z 1%Z 2%Z Z.add Z.gtb rng gamma_distribution).

Lemma rho_phase_leaves_matrix_witness :
  exists f',
    Draw_rho true (1, 1)%Z 1 2 2 two_attempts = Done f' /\
    (forall r c, 1 <= r \/ c < 2 \/ 2 + 2 <= c -> coeff (outParams f') r c = (-1)%Z) /\
    Rcout f' = [] ++ repeat ("Error, valid rho value not obtained" ++ nl)%string
                       (rows_above_one Z 0%Z 1%Z Z.add Z.gtb (outParams f') 2 2 1).
Proof.
  destruct (rho_phase_leaves_matrix Z 0%Z 1%Z 2%Z Z.add Z.gtb rng gamma_distribution
              eq_refl (1, 1)%Z 1 2 2 two_attempts)
    as [f' [Hrun [_ [_ [Hframe Hout]]]]]; [vm_compute; lia | vm_compute; lia |].
  exists f'. split; [exact Hrun |]. split; [| exact Hout].
  intros r c Hrc. rewrite (Hframe r c Hrc). reflexivity.
Defined.

Lemma model_sampler_inputs_ok :
  sampler_inputs_ok Z rng unit model false "exponential" (mkSizes 2 0 2 2 6).
Proof.
  unfold sampler_inputs_ok, hyperparameters_ok. simpl.
  repeat split; try lia; try discriminate.
Qed.

Lemma generateParamsPrior_end_to_end_witness :
  exists f_end,
    GenerateParamsPrior_body model 3%Z [] = Done f_end /\
    fst (GenerateParamsPrior 3%Z [] model) = Done (None, Rcout f_end) /\
    rows (outParams f_end) = 4 /\ cols (outParams f_end) = 6 /\
    (forall c, coeff (outParams f_end) 3 c = (-1)%Z).
Proof.
  destruct (generateParamsPrior_end_to_end Z 0%Z 1%Z 2%Z Z.add Z.div Z.gtb rng
              standardNormal gamma_distribution unit uninitialized eq_refl
              model 3%Z [] _ _ _ _ model_nParams model_sampler_inputs_ok)
    as [f1 [f2 [f3 [f_end [_ [Hbody [Hcall [R [C [Hrest _]]]]]]]]]];
    [vm_compute; lia |].
  exists f_end. split; [exact Hbody |].
  split; [rewrite Hcall; reflexivity |].
  split; [exact R |]. split; [exact C |].
  intro c. apply (Hrest 3 c). vm_compute. lia.
Defined.

Lemma generateParamsPrior_reads_witness :
  (exists f, GenerateParamsPrior_body model_rs_padded 1%Z [] = Done f) /\
  2 + 1 <= length (reinfectionModel.betaPriorMean rm_padded) /\
  2 <= length (exposureModel.betaPriorMean em).
Proof.
  assert (Hloc : GenerateParamsPrior_locals model_rs_padded
                 = Done (true, true, "exponential"%string, mkSizes 2 1 2 2 7))
    by (vm_compute; reflexivity).
  assert (Hrun : exists f, GenerateParamsPrior_body model_rs_padded 1%Z [] = Done f)
    by (eexists; vm_compute; reflexivity).
  split; [exact Hrun |]. destruct Hrun as [f Hf].
  destruct (generateParamsPrior_reads Z 0%Z 1%Z 2%Z Z.add Z.div Z.gtb rng
              standardNormal gamma_distribution unit uninitialized
              model_rs_padded 1%Z [] _ _ _ _ f Hloc Hf) as [_ [_ [Hb Hrs]]].
  destruct Hb as [_ [Hb _]]; [lia | simpl; lia |].
  destruct Hrs as [Hrs _]; [lia | reflexivity | simpl; lia |].
  split; [exact Hrs | exact Hb].
Defined.

Lemma generateParamsPrior_without_particles_witness :
  GenerateParamsPrior (-2)%Z [] model = (Done (None, []), model).
Proof.
  apply (generateParamsPrior_without_particles Z 0%Z 1%Z 2%Z Z.add Z.div Z.gtb rng
           standardNormal gamma_distribution unit uninitialized
           model (-2)%Z [] _ _ _ _ model_nParams).
  - vm_compute. lia.
  - destruct model_sampler_inputs_ok as [_ [_ [_ [_ H]]]]. exact H.
  - lia.
Defined.

Lemma sampled_rows_ignore_storage_witness :
  exists f f',
    GenerateParamsPrior_body model 3%Z [] = Done f /\
    generateParamsPrior_body Z 0%Z 1%Z 2%Z Z.add Z.div Z.gtb rng standardNormal
      gamma_distribution unit (fun _ _ => 7%Z) model 3%Z [] = Done f' /\
    (forall r c, r < 3 -> c < 6 -> coeff (outParams f) r c = coeff (outParams f') r c) /\
    coeff (outParams f) 3 0 = (-1)%Z /\ coeff (outParams f') 3 0 = 7%Z.
Proof.
  destruct (sampled_rows_ignore_storage 0%Z 1%Z 2%Z Z.add Z.div Z.gtb
              standardNormal gamma_distribution eq_refl
              uninitialized (fun _ _ => 7%Z) model 3%Z [] _ _ _ _
              model_nParams model_sampler_inputs_ok)
    as [f [f' [Hf [Hf' [_ [_ [Hsame _]]]]]]]; [vm_compute; lia |].
  exists f, f'. split; [exact Hf |]. split; [exact Hf' |].
  split; [exact Hsame |].
  assert (E : GenerateParamsPrior_body model 3%Z [] = Done f) by exact Hf.
  assert (E' : generateParamsPrior_body Z 0%Z 1%Z 2%Z Z.add Z.div Z.gtb rng standardNormal
                 gamma_distribution unit (fun _ _ => 7%Z) model 3%Z [] = Done f')
    by exact Hf'.
  vm_compute in E. vm_compute in E'.
  injection E as E. injection E' as E'. subst f f'. split; reflexivity.
Defined.

(** ** sort_indexes at an example *)

(** A sort that meets what the standard promises of [std::sort]. *)
Fixpoint insert (comp : nat -> nat -> bool) (x : nat) (l : list nat) : list nat :=
  match l with
  | [] => [x]
  | y :: l' => if comp x y then x :: l else y :: insert comp x l'
  end.

Definition insertion_sort (comp : nat -> nat -> bool) (l : list nat) : list nat :=
  fold_right (insert comp) [] l.

Lemma insert_rearranges : forall comp x l, Permutation (x :: l) (insert comp x l).
Proof.
  intros comp x l. induction l as [|y l IH]; [apply Permutation_refl |].
  cbn [insert]. destruct (comp x y); [apply Permutation_refl |].
  apply (Permutation_trans (perm_swap y x l)). apply perm_skip. exact IH.
Qed.

Lemma insert_keeps_sorted : forall (P : nat -> Prop) comp x l,
  strict_weak_order_on P comp -> P x -> Forall P l ->
  sorted_wrt comp l -> sorted_wrt comp (insert comp x l).
Proof.
  intros P comp x l [Hirr [Htrans _]] Px. unfold sorted_wrt.
  induction l as [|y l IH]; intros Pl Hs.
  - repeat constructor.
  - inversion Hs as [|? ? Hs' Hy]; subst. inversion Pl as [|? ? Py Pl']; subst.
    cbn [insert]. destruct (comp x y) eqn:Exy.
    + constructor; [exact Hs |]. constructor.
      * destruct (comp y x) eqn:Eyx; [| reflexivity].
        rewrite <- (Hirr x Px). symmetry. exact (Htrans x y x Px Py Px Exy Eyx).
      * rewrite Forall_forall in Hy, Pl'. apply Forall_forall. intros z Hz.
        destruct (comp z x) eqn:Ezx; [| reflexivity].
        rewrite <- (Hy z Hz). symmetry.
        exact (Htrans z x y (Pl' z Hz) Px Py Ezx Exy).
    + constructor; [exact (IH Pl' Hs') |].
      apply (Permutation_Forall (insert_rearranges comp x l)).
      constructor; [exact Exy | exact Hy].
Qed.

Lemma insertion_sort_sorts : forall (comp : nat -> nat -> bool) (l : list nat),
  strict_weak_order_on (fun i => In i l) comp ->
  Permutation l (insertion_sort comp l) /\ sorted_wrt comp (insertion_sort comp l).
Proof.
  intros comp l Hord.
  assert (Hperm : forall l', Permutation l' (insertion_sort comp l')).
  { induction l' as [|x l' IH]; [apply Permutation_refl |].
    cbn [insertion_sort fold_right].
    apply (Permutation_trans (perm_skip x IH)). apply insert_rearranges. }
  split; [apply Hperm |].
  assert (Hs : forall l', Forall (fun i => In i l) l' ->
                          sorted_wrt comp (insertion_sort comp l')).
  { induction l' as [|x l' IH]; intro Hall; [constructor |].
    inversion Hall as [|? ? Hx Hall']; subst. cbn [insertion_sort fold_right].
    apply (insert_keeps_sorted (fun i => In i l)); [exact Hord | exact Hx | |].
    - exact (Permutation_Forall (Hperm l') Hall').
    - exact (IH Hall'). }
  apply Hs. apply Forall_forall. intros x Hx. exact Hx.
Qed.

Lemma Z_ltb_is_ordering : forall dom : Z -> Prop, strict_weak_order_on dom Z.ltb.
Proof.
  intro dom. split; [| split].
  - intros a _. apply Z.ltb_irrefl.
  - intros a b c _ _ _ H1 H2. apply Z.ltb_lt in H1. apply Z.ltb_lt in H2.
    apply Z.ltb_lt. lia.
  - intros a b c _ _ _ H1 H2 H3 H4.
    apply Z.ltb_ge in H1. apply Z.ltb_ge in H2. apply Z.ltb_ge in H3. apply Z.ltb_ge in H4.
    split; apply Z.ltb_ge; lia.
Qed.

Local Abbreviation Sort_indexes := (@sort_indexes Z 0%Z Z.ltb insertion_sort).

Lemma sort_indexes_ranks_witness :
  Sort_indexes [30; 10; 20]%Z = [1; 2; 0] /\
  Permutation (seq 0 3) (Sort_indexes [30; 10; 20]%Z) /\
  NoDup (Sort_indexes [30; 10; 20]%Z).
Proof.
  split; [reflexivity |].
  destruct (sort_indexes_ranks 0%Z Z.ltb insertion_sort insertion_sort_sorts
              [30; 10; 20]%Z (Z_ltb_is_ordering _)) as [Hperm [_ [Hnodup _]]].
  split; [exact Hperm | exact Hnodup].
Defined.

Lemma construction_reports_first_failure_witness :
  fst (Ctor dm em_4_locations rm dist tp iv sc (fresh 0%Z storage))
  = Stop ("Exposure model and data model imply different number of locations: 3, 4."
          ++ nl)%string.
Proof.
  destruct (construction_reports_first_failure Z 0%Z 1%Z rng mt19937_seeded unit
              1 2 3 4 5 6 7 storage dm em_4_locations rm dist tp iv sc) as [_ H].
  destruct H as [H _].
  - unfold type_mismatch. intro H.
    repeat (destruct H as [H|H]; [apply H; reflexivity |]). apply H. reflexivity.
  - rewrite H by discriminate. reflexivity.
Defined.

Lemma samplingControl_new_reports_first_failure_witness :
  samplingControl.new 1 2 3 0 [1; 123; 1; 7; 0; 5; 0; 0; 4]%Z [1; 1; 0]%Z
  = Stop "Algorithm specification must be of length 1 and equal to 1 or 2 or 3." /\
  samplingControl.new 1 2 3 0 [1; 123; 1; 1; 10; 5; 0; 0; 4]%Z [1; 1; 0]%Z
  = Stop "max_batches must be greater than zero.".
Proof.
  split.
  - destruct (samplingControl_new_reports_first_failure Z 1 2 3 0
                [1; 123; 1; 7; 0; 5; 0; 0; 4]%Z [1; 1; 0]%Z) as [_ H].
    destruct (H eq_refl eq_refl) as [Halg _]. apply Halg.
    simpl. repeat split; discriminate.
  - destruct (samplingControl_new_reports_first_failure Z 1 2 3 0
                [1; 123; 1; 1; 10; 5; 0; 0; 4]%Z [1; 1; 0]%Z) as [_ H].
    destruct (H eq_refl eq_refl) as [_ Hmax]. apply Hmax.
    + left. reflexivity.
    + simpl. lia.
Defined.

Local Abbreviation Draw_betaRS := (@draw_betaRS Z Z.add Z.div rng standardNormal).

Lemma reinfection_block_sampled_witness :
  Draw_betaRS false 2 2 1 rm_padded four_normals = Done four_normals /\
  exists f',
    Draw_betaRS true 2 2 1 rm_padded four_normals = Done f' /\
    Normal_rows_filled [3; 30; 300]%Z [2; 1; 1]%Z 2 1 2 four_normals f'.
Proof.
  destruct (reinfection_block_sampled Z 0%Z Z.add Z.div rng standardNormal
              2 2 1 rm_padded four_normals) as [Hoff Hon].
  split; [exact Hoff |].
  destruct Hon as [[Hrun _] Hfilled]; [lia | lia |].
  destruct Hrun as [f' Hf']; [vm_compute; lia |].
  exists f'. split; [exact Hf' | exact (Hfilled f' Hf')].
Defined.

(** ** Construction without time points *)

(** A data model and an exposure model with no time point, a distance
    model with no lagged list, and an initial-compartment vector of 2
    entries for 3 locations. *)
Definition dm_no_time : dataModel.t := dataModel.mk 1 3 0 (zeros 0%Z 0 3).

Definition em_no_time : exposureModel.t Z :=
  exposureModel.mk 2 3 0 (zeros 0%Z 0 2) [5; 6]%Z [1; 2]%Z.

Definition dist_no_time : distanceModel.t Z :=
  distanceModel.mk 4 3 [zeros 0%Z 3 3] [] [1; 1]%Z.

Definition iv_short : initialValueContainer.t :=
  initialValueContainer.mk 6 [100; 100]%Z [0; 0]%Z [1; 1]%Z [0; 0]%Z.

(** C4, as the claim states it, at that input: a listed condition holds
    (the initial-compartment vector has 2 entries for 3 locations), and the
    constructor does not stop: with the counts of lagged lists and of time
    points both 0, line 85 reads [tdm_list[0]] of the empty vector before
    the length of [S0] is looked at. *)
Lemma construction_without_time_points :
  invalid_configuration Z 1 2 3 4 5 6 7 dm_no_time em_no_time rm dist_no_time tp iv_short sc /\
  fst (Ctor dm_no_time em_no_time rm dist_no_time tp iv_short sc (fresh 0%Z storage)) = Fault /\
  ~ (exists msg,
       fst (Ctor dm_no_time em_no_time rm dist_no_time tp iv_short sc (fresh 0%Z storage))
       = Stop msg).
Proof.
  split.
  { right. unfold dimension_mismatch. right. right. right. left. discriminate. }
  split; [vm_compute; reflexivity |].
  intros [msg H]. vm_compute in H. discriminate H.
Qed.

End Demo.

(** * The density on binary64

    [evalPrior] computes in [double]. Here the arithmetic is that of
    binary64; the densities are stand-ins that take the values R's take
    where it matters: [dbeta(x, a, b)] is 0 outside [0, 1] and infinite at
    0 when the first shape is below 1. *)

Module Binary64.

Import PrimFloat SpecFloat.

Definition gtb (x y : float) : bool := PrimFloat.ltb y x.

Definition dnorm (x mu sigma : float) : float := 1%float.

Definition dbeta (x a b : float) : float :=
  if PrimFloat.ltb x 0 || PrimFloat.ltb 1 x then 0%float
  else if PrimFloat.eqb x 0 && PrimFloat.ltb a 1 then infinity
  else 1%float.

Definition dgamma (x shape scale : float) : float := 1%float.

Definition evalParamPrior (w : weibullTransitionDistribution float) (v : list float)
  : float := 1%float.

Definition zeros (r c : nat) : Matrix float := mkMatrix r c (fun _ _ => 0%float).

Definition em : exposureModel.t float :=
  exposureModel.mk 2 3 10 (zeros 30 2) [0; 0]%float [1; 1]%float.

Definition rm : reinfectionModel.t float :=
  reinfectionModel.mk 3 3 (zeros 10 1) [0%float] [0%float].

(** The spatial prior is Beta(0.5, 1). *)
Definition dist : distanceModel.t float :=
  distanceModel.mk 4 3 [zeros 3 3] (repeat [zeros 3 3] 10) [0.5; 1]%float.

Definition hyper : Matrix float :=
  mkMatrix 4 1
    (fun i _ => match i with 0%nat => 2 | 1%nat => 1 | 2%nat => 3 | _ => 1 end)%float.

Definition tp : transitionPriors.t float :=
  transitionPriors.mk 5 "exponential" hyper hyper.

Definition sc : samplingControl.t float :=
  samplingControl.mk (D := float) 1 123 1 1 10 5 10 false 4 1%float 1%float 0%float 0.

Definition storage : spatialSEIRModel float unit unit :=
  mkModel float unit unit Demo.dm em rm dist tp Demo.iv sc None None tt true (zeros 0 0) []
    (zeros 0 0) [] None 0 false true "" 4.

Definition model : spatialSEIRModel float unit unit :=
  match @spatialSEIRModel_new float 0%float 1%float unit (fun _ => tt) unit
          1 2 3 4 5 6 7 storage Demo.dm em rm dist tp Demo.iv sc with
  | Done this => this
  | _ => storage
  end.

Local Abbreviation EvalPrior :=
  (@evalPrior float 0%float 1%float PrimFloat.add PrimFloat.mul PrimFloat.div gtb
     PrimFloat.leb unit dnorm dbeta dgamma evalParamPrior unit).

(** Two exposure coefficients, the rho block (0, 2), two transition
    parameters. *)
Definition v : list float := [0; 0; 0; 2; 1; 1]%float.

(** C7, as the claim states it, at that vector: the rho block sums to 2,
    and [evalPrior] does not return 0. The density of the first rho entry
    is infinite, that of the second is 0, and their product, and every
    product after it, the one with the indicator included, is not a
    number. *)
Lemma evalPrior_not_zero_outside_simplex :
  gtb (rho_sum float 0%float PrimFloat.add v 2 2) 1 = true /\
  EvalPrior model v = Done nan /\
  PrimFloat.eqb nan 0 = false /\
  EvalPrior model v <> Done 0%float.
Proof.
  split; [vm_compute; reflexivity |].
  split; [vm_compute; reflexivity |].
  split; [vm_compute; reflexivity |].
  intro H. assert (E : EvalPrior model v = Done nan) by (vm_compute; reflexivity).
  rewrite E in H.
  apply (f_equal (fun o => match o with Done x => is_nan x | _ => false end)) in H.
  vm_compute in H. discriminate H.
Qed.

(** On binary64 [x > y] excludes [x <= y], also for infinities and for
    what is not a number. *)
Lemma SFcompare_Lt_Gt : forall a b : spec_float,
  SFcompare a b = Some Lt -> SFcompare b a = Some Gt.
Proof.
  intros a b H.
  destruct a as [sa|sa| |sa ma ea]; destruct b as [sb|sb| |sb mb eb];
    cbn in H |- *; try discriminate H;
    try (destruct sa; try destruct sb; cbn in H |- *; congruence).
  destruct sa, sb; cbn in H |- *; try congruence.
  - rewrite (Z.compare_antisym ea eb).
    destruct (ea ?= eb)%Z; cbn in H |- *; try congruence.
    pose proof (Pos.compare_cont_antisym ma mb Eq) as P. cbn [CompOpp] in P.
    rewrite <- P.
    destruct (Pos.compare_cont Eq ma mb); cbn in H |- *; congruence.
  - rewrite (Z.compare_antisym ea eb).
    destruct (ea ?= eb)%Z; cbn in H |- *; try congruence.
    pose proof (Pos.compare_cont_antisym ma mb Eq) as P. cbn [CompOpp] in P.
    rewrite <- P.
    destruct (Pos.compare_cont Eq ma mb); cbn in H |- *; congruence.
Qed.

Lemma gtb_excludes_leb : forall x y : float, gtb x y = true -> PrimFloat.leb x y = false.
Proof.
  intros x y H. unfold gtb in H. rewrite FloatAxioms.ltb_spec in H.
  rewrite FloatAxioms.leb_spec. unfold SFltb in H. unfold SFleb.
  destruct (SFcompare (FloatOps.Prim2SF y) (FloatOps.Prim2SF x)) as [[| |]|] eqn:E;
    try discriminate H.
  rewrite (SFcompare_Lt_Gt _ _ E). reflexivity.
Qed.

(** The rho block (0.5, 2): every factor is finite, and the density is 0. *)
Definition v_finite : list float := [0; 0; 0.5; 2; 1; 1]%float.

Lemma binary64_priors_cover : priors_cover model 2 0 2 "exponential".
Proof.
  unfold priors_cover, transition_inputs_ok. simpl.
  repeat split; try lia; try (intros _; lia); try discriminate.
Qed.

Example evalPrior_zero_on_binary64 :
  gtb (rho_sum float 0%float PrimFloat.add v_finite 2 2) 1 = true /\
  EvalPrior model v_finite = Done 0%float.
Proof.
  split; [vm_compute; reflexivity |].
  assert (Hloc : @evalPrior_locals float 0%float gtb unit unit model
                 = Done (false, true, "exponential"%string, (2, 0, 2)))
    by (vm_compute; reflexivity).
  destruct (evalPrior_zero_outside_simplex float 0%float 1%float PrimFloat.add
              PrimFloat.mul PrimFloat.div gtb PrimFloat.leb unit
              dnorm dbeta dgamma evalParamPrior unit
              eq_refl gtb_excludes_leb
              model v_finite _ _ _ _ _ _ Hloc binary64_priors_cover)
    as [_ [_ Hzero]]; [vm_compute; lia |].
  destruct Hzero as [_ Hzero]; [vm_compute; reflexivity |].
  apply Hzero.
  - vm_compute. reflexivity.
  - repeat constructor.
Qed.

End Binary64.
